(** * The multigrid solve driver [mg_solve] of include/multigrid/mg_solver.h

    [mg_solve] is one long function that drives external collaborators
    (level operators, Chebyshev smoothers, the cycle engine, the outer CG
    solver, the log and the table sink).  The embedding keeps its local
    variables in a state record, records every call into a collaborator as
    an event of a trace, and runs in a small state-and-failure monad whose
    failures are the thrown [ExcNotImplemented] and undefined behaviour
    (an out-of-range [operator[]] on a [std::vector], a dereferenced
    [end()] iterator).  What the collaborators answer is an input: the
    eigenvalue estimates, the signals fired by the cycles of the outer
    solve with the clock readings taken in the callbacks, the MPI rank, and
    whether the build has Trilinos.  Calls into the collaborators are taken
    to return.

    Numbers.  [unsigned int] levels are natural numbers: a level is an index
    into vectors of [max_level + 1] elements, far from the 32-bit range, and
    an [MGLevelObject] has [min_level <= max_level].
    [double] is IEEE 754 binary64, as the primitive floats of Rocq: sums,
    products and quotients are rounded to nearest, ties to even, and there
    is one NaN, which compares false with everything and absorbs
    arithmetic.  Time points are integer nanosecond counts since the
    clock's epoch; the difference of two readings is the signed 64-bit
    count of the code as long as its magnitude is below 2^63, and it is
    converted to the nearest [double]. *)

From Stdlib Require Import ZArith Lia String List Floats.
From Stdlib Require Uint63.
From stdpp Require Import base option list strings gmap.

Local Open Scope string_scope.
Local Open Scope list_scope.
Local Open Scope nat_scope.

(** ** [double] *)

Abbreviation double := float.

Definition NaN : double := nan.

(** [numbers::signaling_nan<double>()] *)
Definition signaling_nan : double := NaN.

Definition dzero : double := 0%float.

(** [x < y] on doubles: false as soon as one side is NaN. *)
Definition dlt (x y : double) : bool := (x <? y)%float.

Definition dadd (x y : double) : double := (x + y)%float.

Definition dmul (x y : double) : double := (x * y)%float.

(** [x <= y] on doubles, used to state bounds; it is false as soon as one
    side is NaN. *)
Definition dle (x y : double) : Prop := (x <=? y)%float = true.

(** Neither NaN nor an infinity. *)
Definition is_finite (x : double) : Prop := PrimFloat.is_finite x = true.

(** The literal [1.1] of line 118: the double nearest to 11/10. *)
Definition safety_factor : double := 0x1.199999999999ap+0%float.

(** ** Clock values *)

(** [std::chrono::time_point<std::chrono::system_clock>], in nanoseconds
    since the epoch; a value-initialised time point is the epoch. *)
Abbreviation time_point := Z.
Definition epoch : time_point := 0%Z.

(** The conversion of the signed 64-bit [count] to [double]: the nearest
    double, for every count of magnitude below 2^63. *)
Definition double_of_count (count : Z) : double :=
  if (count <? 0)%Z
  then (- of_uint63 (Uint63.of_Z (- count)))%float
  else of_uint63 (Uint63.of_Z count).

(** [duration_cast<nanoseconds>(d).count() / 1e9]: the integer count of
    nanoseconds, converted to [double] and divided by the double [1e9]. *)
Definition seconds_of_count (count : Z) : double :=
  (double_of_count count / 1000000000)%float.

(** [std::max_element(first, last)] on doubles, with [operator<]: the first
    largest element, [None] standing for the returned [last] of an empty
    range. *)
Fixpoint max_element_from (largest : double) (l : list double) : double :=
  match l with
  | [] => largest
  | x :: l' => max_element_from (if dlt largest x then x else largest) l'
  end.

Definition max_element (l : list double) : option double :=
  match l with
  | [] => None
  | x :: l' => Some (max_element_from x l')
  end.

(** ** Configuration: [MGSolverParameters] as [mg_solve] reads it *)

Module Smoother.
Record t : Type := Build {
  type : string;
  smoothing_range : double;
  degree : nat;
  eig_cg_n_iterations : nat
}.

End Smoother.

Module CoarseSolver.
Record t : Type := Build {
  type : string;
  maxiter : nat;
  abstol : double;
  reltol : double;
  smoother_sweeps : nat;
  n_cycles : nat;
  smoother_type : string
}.

End CoarseSolver.

Record MGSolverParameters : Type := {
  smoother : Smoother.t;
  coarse_solver : CoarseSolver.t;
  estimate_eigenvalues : bool;
  log_levels : bool
}.

(** ** Objects handed to the collaborators *)

(** What the [preconditioner] pointer of a smoother configuration refers
    to. *)
Inductive preconditioner_ref : Type :=
| null_preconditioner
| level_preconditioner (level : nat)   (* mg_smoother_preconditioners[level] *)
| inverse_diagonal (level : nat).      (* DiagonalMatrix filled by compute_inverse_diagonal *)

(** [PreconditionChebyshev::AdditionalData], the fields [mg_solve] writes. *)
Module AdditionalData.
Record t : Type := Build {
  preconditioner : preconditioner_ref;
  smoothing_range : double;
  degree : nat;
  eig_cg_n_iterations : nat;
  max_eigenvalue : double
}.

End AdditionalData.

(** The result of [PreconditionChebyshev::estimate_eigenvalues]. *)
Record EigenvalueInformation : Type := {
  min_eigenvalue_estimate : double;
  max_eigenvalue_estimate : double
}.

Record ReductionControl : Type := {
  rc_maxiter : nat;
  rc_abstol : double;
  rc_reltol : double;
  rc_log_history : bool;
  rc_log_result : bool
}.

(** [TrilinosWrappers::PreconditionAMG::AdditionalData], the fields set. *)
Record AmgData : Type := {
  amg_smoother_sweeps : nat;
  amg_n_cycles : nat;
  amg_smoother_type : string
}.

Inductive coarse_preconditioner : Type :=
| coarse_identity
| coarse_chebyshev
| coarse_amg.

(** The seven signals of the cycle engine, in the order of lines 237-243. *)
Inductive stage : Type :=
| pre_smoother_step
| residual_step
| restriction
| coarse_solve
| prolongation
| edge_prolongation
| post_smoother_step.

Global Instance stage_eq_dec : EqDecision stage.
Proof. solve_decision. Defined.

(** One row of the [ConvergenceTable] of lines 258-274. *)
Record table_row : Type := {
  row_level : nat;
  row_pre_smoother_step : double;
  row_residual_step : double;
  row_restriction : double;
  row_coarse_solve : double;
  row_prolongation : double;
  row_edge_prolongation : double;
  row_post_smoother_step : double;
  row_min_eigenvalue : option double;
  row_max_eigenvalue : option double
}.

(** ** Calls into the collaborators *)

Inductive event : Type :=
| EvMgMatrix                                                        (* line 83 *)
| EvChebyshevInitialize (level : nat) (data : AdditionalData.t)     (* line 107 *)
| EvInitializeDofVector (level : nat)                               (* line 110 *)
| EvEstimateEigenvalues (level : nat)                               (* line 111 *)
| EvPCOutMaxEV (max : double)                                       (* line 123 *)
| EvTableMaxEV (max : double)                                       (* line 124 *)
| EvMgSmootherInitialize (data : gmap nat AdditionalData.t)         (* line 129 *)
| EvComputeInverseDiagonal (level : nat)                            (* line 168 *)
| EvPreconditionChebyshevInitialize (level : nat) (data : AdditionalData.t) (* line 173 *)
| EvPreconditionAmgInitialize (level : nat) (data : AmgData)        (* line 192 *)
| EvCoarseGridSolver (p : coarse_preconditioner) (level : nat) (control : ReductionControl)
| EvMultigrid                                                       (* line 209 *)
| EvPreconditionMG                                                  (* line 248 *)
| EvSolve                                                           (* line 251 *)
| EvWriteText (filename : string) (table : list table_row).         (* lines 275-276 *)

(** A signal fired by the cycle engine during the outer solve, together
    with what [system_clock::now()] returns if a callback asks for it. *)
Record signal : Type := {
  sig_slot : stage;
  sig_flag : bool;
  sig_level : nat;
  sig_now : time_point
}.

(** What [mg_solve] gets from outside and cannot see into. *)
Record environment : Type := {
  (* DEAL_II_WITH_TRILINOS *)
  with_trilinos : bool;
  (* a default-constructed SmootherType::AdditionalData *)
  default_additional_data : AdditionalData.t;
  (* chebyshev.estimate_eigenvalues on a level, for the configuration the
     estimating smoother was initialised with *)
  estimate : nat -> AdditionalData.t -> EigenvalueInformation;
  (* Utilities::MPI::this_mpi_process(dof.get_communicator()) *)
  this_mpi_process : nat;
  (* the signals of all cycles run by SolverCG::solve, in order *)
  cycle_signals : list signal
}.

(** ** Local variables of [mg_solve] *)

Record mg_state : Type := MgState {
  smoother_data : gmap nat AdditionalData.t;
  min_eigenvalues : list double;
  max_eigenvalues : list double;
  all_mg_timers : list (list (double * time_point));
  slots : list (stage * nat * string);
  table : list table_row;
  trace : list event
}.

Definition initial_state : mg_state :=
  MgState ∅ [] [] [] [] [] [].

Definition set_smoother_data (x : gmap nat AdditionalData.t) (s : mg_state) : mg_state :=
  MgState x (min_eigenvalues s) (max_eigenvalues s) (all_mg_timers s)
          (slots s) (table s) (trace s).
Definition set_min_eigenvalues (x : list double) (s : mg_state) : mg_state :=
  MgState (smoother_data s) x (max_eigenvalues s) (all_mg_timers s)
          (slots s) (table s) (trace s).
Definition set_max_eigenvalues (x : list double) (s : mg_state) : mg_state :=
  MgState (smoother_data s) (min_eigenvalues s) x (all_mg_timers s)
          (slots s) (table s) (trace s).
Definition set_all_mg_timers (x : list (list (double * time_point))) (s : mg_state) : mg_state :=
  MgState (smoother_data s) (min_eigenvalues s) (max_eigenvalues s) x
          (slots s) (table s) (trace s).
Definition set_slots (x : list (stage * nat * string)) (s : mg_state) : mg_state :=
  MgState (smoother_data s) (min_eigenvalues s) (max_eigenvalues s) (all_mg_timers s)
          x (table s) (trace s).
Definition set_table (x : list table_row) (s : mg_state) : mg_state :=
  MgState (smoother_data s) (min_eigenvalues s) (max_eigenvalues s) (all_mg_timers s)
          (slots s) x (trace s).
Definition set_trace (x : list event) (s : mg_state) : mg_state :=
  MgState (smoother_data s) (min_eigenvalues s) (max_eigenvalues s) (all_mg_timers s)
          (slots s) (table s) x.

(** ** The monad *)

Inductive exception : Type :=
| ExcNotImplemented.

Inductive outcome (A : Type) : Type :=
| Returned (a : A)
| Threw (e : exception)
| Undefined.
Arguments Returned {A} a.
Arguments Threw {A} e.
Arguments Undefined {A}.

Definition M (A : Type) : Type := mg_state -> mg_state * outcome A.

Definition ret {A} (a : A) : M A := fun s => (s, Returned a).

Definition bind {A B} (m : M A) (k : A -> M B) : M B :=
  fun s =>
    match m s with
    | (s', Returned a) => k a s'
    | (s', Threw e) => (s', Threw e)
    | (s', Undefined) => (s', Undefined)
    end.

Notation "'let!' x ':=' m 'in' k" := (bind m (fun x => k))
  (at level 10, x name, m at level 99, k at level 200).
Notation "m '>>' k" := (bind m (fun _ => k))
  (at level 100, k at level 200, right associativity).

Definition AssertThrow (cond : bool) (e : exception) : M unit :=
  fun s => (s, if cond then Returned tt else Threw e).

Definition undefined {A} : M A := fun s => (s, Undefined).

Definition call (e : event) : M unit :=
  fun s => (set_trace (trace s ++ [e]) s, Returned tt).

Definition get {X} (proj : mg_state -> X) : M X :=
  fun s => (s, Returned (proj s)).

Definition modify (f : mg_state -> mg_state) : M unit :=
  fun s => (f s, Returned tt).

(** Reading through an index or an iterator that may be out of range. *)
Definition deref {A} (o : option A) : M A :=
  match o with
  | Some a => ret a
  | None => undefined
  end.

Definition when (b : bool) (m : M unit) : M unit :=
  if b then m else ret tt.

Fixpoint for_each {A} (l : list A) (body : A -> M unit) : M unit :=
  match l with
  | [] => ret tt
  | x :: l' => body x >> for_each l' body
  end.

(** [for (unsigned int level = first; level <= last; level++)] *)
Definition levels (first last : nat) : list nat := seq first (S last - first).

(** [MGLevelObject<A> object(min_level, max_level)]: one default-constructed
    entry per level, kept as a finite map keyed by the level. *)
Definition new_level_object {A} (min_level max_level : nat) (x : A) : gmap nat A :=
  foldr (fun level m => <[level := x]> m) ∅ (levels min_level max_level).

(** [v[i] = x] on a [std::vector] held in a local variable. *)
Definition vector_set {A} (proj : mg_state -> list A)
    (set : list A -> mg_state -> mg_state) (i : nat) (x : A) : M unit :=
  let! v := get proj in
  if decide (i < length v) then modify (set (<[i := x]> v)) else undefined.

(** [smoother_data[level]] changed in place. *)
Definition update_smoother_data (level : nat)
    (f : AdditionalData.t -> AdditionalData.t) : M unit :=
  let! sd := get smoother_data in
  let! d := deref (sd !! level) in
  modify (set_smoother_data (<[level := f d]> sd)).

(** ** [mg_solve] *)

(** The closure returned by [create_mg_timer_function(i, label)], called
    with [(flag, level)]; [now] is what [system_clock::now()] returns in
    it (lines 223-234).  The label is captured but not used. *)
Definition create_mg_timer_function (i : nat) (label : string)
    (flag : bool) (level : nat) (now : time_point) : M unit :=
  let! timers := get all_mg_timers in
  let! row := deref (timers !! level) in
  let! cell := deref (row !! i) in
  if flag
  then modify (set_all_mg_timers (<[level := <[i := (cell.1, now)]> row]> timers))
  else modify (set_all_mg_timers
         (<[level := <[i := (dadd cell.1 (seconds_of_count (now - cell.2)), cell.2)]> row]> timers)).

(** [mg.connect_...(create_mg_timer_function(i, label))]: the closure is
    stored in the slot of its signal. *)
Definition connect (slot : stage) (i : nat) (label : string) : M unit :=
  modify (fun s => set_slots (slots s ++ [(slot, i, label)]) s).

Section MgSolve.
Variable env : environment.
Variable mg_data : MGSolverParameters.
(** [mg_matrices.min_level()] and [mg_matrices.max_level()] *)
Variables min_level max_level : nat.
Variable filename_mg_level : string.

(** What lines 90-93 write into [smoother_data[level]]. *)
Definition configure (level : nat) (d : AdditionalData.t) : AdditionalData.t :=
  AdditionalData.Build
    (level_preconditioner level)
    (Smoother.smoothing_range (smoother mg_data))
    (Smoother.degree (smoother mg_data))
    (Smoother.eig_cg_n_iterations (smoother mg_data))
    (AdditionalData.max_eigenvalue d).

(** Lines 86-94. *)
Definition initialize_smoother_data : M unit :=
  modify (set_smoother_data
            (new_level_object min_level max_level (default_additional_data env))) >>
  for_each (levels min_level max_level)
    (fun level => update_smoother_data level (configure level)).

(** What lines 117-118 write into [smoother_data[level]]. *)
Definition use_estimate (evs : EigenvalueInformation) (d : AdditionalData.t)
    : AdditionalData.t :=
  AdditionalData.Build
    (AdditionalData.preconditioner d)
    (AdditionalData.smoothing_range d)
    (AdditionalData.degree d)
    0
    (dmul (max_eigenvalue_estimate evs) safety_factor).

(** The body of the loop of lines 104-119. *)
Definition estimate_level (level : nat) : M unit :=
  let! sd := get smoother_data in
  let! d := deref (sd !! level) in
  call (EvChebyshevInitialize level d) >>
  call (EvInitializeDofVector level) >>
  call (EvEstimateEigenvalues level) >>
  let evs := estimate env level d in
  vector_set min_eigenvalues set_min_eigenvalues level (min_eigenvalue_estimate evs) >>
  vector_set max_eigenvalues set_max_eigenvalues level (max_eigenvalue_estimate evs) >>
  update_smoother_data level (use_estimate evs).

(** Lines 121-124: [++(max_eigenvalues.begin())] skips index 0. *)
Definition log_max_eigenvalue : M unit :=
  let! maxs := get max_eigenvalues in
  let! range := deref (match maxs with [] => None | _ :: l => Some l end) in
  let! max := deref (max_element range) in
  call (EvPCOutMaxEV max) >>
  call (EvTableMaxEV max).

(** Lines 100-125. *)
Definition estimate_all_levels : M unit :=
  modify (set_min_eigenvalues (replicate (max_level + 1) signaling_nan)) >>
  modify (set_max_eigenvalues (replicate (max_level + 1) signaling_nan)) >>
  when (estimate_eigenvalues mg_data)
    (for_each (levels (min_level + 1) max_level) estimate_level >>
     log_max_eigenvalue).

(** Lines 128-129. *)
Definition initialize_mg_smoother : M unit :=
  let! sd := get smoother_data in
  call (EvMgSmootherInitialize sd).

Definition coarse_grid_solver_control : ReductionControl :=
  {| rc_maxiter := CoarseSolver.maxiter (coarse_solver mg_data);
     rc_abstol := CoarseSolver.abstol (coarse_solver mg_data);
     rc_reltol := CoarseSolver.reltol (coarse_solver mg_data);
     rc_log_history := true;
     rc_log_result := true |}.

(** Lines 165-171: the configuration of the coarse Chebyshev
    preconditioner, starting from a default-constructed one. *)
Definition coarse_chebyshev_data : AdditionalData.t :=
  AdditionalData.Build
    (inverse_diagonal min_level)
    (Smoother.smoothing_range (smoother mg_data))
    (Smoother.degree (smoother mg_data))
    (Smoother.eig_cg_n_iterations (smoother mg_data))
    (AdditionalData.max_eigenvalue (default_additional_data env)).

Definition amg_data : AmgData :=
  {| amg_smoother_sweeps := CoarseSolver.smoother_sweeps (coarse_solver mg_data);
     amg_n_cycles := CoarseSolver.n_cycles (coarse_solver mg_data);
     amg_smoother_type := CoarseSolver.smoother_type (coarse_solver mg_data) |}.

(** Lines 131-206. *)
Definition initialize_coarse_solver : M unit :=
  let type := CoarseSolver.type (coarse_solver mg_data) in
  if String.eqb type "cg" then
    call (EvCoarseGridSolver coarse_identity min_level coarse_grid_solver_control)
  else if String.eqb type "cg_with_chebyshev" then
    call (EvComputeInverseDiagonal min_level) >>
    call (EvPreconditionChebyshevInitialize min_level coarse_chebyshev_data) >>
    call (EvCoarseGridSolver coarse_chebyshev min_level coarse_grid_solver_control)
  else if String.eqb type "cg_with_amg" then
    if with_trilinos env then
      call (EvPreconditionAmgInitialize min_level amg_data) >>
      call (EvCoarseGridSolver coarse_amg min_level coarse_grid_solver_control)
    else AssertThrow false ExcNotImplemented
  else AssertThrow false ExcNotImplemented.

(** Lines 214-218: [max_level - min_level + 1] rows of seven
    value-initialised pairs. *)
Definition allocate_timers : M unit :=
  modify (set_all_mg_timers
            (replicate (max_level - min_level + 1) (replicate 7 (dzero, epoch)))).

(** Lines 237-243. *)
Definition connect_timers : M unit :=
  connect pre_smoother_step 0 "pre_smoother_step" >>
  connect residual_step 1 "residual_step" >>
  connect restriction 2 "restriction" >>
  connect coarse_solve 3 "coarse_solve" >>
  connect prolongation 4 "prolongation" >>
  connect edge_prolongation 5 "edge_prolongation" >>
  connect post_smoother_step 6 "post_smoother_step".

(** The cycle engine fires a signal: every closure stored in its slot is
    called. *)
Definition fire (sg : signal) : M unit :=
  let! connected := get slots in
  for_each (filter (fun c => c.1.1 = sig_slot sg) connected)
    (fun c => create_mg_timer_function c.1.2 c.2
                (sig_flag sg) (sig_level sg) (sig_now sg)).

(** Line 251: the outer solve, seen through the signals of its cycles. *)
Definition solve : M unit :=
  call EvSolve >>
  for_each (cycle_signals env) fire.

(** The body of the loop of lines 259-274. *)
Definition add_row (level : nat) : M unit :=
  let! timers := get all_mg_timers in
  let! row := deref (timers !! level) in
  let! t0 := deref (row !! 0) in
  let! t1 := deref (row !! 1) in
  let! t2 := deref (row !! 2) in
  let! t3 := deref (row !! 3) in
  let! t4 := deref (row !! 4) in
  let! t5 := deref (row !! 5) in
  let! t6 := deref (row !! 6) in
  let! mins := get min_eigenvalues in
  let! maxs := get max_eigenvalues in
  let! ev_min :=
    (if estimate_eigenvalues mg_data
     then let! x := deref (mins !! level) in ret (Some x)
     else ret None) in
  let! ev_max :=
    (if estimate_eigenvalues mg_data
     then let! x := deref (maxs !! level) in ret (Some x)
     else ret None) in
  modify (fun s => set_table
    (table s ++ [ {| row_level := level;
                     row_pre_smoother_step := t0.1;
                     row_residual_step := t1.1;
                     row_restriction := t2.1;
                     row_coarse_solve := t3.1;
                     row_prolongation := t4.1;
                     row_edge_prolongation := t5.1;
                     row_post_smoother_step := t6.1;
                     row_min_eigenvalue := ev_min;
                     row_max_eigenvalue := ev_max |} ]) s).

(** Lines 255-277. *)
Definition dump_table : M unit :=
  when (log_levels mg_data && Nat.eqb (this_mpi_process env) 0)
    (let! timers := get all_mg_timers in
     for_each (seq 0 (length timers)) add_row >>
     let! t := get table in
     call (EvWriteText filename_mg_level t)).

Definition mg_solve : M unit :=
  AssertThrow (String.eqb (Smoother.type (smoother mg_data)) "chebyshev")
              ExcNotImplemented >>
  call EvMgMatrix >>
  initialize_smoother_data >>
  estimate_all_levels >>
  initialize_mg_smoother >>
  initialize_coarse_solver >>
  call EvMultigrid >>
  allocate_timers >>
  when (log_levels mg_data) connect_timers >>
  call EvPreconditionMG >>
  solve >>
  dump_table.

(** One call of [mg_solve]: the final locals and trace, and how it
    ended. *)
Definition run : mg_state * outcome unit := mg_solve initial_state.

End MgSolve.

(** ** Sample inputs *)

(** A configuration in the style of the parameter files: Chebyshev
    smoother of degree 5, range 20, ten CG iterations for the eigenvalue
    estimate. *)
Definition sample_parameters (smoother_type coarse_type : string)
    (estimate log : bool) : MGSolverParameters :=
  {| smoother := Smoother.Build smoother_type 20%float 5 10;
     coarse_solver :=
       CoarseSolver.Build coarse_type 100 0%float 0x1.47ae147ae147bp-7%float 1 1 "ILU";
     estimate_eigenvalues := estimate;
     log_levels := log |}.

(** deal.II's default-constructed [AdditionalData]: degree 1, range 0,
    eight CG iterations, maximum eigenvalue 1. *)
Definition sample_default_data : AdditionalData.t :=
  AdditionalData.Build null_preconditioner 0%float 1 8 1%float.

(** An environment whose estimator finds the interval
    [level/10, level] on each level. *)
Definition sample_environment (trilinos : bool) (rank : nat) (sigs : list signal)
    : environment :=
  {| with_trilinos := trilinos;
     default_additional_data := sample_default_data;
     estimate := fun level _ =>
       {| min_eigenvalue_estimate :=
            (of_uint63 (Uint63.of_Z (Z.of_nat level)) / 10)%float;
          max_eigenvalue_estimate := of_uint63 (Uint63.of_Z (Z.of_nat level)) |};
     this_mpi_process := rank;
     cycle_signals := sigs |}.

(** The same environment with other cycles run by the outer solve. *)
Definition with_cycle_signals (env : environment) (sigs : list signal) : environment :=
  {| with_trilinos := with_trilinos env;
     default_additional_data := default_additional_data env;
     estimate := estimate env;
     this_mpi_process := this_mpi_process env;
     cycle_signals := sigs |}.

(** A wall-clock reading of the autumn of 2024, in nanoseconds. *)
Definition sample_now : time_point := 1730000000000000000%Z.

(** * The Poisson problem class of problem/poisson.cc

    The constructor fills the collections, fixes the hierarchy of finite
    elements that p-adaptation moves along and creates the operator;
    [log_diagnostics] prints the per-process counts; [solve] and [run]
    drive the collaborators (grid, system setup, solvers, error
    computation, output) once per adaptation cycle.  The
    two index functions of the hierarchy and the printing are functions on
    [unsigned int] values, written with their wrap-around.  [solve] and
    [run] run in a monad that records the calls and stops at a failed
    [Assert], which exists in a debug build only; the calls are taken to
    return, and the [TimerOutput::Scope] objects are not recorded. *)

Module Poisson.

(** ** Machine integers *)

(** The value of an [unsigned int] expression whose mathematical value is
    [z]. *)
Definition unsigned_int (z : Z) : Z := (z mod 2 ^ 32)%Z.

(** The value of [z] converted to [int] (two's complement). *)
Definition int (z : Z) : Z := ((z + 2 ^ 31) mod 2 ^ 32 - 2 ^ 31)%Z.

(** ** The finite element hierarchy (constructor, lines 59-80) *)

(** The degrees of the elements of [fe_collection] after the loop of lines
    59-64, which pushes [FE_Q(degree)] for [degree = 1 .. max_p_degree]
    (the loop ends for every [max_p_degree] below 2^32 - 1). *)
Definition fe_collection (max_p_degree : Z) : list Z :=
  Z.of_nat <$> seq 1 (Z.to_nat max_p_degree).

(** [fe_collection.size()] *)
Definition size (collection : list Z) : Z := Z.of_nat (length collection).

(** [fe_collection[fe_index].degree] *)
Definition degree_at (collection : list Z) (fe_index : Z) : option Z :=
  collection !! Z.to_nat fe_index.

(** Line 66 (and line 169). *)
Definition min_fe_index (min_p_degree : Z) : Z := unsigned_int (min_p_degree - 1).

(** The first lambda of [set_hierarchy], lines 69-73. *)
Definition next_index (fe_collection : list Z) (fe_index : Z) : Z :=
  if (unsigned_int (fe_index + 1) <? size fe_collection)%Z
  then unsigned_int (fe_index + 1)
  else fe_index.

(** The second lambda, lines 75-80; [None] is the failed [Assert] of a
    debug build. *)
Definition previous_index (DEBUG : bool) (min_fe_index : Z) (fe_index : Z)
    : option Z :=
  if DEBUG && negb (fe_index >=? min_fe_index)%Z then None
  else Some (if (fe_index >? min_fe_index)%Z
             then unsigned_int (fe_index - 1)
             else fe_index).

(** ** [log_diagnostics], lines 228-292 *)

(** What is streamed to [pcout]. *)
Inductive item : Type :=
| Text (s : string)
| Number (n : Z)
| Endl.

(** Lines 232-233. *)
Definition first_n_processes (n_processes : Z) : Z := Z.min 8 n_processes.

(** Line 234. *)
Definition output_cropped (n_processes : Z) : bool :=
  (first_n_processes n_processes <? n_processes)%Z.

(** The loop and the two statements after it that print one gathered
    vector (lines 245-249, 261-265 and 281-285); [None] is an access past
    the end of the vector. *)
Definition by_partition (n_processes : Z) (per_subdomain : list Z)
    : option (list item) :=
  shown ← mapM (fun i => per_subdomain !! i)
               (seq 0 (Z.to_nat (first_n_processes n_processes)));
  Some (flat_map (fun n => [Text " "; Number n]) shown ++
        (if output_cropped n_processes then [Text " ..."] else []) ++
        [Endl]).

(** Lines 271-274: [std::accumulate] with the initial value [0] adds up in
    an [int]; each sum is formed in the unsigned type of the elements,
    [width] bits wide (32, or 64 with 64-bit indices), and converted back
    to [int]; the result initialises an [unsigned int]. *)
Definition n_constraints (width : Z) (n_constraints_per_subdomain : list Z) : Z :=
  unsigned_int
    (foldl (fun acc n => int ((acc + n) mod 2 ^ width)%Z) 0%Z
           n_constraints_per_subdomain).

(** Lines 289-292: the counter of its active element is incremented for
    every locally owned cell; [active_fe_index] lists the indices of these
    cells in the order of the loop, and [None] is an increment past the end
    of the vector. *)
Definition n_fe_indices (fe_collection : list Z) (active_fe_index : list nat)
    : option (list Z) :=
  foldl (fun counters fe_index =>
           counts ← counters;
           n ← counts !! fe_index;
           Some (<[fe_index := unsigned_int (n + 1)]> counts))
        (Some (replicate (length fe_collection) 0%Z))
        active_fe_index.

(** ** The calls made by the constructor, [solve] and [run] *)

Inductive operator : Type :=
| MatrixBased
| MatrixFree.

Inductive call : Type :=
(* system_matrix.initialize_dof_vector *)
| InitializeDofVector (op : operator)
(* completely_distributed_system_rhs.copy_locally_owned_data_from *)
| CopySystemRhs
(* SolverControl(rhs.size(), 1e-12 * rhs.l2_norm()) *)
| MakeSolverControl
(* Solver::CG::AMG::solve *)
| SolveAMG (op : operator)
(* Solver::CG::GMG::solve, with or without fe_values_collection *)
| SolveGMG (op : operator) (with_fe_values : bool)
(* getPCOut() << "   Number of iterations:         " << last_step *)
| PrintIterations
(* getTable().add_value(key, ...) *)
| AddValue (key : string)
(* constraints.distribute *)
| Distribute
(* locally_relevant_solution.copy_locally_owned_data_from *)
| CopySolution
| UpdateGhostValues
(* getTable().set_auto_fill_mode(true) *)
| SetAutoFillMode
(* getPCOut() << "Cycle " << cycle << ':' *)
| PrintCycle (cycle : nat)
(* the member functions called by run that are not unfolded here *)
| InitializeGrid
| SetupSystem
| LogDiagnostics
| ComputeErrors
| OutputResults (cycle : nat)
| LogTimings
(* adaptation_strategy->refine() and ->estimate_mark() *)
| Refine
| EstimateMark
(* operator->reinit(dof_handler, constraints, system_rhs) *)
| Reinit (op : operator)
(* getTable().write_text on a stream opened on filename_log *)
| WriteLog (filename : string)
(* getTimer().reset() and getTable().start_new_row() *)
| TimerReset
| StartNewRow
(* the constructor: the name of the log file (lines 50-54), the collections *)
| MakeFilenameLog
| PushBackMapping
| PushBackFE (degree : Z)
| PushBackQuadrature (n_points : Z)
| SetHierarchy
(* precalculate_fe_values() on the new hp::FEValues *)
| PrecalculateFEValues
(* std::make_unique of the operator *)
| MakeOperator (op : operator)
(* Factory::create_function and Factory::create_adaptation *)
| CreateFunction (name : string)
| CreateAdaptation.

(** How a member function ends: it returns, or a debug build stops at a
    failed [Assert]. *)
Inductive result : Type :=
| Done
| AssertFailed.

(** A member function, as a function on the calls made so far. *)
Definition action : Type := list call -> list call * result.

Definition emit (c : call) : action := fun t => (t ++ [c], Done).

(** [Assert(cond, ...)]: checked in a debug build only. *)
Definition Assert (DEBUG cond : bool) : action :=
  fun t => (t, if DEBUG && negb cond then AssertFailed else Done).

(** Statements in sequence. *)
Fixpoint steps (l : list action) : action :=
  fun t =>
    match l with
    | [] => (t, Done)
    | a :: l' =>
        match a t with
        | (t', Done) => steps l' t'
        | (t', AssertFailed) => (t', AssertFailed)
        end
    end.

(** What the constructor, [solve] and [run] read of the parameters and of
    their collaborators. *)
Record environment : Type := {
  (* compiled with DEBUG *)
  DEBUG : bool;
  (* prm.prm_adaptation.max_p_degree *)
  max_p_degree : Z;
  (* prm.operator_type, prm.solver_type *)
  operator_type : string;
  solver_type : string;
  (* adaptation_strategy->get_n_cycles() *)
  n_cycles : nat;
  (* Utilities::MPI::this_mpi_process(mpi_communicator) *)
  this_mpi_process : nat;
  (* the name built by the constructor, lines 50-54 *)
  filename_log : string
}.

Section Driver.
Variable env : environment.

(** The constructor, lines 41-134. *)
Definition constructor : action :=
  steps
    ([emit MakeFilenameLog; emit PushBackMapping] ++
     flat_map (fun degree => [emit (PushBackFE degree);
                              emit (PushBackQuadrature (unsigned_int (degree + 1)))])
              (fe_collection (max_p_degree env)) ++
     [emit SetHierarchy;
      (if String.eqb (operator_type env) "MatrixBased" then
         steps [emit PrecalculateFEValues; emit (MakeOperator MatrixBased)]
       else if String.eqb (operator_type env) "MatrixFree" then
         emit (MakeOperator MatrixFree)
       else Assert (DEBUG env) false);
      emit (CreateFunction "reentrant corner");
      emit (CreateFunction "reentrant corner");
      emit (CreateFunction "zero");
      emit CreateAdaptation]).

(** [solve<OperatorType>], lines 309-383. *)
Definition solve (op : operator) : action :=
  steps
    [emit (InitializeDofVector op);
     emit (InitializeDofVector op);
     emit CopySystemRhs;
     emit MakeSolverControl;
     (if String.eqb (solver_type env) "AMG" then emit (SolveAMG op)
      else if String.eqb (solver_type env) "GMG" then
        match op with
        | MatrixFree => emit (SolveGMG MatrixFree false)
        | MatrixBased => emit (SolveGMG MatrixBased true)
        end
      else Assert (DEBUG env) false);
     emit PrintIterations;
     emit (AddValue "iteratations");
     emit Distribute;
     emit CopySolution;
     emit UpdateGhostValues].

(** The body of the loop of [run], lines 491-543. *)
Definition run_cycle (cycle : nat) : action :=
  steps
    [emit (PrintCycle cycle);
     emit (AddValue "cycle");
     (if Nat.eqb cycle 0 then emit InitializeGrid else emit Refine);
     emit SetupSystem;
     emit LogDiagnostics;
     (if String.eqb (operator_type env) "MatrixBased" then
        steps [emit (Reinit MatrixBased); solve MatrixBased]
      else if String.eqb (operator_type env) "MatrixFree" then
        steps [emit (Reinit MatrixFree); solve MatrixFree]
      else Assert (DEBUG env) false);
     emit ComputeErrors;
     emit EstimateMark;
     emit (OutputResults cycle);
     emit LogTimings;
     (if Nat.eqb (this_mpi_process env) 0 then emit (WriteLog (filename_log env))
      else steps []);
     emit TimerReset;
     emit StartNewRow].

(** [run], lines 484-545. *)
Definition run : action :=
  steps (emit SetAutoFillMode :: map run_cycle (seq 0 (n_cycles env))).

End Driver.

End Poisson.

(** * Notions used to state and prove the properties *)

(** A run of [m] from any locals leaves them related by [R] to the locals
    it started from. *)
Definition keeps (R : mg_state -> mg_state -> Prop) {A} (m : M A) : Prop :=
  forall s, R s (m s).1.

(** From [s] to [s'] the trace only grew, by events that satisfy [P]. *)
Definition emits (P : event -> Prop) (s s' : mg_state) : Prop :=
  exists t, trace s' = trace s ++ t /\ Forall P t.

(** From [s] to [s'] the local variable [proj] kept its value. *)
Definition same {X} (proj : mg_state -> X) (s s' : mg_state) : Prop :=
  proj s' = proj s.

(** A map after the entries of the levels [l] were overwritten by [h]. *)
Definition overwrite_levels {A} (h : nat -> A) (l : list nat) (m : gmap nat A)
    : gmap nat A :=
  foldl (fun m level => <[level := h level]> m) m l.

(** A vector after the elements at the levels [l] were overwritten by [h]. *)
Definition overwrite_indices {A} (h : nat -> A) (l : list nat) (v : list A)
    : list A :=
  foldl (fun v level => <[level := h level]> v) v l.

(** The seven closures of lines 237-243 write at these stage indices. *)
Definition stage_index (st : stage) : nat :=
  match st with
  | pre_smoother_step => 0
  | residual_step => 1
  | restriction => 2
  | coarse_solve => 3
  | prolongation => 4
  | edge_prolongation => 5
  | post_smoother_step => 6
  end.

(** The slots of the cycle engine after lines 237-243. *)
Definition timer_slots : list (stage * nat * string) :=
  [(pre_smoother_step, 0, "pre_smoother_step");
   (residual_step, 1, "residual_step");
   (restriction, 2, "restriction");
   (coarse_solve, 3, "coarse_solve");
   (prolongation, 4, "prolongation");
   (edge_prolongation, 5, "edge_prolongation");
   (post_smoother_step, 6, "post_smoother_step")].

(** What one call of a timer closure does to [all_mg_timers]; [None] when
    [level] or [i] is out of range. *)
Definition timer_step (i : nat) (flag : bool) (level : nat) (now : time_point)
    (timers : list (list (double * time_point)))
    : option (list (list (double * time_point))) :=
  match timers !! level with
  | Some row =>
      match row !! i with
      | Some cell =>
          Some (<[level := <[i := if flag
                                  then (cell.1, now)
                                  else (dadd cell.1 (seconds_of_count (now - cell.2)),
                                        cell.2)]> row]> timers)
      | None => None
      end
  | None => None
  end.

(** The timer array after the signals [sigs], and whether every access
    was in range; at the first access out of range the array stays as it
    is. *)
Fixpoint run_signals (sigs : list signal) (timers : list (list (double * time_point)))
    : list (list (double * time_point)) * bool :=
  match sigs with
  | [] => (timers, true)
  | sg :: sigs' =>
      match timer_step (stage_index (sig_slot sg)) (sig_flag sg) (sig_level sg)
                       (sig_now sg) timers with
      | Some timers' => run_signals sigs' timers'
      | None => (timers, false)
      end
  end.

(** The seven-by-levels timer array of lines 214-218. *)
Definition zero_timers (min_level max_level : nat) : list (list (double * time_point)) :=
  replicate (max_level - min_level + 1) (replicate 7 (dzero, epoch)).

(** [all_mg_timers[level][i]], if both indices are in range. *)
Definition cell_at (timers : list (list (double * time_point))) (level i : nat)
    : option (double * time_point) :=
  match timers !! level with
  | Some row => row !! i
  | None => None
  end.

(** [all_mg_timers[level][i].first] in the locals [s]. *)
Definition accumulator_at (s : mg_state) (level i : nat) : option double :=
  fst <$> cell_at (all_mg_timers s) level i.

(** Every accumulator of [t] is still there in [t'], and not smaller. *)
Definition accumulators_le (t t' : list (list (double * time_point))) : Prop :=
  forall level i c, cell_at t level i = Some c ->
    exists c', cell_at t' level i = Some c' /\ dle c.1 c'.1.

(** The clock readings taken by the callbacks never go back, starting
    from [t0]. *)
Fixpoint steady_from (t0 : time_point) (sigs : list signal) : bool :=
  match sigs with
  | [] => true
  | sg :: sigs' => (t0 <=? sig_now sg)%Z && steady_from (sig_now sg) sigs'
  end.

(** The clock readings of a solve never go back, from the epoch on. *)
Definition steady_clock (sigs : list signal) : Prop :=
  steady_from epoch sigs = true.

(** The last clock reading of [sigs], [t0] if there is none. *)
Definition last_now (t0 : time_point) (sigs : list signal) : time_point :=
  foldl (fun _ sg => sig_now sg) t0 sigs.

(** No accumulator is negative or NaN and no stage was started after
    [t0]. *)
Definition timers_inv (t0 : time_point) (t : list (list (double * time_point))) : Prop :=
  forall level i c, cell_at t level i = Some c -> dle dzero c.1 /\ (c.2 <= t0)%Z.

(** Every row of the timer array has its seven cells. *)
Definition seven_wide (t : list (list (double * time_point))) : Prop :=
  Forall (fun row => length row = 7) t.

(** The levels whose estimation a trace records, in order. *)
Definition estimated_levels (t : list event) : list nat :=
  omap (fun e => match e with EvEstimateEigenvalues level => Some level | _ => None end) t.

(** The values a trace logs with the summary line of line 123. *)
Definition logged_max_ev (t : list event) : list double :=
  omap (fun e => match e with EvPCOutMaxEV m => Some m | _ => None end) t.

(** The values a trace records under "max_ev". *)
Definition recorded_max_ev (t : list event) : list double :=
  omap (fun e => match e with EvTableMaxEV m => Some m | _ => None end) t.

(** The events of lines 128-279. *)
Definition tail_event (e : event) : Prop :=
  match e with
  | EvMgSmootherInitialize _ | EvComputeInverseDiagonal _
  | EvPreconditionChebyshevInitialize _ _ | EvPreconditionAmgInitialize _ _
  | EvCoarseGridSolver _ _ _ | EvMultigrid | EvPreconditionMG | EvSolve
  | EvWriteText _ _ => True
  | _ => False
  end.

(** The events of lines 83-129. *)
Definition setup_event (e : event) : Prop :=
  match e with
  | EvMgMatrix | EvChebyshevInitialize _ _ | EvInitializeDofVector _
  | EvEstimateEigenvalues _ | EvPCOutMaxEV _ | EvTableMaxEV _
  | EvMgSmootherInitialize _ => True
  | _ => False
  end.

(** The events that work on a level operator: a smoother or preconditioner
    initialised on it, a vector allocated for it, its eigenvalues estimated
    (which applies it), its diagonal extracted. *)
Definition touches_level_operator (e : event) : Prop :=
  match e with
  | EvChebyshevInitialize _ _ | EvInitializeDofVector _
  | EvEstimateEigenvalues _ | EvMgSmootherInitialize _
  | EvComputeInverseDiagonal _ | EvPreconditionChebyshevInitialize _ _
  | EvPreconditionAmgInitialize _ _ => True
  | _ => False
  end.

(** The coarse-grid strategies of lines 149-202. *)
Definition recognized_coarse_solvers : list string :=
  ["cg"; "cg_with_chebyshev"; "cg_with_amg"].

(** C2 as stated asks this of a run: it throws, and up to the throw no
    event works on a level operator. *)
Definition aborts_before_touching_operators (r : mg_state * outcome unit) : Prop :=
  r.2 = Threw ExcNotImplemented /\
  Forall (fun e => ~ touches_level_operator e) (trace r.1).

(** C8 as stated asks this of the locals before and after any further
    signals of one solve: every accumulator is still there and has not
    decreased. *)
Definition accumulators_non_decreasing (before after : mg_state) : Prop :=
  forall level i acc, accumulator_at before level i = Some acc ->
    exists acc', accumulator_at after level i = Some acc' /\ dle acc acc'.

(** The coarse-grid solvers a trace constructs, in order. *)
Definition coarse_grid_solvers (t : list event)
    : list (coarse_preconditioner * nat * ReductionControl) :=
  omap (fun e => match e with
                 | EvCoarseGridSolver p level control => Some (p, level, control)
                 | _ => None
                 end) t.

(** The calls of a trace that set up the preconditioner of the coarse-grid
    solver, in order. *)
Definition coarse_preconditioner_setups (t : list event) : list event :=
  omap (fun e => match e with
                 | EvComputeInverseDiagonal _
                 | EvPreconditionChebyshevInitialize _ _
                 | EvPreconditionAmgInitialize _ _ => Some e
                 | _ => None
                 end) t.

(** The signals of one stage of one level that is started and stopped once
    per interval, at the ends of the interval. *)
Definition interval_signals (slot : stage) (level : nat)
    (intervals : list (time_point * time_point)) : list signal :=
  flat_map (fun p => [Build_signal slot true level p.1;
                      Build_signal slot false level p.2]) intervals.

(** The lengths of the intervals, added one after the other to [acc] in
    binary64: each length is the count of nanoseconds, rounded to the
    nearest double, divided by [1e9] and added, with one rounding for each
    of the three operations. *)
Definition total_seconds (acc : double) (intervals : list (time_point * time_point))
    : double :=
  foldl (fun a p => (a + of_uint63 (Uint63.of_Z (p.2 - p.1)) / 1000000000)%float)
        acc intervals.

(** The ends of an interval are in order and less than 2^63 ns apart. *)
Definition measurable (p : time_point * time_point) : Prop :=
  (p.1 <= p.2 < p.1 + 2 ^ 63)%Z.

(** ** Notions for binary64 *)

(** A key whose lexicographic order is the order of the floats that are
    not NaN: the class first (negative infinity, negative, zero, positive,
    positive infinity), then exponent and mantissa. *)
Definition SFkey (s : spec_float) : Z * (Z * Z) :=
  match s with
  | S754_infinity true => ((-2)%Z, (0%Z, 0%Z))
  | S754_finite true m e => ((-1)%Z, ((- e)%Z, (- Zpos m)%Z))
  | S754_zero _ | S754_nan => (0%Z, (0%Z, 0%Z))
  | S754_finite false m e => (1%Z, (e, Zpos m))
  | S754_infinity false => (2%Z, (0%Z, 0%Z))
  end.

Definition key_le (a b : Z * (Z * Z)) : Prop :=
  (fst a < fst b)%Z \/
  (fst a = fst b /\
   ((fst (snd a) < fst (snd b))%Z \/
    (fst (snd a) = fst (snd b) /\ (snd (snd a) <= snd (snd b))%Z))).

Definition key_lt (a b : Z * (Z * Z)) : Prop :=
  (fst a < fst b)%Z \/
  (fst a = fst b /\
   ((fst (snd a) < fst (snd b))%Z \/
    (fst (snd a) = fst (snd b) /\ (snd (snd a) < snd (snd b))%Z))).

(** Zero, a positive float or positive infinity. *)
Definition SFnonneg (s : spec_float) : Prop :=
  match s with
  | S754_zero _ | S754_finite false _ _ | S754_infinity false => True
  | _ => False
  end.

(** The same with the sign bit clear: no negative zero. *)
Definition SFplus (s : spec_float) : Prop :=
  match s with
  | S754_zero false | S754_finite false _ _ | S754_infinity false => True
  | _ => False
  end.

(** ** Notions for the Poisson problem class *)

(** The sum of the elements. *)
Definition total (v : list Z) : Z := foldr Z.add 0%Z v.

(** [k] steps of p-coarsening from [fe_index]. *)
Definition coarsen (DEBUG : bool) (min_fe_index : Z) (k : nat) (fe_index : Z)
    : option Z :=
  Nat.iter k (fun i => i ≫= Poisson.previous_index DEBUG min_fe_index) (Some fe_index).

(** No [Assert] of [solve] and [run] can fail: the build is a release
    build, or both type names are known. *)
Definition asserts_hold (env : Poisson.environment) : bool :=
  negb (Poisson.DEBUG env) ||
  ((String.eqb (Poisson.operator_type env) "MatrixBased" ||
    String.eqb (Poisson.operator_type env) "MatrixFree") &&
   (String.eqb (Poisson.solver_type env) "AMG" ||
    String.eqb (Poisson.solver_type env) "GMG")).

(** The solver that [solve] calls, if any. *)
Definition solver_calls (env : Poisson.environment) (op : Poisson.operator)
    : list Poisson.call :=
  if String.eqb (Poisson.solver_type env) "AMG" then [Poisson.SolveAMG op]
  else if String.eqb (Poisson.solver_type env) "GMG" then
    [match op with
     | Poisson.MatrixFree => Poisson.SolveGMG Poisson.MatrixFree false
     | Poisson.MatrixBased => Poisson.SolveGMG Poisson.MatrixBased true
     end]
  else [].

(** The calls of [solve] when no [Assert] fails. *)
Definition solve_calls (env : Poisson.environment) (op : Poisson.operator)
    : list Poisson.call :=
  [Poisson.InitializeDofVector op; Poisson.InitializeDofVector op;
   Poisson.CopySystemRhs; Poisson.MakeSolverControl] ++
  solver_calls env op ++
  [Poisson.PrintIterations; Poisson.AddValue "iteratations"; Poisson.Distribute;
   Poisson.CopySolution; Poisson.UpdateGhostValues].

(** The calls of lines 507-526 when no [Assert] fails. *)
Definition operator_calls (env : Poisson.environment) : list Poisson.call :=
  if String.eqb (Poisson.operator_type env) "MatrixBased" then
    Poisson.Reinit Poisson.MatrixBased :: solve_calls env Poisson.MatrixBased
  else if String.eqb (Poisson.operator_type env) "MatrixFree" then
    Poisson.Reinit Poisson.MatrixFree :: solve_calls env Poisson.MatrixFree
  else [].

(** The calls of one cycle of [run] when no [Assert] fails. *)
Definition cycle_calls (env : Poisson.environment) (cycle : nat) : list Poisson.call :=
  [Poisson.PrintCycle cycle; Poisson.AddValue "cycle";
   (if Nat.eqb cycle 0 then Poisson.InitializeGrid else Poisson.Refine);
   Poisson.SetupSystem; Poisson.LogDiagnostics] ++
  operator_calls env ++
  [Poisson.ComputeErrors; Poisson.EstimateMark; Poisson.OutputResults cycle;
   Poisson.LogTimings] ++
  (if Nat.eqb (Poisson.this_mpi_process env) 0
   then [Poisson.WriteLog (Poisson.filename_log env)] else []) ++
  [Poisson.TimerReset; Poisson.StartNewRow].

(** The calls that build or change the grid. *)
Definition is_grid_change (c : Poisson.call) : bool :=
  match c with
  | Poisson.InitializeGrid | Poisson.Refine => true
  | _ => false
  end.

(** The calls that write the log file. *)
Definition is_write_log (c : Poisson.call) : bool :=
  match c with
  | Poisson.WriteLog _ => true
  | _ => false
  end.

(** The calls of [solve] and the [reinit] before it. *)
Definition is_solve_step (c : Poisson.call) : bool :=
  match c with
  | Poisson.Reinit _ | Poisson.InitializeDofVector _ | Poisson.CopySystemRhs
  | Poisson.MakeSolverControl | Poisson.SolveAMG _ | Poisson.SolveGMG _ _
  | Poisson.PrintIterations | Poisson.Distribute
  | Poisson.CopySolution | Poisson.UpdateGhostValues => true
  | Poisson.AddValue key => String.eqb key "iteratations"
  | _ => false
  end.

(** The calls into a linear solver. *)
Definition is_solver_call (c : Poisson.call) : bool :=
  match c with
  | Poisson.SolveAMG _ | Poisson.SolveGMG _ _ => true
  | _ => false
  end.

(** The calls of one cycle of [run] around the solve. *)
Definition cycle_calls_without_solve (env : Poisson.environment) (cycle : nat)
    : list Poisson.call :=
  [Poisson.PrintCycle cycle; Poisson.AddValue "cycle";
   (if Nat.eqb cycle 0 then Poisson.InitializeGrid else Poisson.Refine);
   Poisson.SetupSystem; Poisson.LogDiagnostics;
   Poisson.ComputeErrors; Poisson.EstimateMark; Poisson.OutputResults cycle;
   Poisson.LogTimings] ++
  (if Nat.eqb (Poisson.this_mpi_process env) 0
   then [Poisson.WriteLog (Poisson.filename_log env)] else []) ++
  [Poisson.TimerReset; Poisson.StartNewRow].

(** A problem in the style of the parameter files. *)
Definition sample_problem (debug : bool) (operator_type solver_type : string)
    (n_cycles rank : nat) : Poisson.environment :=
  {| Poisson.DEBUG := debug;
     Poisson.max_p_degree := 7;
     Poisson.operator_type := operator_type;
     Poisson.solver_type := solver_type;
     Poisson.n_cycles := n_cycles;
     Poisson.this_mpi_process := rank;
     Poisson.filename_log := "poisson_weights-20241027-120000.log" |}.

(** * Reasoning about runs *)

Section Reasoning.
Variable env : environment.
Variable mg_data : MGSolverParameters.
Variables min_level max_level : nat.
Variable filename_mg_level : string.

(** The event of lines 275-276. *)
Definition is_write_text (e : event) : Prop :=
  match e with EvWriteText _ _ => True | _ => False end.

(** [smoother_data[level]] after the loop of lines 88-94. *)
Definition configured (level : nat) : AdditionalData.t :=
  configure mg_data level (default_additional_data env).

(** [smoother_data] after the loop of lines 88-94. *)
Definition configured_smoother_data : gmap nat AdditionalData.t :=
  overwrite_levels configured (levels min_level max_level)
    (new_level_object min_level max_level (default_additional_data env)).

(** What [estimate_eigenvalues] returns on a level. *)
Definition estimated (level : nat) : EigenvalueInformation :=
  estimate env level (configured level).

(** The calls of one iteration of the loop of lines 104-119. *)
Definition estimate_events (level : nat) : list event :=
  [EvChebyshevInitialize level (configured level);
   EvInitializeDofVector level;
   EvEstimateEigenvalues level].

(** The state after one iteration of the loop of lines 104-119. *)
Definition estimate_step (s : mg_state) (level : nat) : mg_state :=
  MgState
    (<[level := use_estimate (estimated level) (configured level)]> (smoother_data s))
    (<[level := min_eigenvalue_estimate (estimated level)]> (min_eigenvalues s))
    (<[level := max_eigenvalue_estimate (estimated level)]> (max_eigenvalues s))
    (all_mg_timers s) (slots s) (table s)
    (trace s ++ estimate_events level).

(** The state after the iterations of that loop for the levels [l]. *)
Definition estimated_state (l : list nat) (s : mg_state) : mg_state :=
  foldl estimate_step s l.

(** What line 122 reads: [None] is the dereferenced [end()]. *)
Definition summary_max (maxs : list double) : option double :=
  match maxs with
  | [] => None
  | _ :: range => max_element range
  end.

(** The locals after line 94. *)
Definition s_configured : mg_state :=
  MgState configured_smoother_data [] [] [] [] [] [EvMgMatrix].

(** The locals after line 101. *)
Definition s_vectors : mg_state :=
  MgState configured_smoother_data
    (replicate (max_level + 1) signaling_nan)
    (replicate (max_level + 1) signaling_nan)
    [] [] [] [EvMgMatrix].

(** The locals after the loop of lines 104-119. *)
Definition s_estimated : mg_state :=
  estimated_state (levels (min_level + 1) max_level) s_vectors.

(** The locals and the outcome at the end of lines 100-125. *)
Definition estimate_all_levels_result : mg_state * outcome unit :=
  if estimate_eigenvalues mg_data then
    match summary_max (max_eigenvalues s_estimated) with
    | Some m =>
        (set_trace (trace s_estimated ++ [EvPCOutMaxEV m; EvTableMaxEV m]) s_estimated,
         Returned tt)
    | None => (s_estimated, Undefined)
    end
  else (s_vectors, Returned tt).

(** Lines 128-279. *)
Definition after_estimation : M unit :=
  initialize_mg_smoother >>
  initialize_coarse_solver env mg_data min_level >>
  call EvMultigrid >>
  allocate_timers min_level max_level >>
  when (log_levels mg_data) connect_timers >>
  call EvPreconditionMG >>
  solve env >>
  dump_table env mg_data filename_mg_level.

(** The trace at the end of lines 83-125. *)
Definition estimation_trace : list event :=
  EvMgMatrix ::
  (if estimate_eigenvalues mg_data then
     concat (map estimate_events (levels (min_level + 1) max_level)) ++
     match summary_max (max_eigenvalues s_estimated) with
     | Some m => [EvPCOutMaxEV m; EvTableMaxEV m]
     | None => []
     end
   else []).

(** Whether lines 149-206 end in a coarse-grid solver. *)
Definition coarse_supported : bool :=
  let type := CoarseSolver.type (coarse_solver mg_data) in
  String.eqb type "cg" || String.eqb type "cg_with_chebyshev" ||
  (String.eqb type "cg_with_amg" && with_trilinos env).

(** Line 122 has an element to read. *)
Definition summary_defined : Prop :=
  estimate_eigenvalues mg_data = true -> 1 <= max_level.

(** Nothing is connected, and the timer array is either untouched or
    freshly allocated. *)
Definition unlogged (s s' : mg_state) : Prop :=
  slots s = [] ->
  slots s' = [] /\
  (all_mg_timers s' = all_mg_timers s \/
   all_mg_timers s' = zero_timers min_level max_level).

(** The events of lines 149-202 when a coarse-grid solver is built. *)
Definition coarse_events : list event :=
  let type := CoarseSolver.type (coarse_solver mg_data) in
  if String.eqb type "cg" then
    [EvCoarseGridSolver coarse_identity min_level (coarse_grid_solver_control mg_data)]
  else if String.eqb type "cg_with_chebyshev" then
    [EvComputeInverseDiagonal min_level;
     EvPreconditionChebyshevInitialize min_level
       (coarse_chebyshev_data env mg_data min_level);
     EvCoarseGridSolver coarse_chebyshev min_level (coarse_grid_solver_control mg_data)]
  else
    [EvPreconditionAmgInitialize min_level (amg_data mg_data);
     EvCoarseGridSolver coarse_amg min_level (coarse_grid_solver_control mg_data)].

(** The locals when the outer solve of line 251 ends, with logging on. *)
Definition solved_state (s : mg_state) : mg_state :=
  MgState (smoother_data s) (min_eigenvalues s) (max_eigenvalues s)
    (run_signals (cycle_signals env) (zero_timers min_level max_level)).1
    timer_slots (table s)
    (trace s ++ EvMgSmootherInitialize (smoother_data s) ::
       coarse_events ++ [EvMultigrid; EvPreconditionMG; EvSolve]).

(** The locals when the outer solve of line 251 ends, with logging off. *)
Definition unlogged_solved_state (s : mg_state) : mg_state :=
  MgState (smoother_data s) (min_eigenvalues s) (max_eigenvalues s)
    (zero_timers min_level max_level) [] (table s)
    (trace s ++ EvMgSmootherInitialize (smoother_data s) ::
       coarse_events ++ [EvMultigrid; EvPreconditionMG; EvSolve]).

(** The row that lines 261-273 add for the row number [level]. *)
Definition table_row_of (s : mg_state) (level : nat) : table_row :=
  {| row_level := level;
     row_pre_smoother_step := default NaN (accumulator_at s level 0);
     row_residual_step := default NaN (accumulator_at s level 1);
     row_restriction := default NaN (accumulator_at s level 2);
     row_coarse_solve := default NaN (accumulator_at s level 3);
     row_prolongation := default NaN (accumulator_at s level 4);
     row_edge_prolongation := default NaN (accumulator_at s level 5);
     row_post_smoother_step := default NaN (accumulator_at s level 6);
     row_min_eigenvalue :=
       if estimate_eigenvalues mg_data
       then Some (default NaN (min_eigenvalues s !! level)) else None;
     row_max_eigenvalue :=
       if estimate_eigenvalues mg_data
       then Some (default NaN (max_eigenvalues s !! level)) else None |}.

(** The rows of the table of a solve that ended in the locals [s]. *)
Definition table_rows (s : mg_state) : list table_row :=
  map (table_row_of s) (seq 0 (length (all_mg_timers s))).

(** Every signal is fired at a level whose row exists. *)
Definition signals_in_range : Prop :=
  Forall (fun sg => sig_level sg <= max_level - min_level) (cycle_signals env).

(** ** The monad's equations *)

Lemma bind_returned {A B} (m : M A) (k : A -> M B) s s' a :
  m s = (s', Returned a) -> bind m k s = k a s'.
Proof. unfold bind. intros ->. reflexivity. Qed.

Lemma bind_threw {A B} (m : M A) (k : A -> M B) s s' e :
  m s = (s', Threw e) -> bind m k s = (s', Threw e).
Proof. unfold bind. intros ->. reflexivity. Qed.

Lemma bind_undefined {A B} (m : M A) (k : A -> M B) s s' :
  m s = (s', Undefined) -> bind m k s = (s', Undefined).
Proof. unfold bind. intros ->. reflexivity. Qed.

Lemma mg_state_eta s :
  MgState (smoother_data s) (min_eigenvalues s) (max_eigenvalues s)
          (all_mg_timers s) (slots s) (table s) (trace s) = s.
Proof. destruct s; reflexivity. Qed.

Lemma for_each_app {A} (l1 l2 : list A) (body : A -> M unit) s :
  for_each (l1 ++ l2) body s = (for_each l1 body >> for_each l2 body) s.
Proof.
  revert s. induction l1 as [|x l1 IH]; intros s; simpl.
  - reflexivity.
  - unfold bind in *. destruct (body x s) as [s1 [[]|e|]]; auto.
Qed.

(** ** Relations every step of a run respects

    A reflexive and transitive relation between the state before and the
    state after, kept by the atomic actions of a computation, is kept by
    the computation, whatever its outcome. *)

Section Frame.
Variable R : mg_state -> mg_state -> Prop.
Hypothesis R_refl : forall s, R s s.
Hypothesis R_trans : forall s1 s2 s3, R s1 s2 -> R s2 s3 -> R s1 s3.

Lemma keeps_ret {A} (a : A) : keeps R (ret a).
Proof. intros s. apply R_refl. Qed.

Lemma keeps_bind {A B} (m : M A) (k : A -> M B) :
  keeps R m -> (forall a, keeps R (k a)) -> keeps R (bind m k).
Proof.
  intros Hm Hk s. unfold bind. specialize (Hm s).
  destruct (m s) as [s1 [a|e|]]; simpl in *; auto.
  eapply R_trans; [exact Hm|apply Hk].
Qed.

Lemma keeps_get {X} (proj : mg_state -> X) : keeps R (get proj).
Proof. intros s. apply R_refl. Qed.

Lemma keeps_undefined {A} : keeps R (@undefined A).
Proof. intros s. apply R_refl. Qed.

Lemma keeps_deref {A} (o : option A) : keeps R (deref o).
Proof. destruct o; [apply keeps_ret|apply keeps_undefined]. Qed.

Lemma keeps_AssertThrow c e : keeps R (AssertThrow c e).
Proof. intros s. apply R_refl. Qed.

Lemma keeps_modify f : (forall s, R s (f s)) -> keeps R (modify f).
Proof. intros Hf s. apply Hf. Qed.

Lemma keeps_call e :
  (forall s, R s (set_trace (trace s ++ [e]) s)) -> keeps R (call e).
Proof. intros He s. apply He. Qed.

Lemma keeps_when b m : keeps R m -> keeps R (when b m).
Proof. destruct b; [auto|intros _; apply keeps_ret]. Qed.

Lemma keeps_for_each {A} (l : list A) body :
  (forall x, keeps R (body x)) -> keeps R (for_each l body).
Proof.
  intros Hb. induction l as [|x l IH]; simpl.
  - apply keeps_ret.
  - apply keeps_bind; auto.
Qed.

Lemma keeps_vector_set {A} (proj : mg_state -> list A) set i x :
  (forall v s, R s (set v s)) -> keeps R (vector_set proj set i x).
Proof.
  intros Hs. unfold vector_set. apply keeps_bind; [apply keeps_get|].
  intros v. destruct (decide _); [apply keeps_modify; auto|apply keeps_undefined].
Qed.

Lemma keeps_update_smoother_data level f :
  (forall x s, R s (set_smoother_data x s)) ->
  keeps R (update_smoother_data level f).
Proof.
  intros Hs. unfold update_smoother_data.
  apply keeps_bind; [apply keeps_get|]. intros sd.
  apply keeps_bind; [apply keeps_deref|]. intros d.
  apply keeps_modify; auto.
Qed.

Lemma keeps_create_mg_timer_function i label flag level now :
  (forall x s, R s (set_all_mg_timers x s)) ->
  keeps R (create_mg_timer_function i label flag level now).
Proof.
  intros Hs. unfold create_mg_timer_function.
  apply keeps_bind; [apply keeps_get|]. intros timers.
  apply keeps_bind; [apply keeps_deref|]. intros row.
  apply keeps_bind; [apply keeps_deref|]. intros cell.
  destruct flag; apply keeps_modify; auto.
Qed.

End Frame.

(** Two such relations: [emits P] and [same proj]. *)

Lemma emits_refl P s : emits P s s.
Proof. exists []. split; [symmetry; apply app_nil_r|constructor]. Qed.

Lemma emits_trans P s1 s2 s3 : emits P s1 s2 -> emits P s2 s3 -> emits P s1 s3.
Proof.
  intros (t1 & E1 & F1) (t2 & E2 & F2). exists (t1 ++ t2). split.
  - rewrite E2, E1. symmetry; apply app_assoc.
  - apply Forall_app; auto.
Qed.

Lemma emits_silent P s s' : trace s' = trace s -> emits P s s'.
Proof. intros E. exists []. split; [rewrite E; symmetry; apply app_nil_r|constructor]. Qed.

Lemma emits_one P e s : P e -> emits P s (set_trace (trace s ++ [e]) s).
Proof. intros He. exists [e]. split; [reflexivity|repeat constructor; exact He]. Qed.

Lemma same_refl {X} (proj : mg_state -> X) s : same proj s s.
Proof. reflexivity. Qed.

Lemma same_trans {X} (proj : mg_state -> X) s1 s2 s3 :
  same proj s1 s2 -> same proj s2 s3 -> same proj s1 s3.
Proof. unfold same. congruence. Qed.

(** Breaks a computation into its atomic actions and leaves the side
    conditions that [atom] does not solve. *)
Ltac keeps_step atom :=
  lazymatch goal with
  | |- forall _, _ => intro
  | |- keeps ?R (ret _) => apply (keeps_ret R)
  | |- keeps ?R (bind _ _) => apply (keeps_bind R)
  | |- keeps ?R (get _) => apply (keeps_get R)
  | |- keeps ?R undefined => apply (keeps_undefined R)
  | |- keeps ?R (deref _) => apply (keeps_deref R)
  | |- keeps ?R (AssertThrow _ _) => apply (keeps_AssertThrow R)
  | |- keeps ?R (when _ _) => apply (keeps_when R)
  | |- keeps ?R (for_each _ _) => apply (keeps_for_each R)
  | |- keeps ?R (vector_set _ _ _ _) => apply (keeps_vector_set R)
  | |- keeps ?R (update_smoother_data _ _) => apply (keeps_update_smoother_data R)
  | |- keeps ?R (create_mg_timer_function _ _ _ _ _) =>
      apply (keeps_create_mg_timer_function R)
  | |- keeps ?R (modify _) => apply (keeps_modify R)
  | |- keeps ?R (call _) => apply (keeps_call R)
  | |- keeps ?R (if ?c then _ else _) => destruct c
  | |- keeps ?R (match ?c with _ => _ end) => destruct c
  | |- keeps ?R _ => progress cbv beta zeta
  | |- _ => atom
  end.

Ltac keeps_auto atom := repeat keeps_step atom.

Ltac emits_atom :=
  first [ apply emits_refl
        | eapply emits_trans; eassumption
        | apply emits_silent; reflexivity
        | apply emits_one ].

Ltac same_atom :=
  first [ apply same_refl
        | eapply same_trans; eassumption
        | reflexivity ].

Ltac unfold_phases :=
  unfold mg_solve, initialize_smoother_data, estimate_all_levels,
    estimate_level, log_max_eigenvalue, initialize_mg_smoother,
    initialize_coarse_solver, allocate_timers, connect_timers, connect,
    solve, fire, dump_table, add_row.

(** ** Vectors and level objects written level by level *)

Lemma map_fmap {A B} (f : A -> B) (l : list A) : map f l = f <$> l.
Proof. reflexivity. Qed.

Lemma elem_of_levels first last level :
  level ∈ levels first last <-> first <= level <= last.
Proof. unfold levels. rewrite elem_of_seq. lia. Qed.

Lemma NoDup_levels first last : NoDup (levels first last).
Proof. apply NoDup_seq. Qed.

Lemma lookup_new_level_object {A} first last (x : A) level :
  new_level_object first last x !! level =
  if decide (first <= level <= last) then Some x else None.
Proof.
  unfold new_level_object.
  destruct (decide (first <= level <= last)) as [Hin|Hout].
  - apply elem_of_levels in Hin.
    induction (levels first last) as [|l0 l IH]; simpl.
    + inversion Hin.
    + destruct (decide (l0 = level)) as [->|Hne].
      * apply lookup_insert_eq.
      * rewrite lookup_insert_ne by exact Hne. apply IH.
        apply elem_of_cons in Hin. destruct Hin; congruence.
  - rewrite <- elem_of_levels in Hout.
    induction (levels first last) as [|l0 l IH]; simpl.
    + apply lookup_empty.
    + rewrite not_elem_of_cons in Hout. destruct Hout as [Hne Hout].
      rewrite lookup_insert_ne by congruence. auto.
Qed.

Lemma lookup_overwrite_levels {A} (h : nat -> A) l (m : gmap nat A) level :
  overwrite_levels h l m !! level =
  if decide (level ∈ l) then Some (h level) else m !! level.
Proof.
  unfold overwrite_levels. revert m.
  induction l as [|l0 l IH]; intros m; simpl.
  - reflexivity.
  - rewrite IH. destruct (decide (level ∈ l)) as [Hin|Hout].
    + rewrite decide_True by (right; exact Hin). reflexivity.
    + destruct (decide (l0 = level)) as [->|Hne].
      * rewrite decide_True by left. apply lookup_insert_eq.
      * rewrite decide_False.
        -- apply lookup_insert_ne; exact Hne.
        -- rewrite elem_of_cons. intros [->|]; congruence.
Qed.

Lemma length_overwrite_indices {A} (h : nat -> A) l (v : list A) :
  length (overwrite_indices h l v) = length v.
Proof.
  unfold overwrite_indices. revert v.
  induction l as [|l0 l IH]; intros v; simpl; [reflexivity|].
  rewrite IH. apply length_insert.
Qed.

Lemma lookup_overwrite_indices {A} (h : nat -> A) l (v : list A) i :
  i < length v ->
  overwrite_indices h l v !! i =
  if decide (i ∈ l) then Some (h i) else v !! i.
Proof.
  unfold overwrite_indices. revert v.
  induction l as [|l0 l IH]; intros v Hi; simpl.
  - reflexivity.
  - rewrite IH by (rewrite length_insert; exact Hi).
    destruct (decide (i ∈ l)) as [Hin|Hout].
    + rewrite decide_True by (right; exact Hin). reflexivity.
    + destruct (decide (l0 = i)) as [->|Hne].
      * rewrite decide_True by left. apply list_lookup_insert_eq; exact Hi.
      * rewrite decide_False.
        -- apply list_lookup_insert_ne; exact Hne.
        -- rewrite elem_of_cons. intros [->|]; congruence.
Qed.

Lemma update_smoother_data_run level f s d :
  smoother_data s !! level = Some d ->
  update_smoother_data level f s =
  (set_smoother_data (<[level := f d]> (smoother_data s)) s, Returned tt).
Proof.
  intros Hd. unfold update_smoother_data, bind, get, deref. rewrite Hd.
  reflexivity.
Qed.

Lemma for_each_update_smoother_data
    (g : nat -> AdditionalData.t -> AdditionalData.t) (d0 : nat -> AdditionalData.t) l :
  NoDup l -> forall s,
  (forall level, level ∈ l -> smoother_data s !! level = Some (d0 level)) ->
  for_each l (fun level => update_smoother_data level (g level)) s =
  (set_smoother_data
     (overwrite_levels (fun level => g level (d0 level)) l (smoother_data s)) s,
   Returned tt).
Proof.
  induction 1 as [|l0 l Hnot Hnd IH]; intros s Hs; simpl.
  - destruct s; reflexivity.
  - erewrite bind_returned
      by (apply update_smoother_data_run, Hs; left).
    rewrite IH; [reflexivity|].
    intros level Hin. simpl.
    rewrite lookup_insert_ne by (intros ->; contradiction).
    apply Hs. right; exact Hin.
Qed.

(** ** Order and rounding in binary64 *)

Section Binary64.
Local Open Scope Z_scope.

(** *** Order *)

Lemma SFleb_key a b :
  SFleb a b = true <-> a <> S754_nan /\ b <> S754_nan /\ key_le (SFkey a) (SFkey b).
Proof.
  unfold SFleb, key_le.
  destruct a as [sa|sa| |sa ma ea], b as [sb|sb| |sb mb eb];
    try destruct sa; try destruct sb; cbn;
    try (split; [intros _; repeat split; try discriminate; lia
                |intros (_ & _ & H); try reflexivity; lia]);
    try (split; [discriminate|intros (Ha & Hb & H); try congruence; lia]).
  - change (PosDef.Pos.compare_cont Eq ma mb) with (Pos.compare ma mb).
    destruct (Z.compare_spec ea eb) as [He|He|He]; cbn.
    + destruct (Pos.compare_spec ma mb) as [Hm|Hm|Hm]; cbn;
        (split; [intros H; try discriminate H; repeat split; try discriminate; lia
                |intros (_ & _ & H); try reflexivity; lia]).
    + split; [discriminate|intros (_ & _ & H); lia].
    + split; [intros _; repeat split; try discriminate; lia|reflexivity].
  - destruct (Z.compare_spec ea eb) as [He|He|He]; cbn.
    + change (PosDef.Pos.compare_cont Eq ma mb) with (Pos.compare ma mb).
      destruct (Pos.compare_spec ma mb) as [Hm|Hm|Hm]; cbn;
        (split; [intros H; try discriminate H; repeat split; try discriminate; lia
                |intros (_ & _ & H); try reflexivity; lia]).
    + split; [intros _; repeat split; try discriminate; lia|reflexivity].
    + split; [discriminate|intros (_ & _ & H); lia].
Qed.

Lemma SFltb_key a b :
  SFltb a b = true <-> a <> S754_nan /\ b <> S754_nan /\ key_lt (SFkey a) (SFkey b).
Proof.
  unfold SFltb, key_lt.
  destruct a as [sa|sa| |sa ma ea], b as [sb|sb| |sb mb eb];
    try destruct sa; try destruct sb; cbn;
    try (split; [intros _; repeat split; try discriminate; lia
                |intros (_ & _ & H); try reflexivity; lia]);
    try (split; [discriminate|intros (Ha & Hb & H); try congruence; lia]).
  - change (PosDef.Pos.compare_cont Eq ma mb) with (Pos.compare ma mb).
    destruct (Z.compare_spec ea eb) as [He|He|He]; cbn.
    + destruct (Pos.compare_spec ma mb) as [Hm|Hm|Hm]; cbn;
        (split; [intros H; try discriminate H; repeat split; try discriminate; lia
                |intros (_ & _ & H); try reflexivity; lia]).
    + split; [discriminate|intros (_ & _ & H); lia].
    + split; [intros _; repeat split; try discriminate; lia|reflexivity].
  - destruct (Z.compare_spec ea eb) as [He|He|He]; cbn.
    + change (PosDef.Pos.compare_cont Eq ma mb) with (Pos.compare ma mb).
      destruct (Pos.compare_spec ma mb) as [Hm|Hm|Hm]; cbn;
        (split; [intros H; try discriminate H; repeat split; try discriminate; lia
                |intros (_ & _ & H); try reflexivity; lia]).
    + split; [intros _; repeat split; try discriminate; lia|reflexivity].
    + split; [discriminate|intros (_ & _ & H); lia].
Qed.

(** *** Digits *)

Lemma digits2_pos_size m : digits2_pos m = Pos.size m.
Proof. induction m as [m IH|m IH|]; cbn; rewrite ?IH; reflexivity. Qed.

Lemma digits2_pos_bounds m :
  2 ^ (Zpos (digits2_pos m) - 1) <= Zpos m < 2 ^ Zpos (digits2_pos m).
Proof.
  induction m as [m IH|m IH|]; cbn [digits2_pos].
  - rewrite Pos2Z.inj_succ.
    replace (Z.succ (Zpos (digits2_pos m)) - 1) with (Z.succ (Zpos (digits2_pos m) - 1)) by lia.
    rewrite !Z.pow_succ_r by lia. lia.
  - rewrite Pos2Z.inj_succ.
    replace (Z.succ (Zpos (digits2_pos m)) - 1) with (Z.succ (Zpos (digits2_pos m) - 1)) by lia.
    rewrite !Z.pow_succ_r by lia. lia.
  - cbn. lia.
Qed.

Lemma Zdigits2_bounds z :
  0 < z -> 0 < Zdigits2 z /\ 2 ^ (Zdigits2 z - 1) <= z < 2 ^ Zdigits2 z.
Proof.
  destruct z as [|p|p]; try lia. intros _. cbn [Zdigits2].
  split; [lia|apply digits2_pos_bounds].
Qed.

(** The number of digits is determined by the bounds. *)
Lemma Zdigits2_unique z d :
  2 ^ (d - 1) <= z < 2 ^ d -> 0 < z -> 0 < d -> Zdigits2 z = d.
Proof.
  intros Hz Hpos Hd.
  destruct (Zdigits2_bounds z Hpos) as [Hd' Hz'].
  assert (H1 : ~ Zdigits2 z < d).
  { intros H. assert (2 ^ Zdigits2 z <= 2 ^ (d - 1)) by (apply Z.pow_le_mono_r; lia). lia. }
  assert (H2 : ~ d < Zdigits2 z).
  { intros H. assert (2 ^ d <= 2 ^ (Zdigits2 z - 1)) by (apply Z.pow_le_mono_r; lia). lia. }
  lia.
Qed.

Lemma Zdigits2_le a b : 0 < a -> a <= b -> Zdigits2 a <= Zdigits2 b.
Proof.
  intros Ha Hab.
  destruct (Zdigits2_bounds a Ha) as [Hda Hba].
  destruct (Zdigits2_bounds b ltac:(lia)) as [Hdb Hbb].
  destruct (Z.le_gt_cases (Zdigits2 a) (Zdigits2 b)) as [|H]; [assumption|].
  assert (2 ^ Zdigits2 b <= 2 ^ (Zdigits2 a - 1)) by (apply Z.pow_le_mono_r; lia). lia.
Qed.

(** *** Shifts *)

Lemma shr_1_m mrs : 0 <= shr_m mrs -> shr_m (shr_1 mrs) = shr_m mrs / 2.
Proof.
  destruct mrs as [m r s]. cbn [shr_m shr_1].
  destruct m as [|[p|p|]|p]; cbn [shr_m]; intros H; try lia.
  - reflexivity.
  - rewrite Pos2Z.inj_xI. apply Z.div_unique with 1; lia.
  - rewrite Pos2Z.inj_xO. apply Z.div_unique with 0; lia.
  - reflexivity.
Qed.

Lemma iter_pos_shr_1 p : forall mrs,
  0 <= shr_m mrs ->
  shr_m (SpecFloat.iter_pos shr_1 p mrs) = shr_m mrs / 2 ^ Zpos p.
Proof.
  induction p as [p IH|p IH|]; intros mrs Hm; cbn [SpecFloat.iter_pos].
  - assert (H1 : 0 <= shr_m (shr_1 mrs)).
    { rewrite shr_1_m by exact Hm. apply Z.div_pos; lia. }
    assert (H2 : 0 <= shr_m (SpecFloat.iter_pos shr_1 p (shr_1 mrs))).
    { rewrite IH by exact H1. apply Z.div_pos; [lia|]. apply Z.pow_pos_nonneg; lia. }
    rewrite IH by exact H2. rewrite IH by exact H1. rewrite shr_1_m by exact Hm.
    rewrite !Z.div_div by (try apply Z.pow_pos_nonneg; lia).
    f_equal. rewrite (Pos2Z.inj_xI p).
    replace (2 * Zpos p + 1) with (1 + (Zpos p + Zpos p)) by lia.
    rewrite !Z.pow_add_r by lia. reflexivity.
  - assert (H2 : 0 <= shr_m (SpecFloat.iter_pos shr_1 p mrs)).
    { rewrite IH by exact Hm. apply Z.div_pos; [lia|]. apply Z.pow_pos_nonneg; lia. }
    rewrite IH by exact H2. rewrite IH by exact Hm.
    rewrite !Z.div_div by (try apply Z.pow_pos_nonneg; lia).
    f_equal. rewrite (Pos2Z.inj_xO p).
    replace (2 * Zpos p) with (Zpos p + Zpos p) by lia.
    rewrite Z.pow_add_r by lia. reflexivity.
  - rewrite shr_1_m by exact Hm. reflexivity.
Qed.

Lemma shr_m_shr_record_of_loc m l : shr_m (shr_record_of_loc m l) = m.
Proof. destruct l as [|[| |]]; reflexivity. Qed.

(** [shr] divides the mantissa and moves the exponent. *)
Lemma shr_spec mrs e n :
  0 <= shr_m mrs ->
  shr_m (fst (shr mrs e n)) = shr_m mrs / 2 ^ Z.max n 0 /\
  snd (shr mrs e n) = e + Z.max n 0.
Proof.
  intros Hm. unfold shr. destruct n as [|p|p]; cbn [fst snd].
  - cbn. rewrite Z.div_1_r. lia.
  - rewrite iter_pos_shr_1 by exact Hm. rewrite Z.max_l by lia. auto.
  - cbn. rewrite Z.div_1_r. lia.
Qed.

Lemma round_nearest_even_bounds m l :
  m <= round_nearest_even m l <= m + 1.
Proof.
  unfold round_nearest_even. destruct l as [|[| |]]; try lia.
  destruct (Z.even m); lia.
Qed.

(** *** Rounding *)

Lemma fexp_spec e : fexp prec emax e = Z.max (e - 53) (-1074).
Proof. reflexivity. Qed.

Lemma binary_round_aux_sign sx mx ex lx :
  0 <= mx ->
  match binary_round_aux prec emax sx mx ex lx with
  | S754_zero s | S754_infinity s | S754_finite s _ _ => s = sx
  | S754_nan => False
  end.
Proof.
  intros Hm. unfold binary_round_aux, shr_fexp.
  destruct (shr (shr_record_of_loc mx lx) ex _) as [mrs1 e1] eqn:Hs1.
  match type of Hs1 with shr ?r ?e ?n = _ =>
    pose proof (shr_spec r e n) as H1 end.
  rewrite Hs1, shr_m_shr_record_of_loc in H1. cbn [fst snd] in H1.
  destruct (H1 Hm) as [Hq1 _]. clear H1.
  assert (Hq1' : 0 <= shr_m mrs1).
  { rewrite Hq1. apply Z.div_pos; [exact Hm|]. apply Z.pow_pos_nonneg; lia. }
  pose proof (round_nearest_even_bounds (shr_m mrs1) (loc_of_shr_record mrs1)) as Hr.
  set (q' := round_nearest_even (shr_m mrs1) (loc_of_shr_record mrs1)) in *.
  destruct (shr (shr_record_of_loc q' loc_Exact) e1 _) as [mrs2 e2] eqn:Hs2.
  match type of Hs2 with shr ?r ?e ?n = _ =>
    pose proof (shr_spec r e n) as H2 end.
  rewrite Hs2, shr_m_shr_record_of_loc in H2. cbn [fst snd] in H2.
  destruct (H2 ltac:(lia)) as [Hq2 _]. clear H2.
  assert (Hq2' : 0 <= shr_m mrs2).
  { rewrite Hq2. apply Z.div_pos; [lia|]. apply Z.pow_pos_nonneg; lia. }
  destruct (shr_m mrs2) as [|p|p]; [reflexivity| |lia].
  destruct (Z.leb e2 (emax - prec)); reflexivity.
Qed.

Lemma shl_align_spec mx ex ez :
  ez <= ex ->
  Zpos (fst (shl_align mx ex ez)) = Zpos mx * 2 ^ (ex - ez) /\
  snd (shl_align mx ex ez) = ez.
Proof.
  intros Hle. unfold shl_align.
  destruct (ez - ex) as [|d|d] eqn:Hd; cbn [fst snd]; try lia.
  - replace (ex - ez) with 0 by lia. split; lia.
  - replace (ex - ez) with (Zpos d) by lia. split; [|reflexivity].
    clear. induction d as [|d IH] using Pos.peano_ind.
    + cbn. lia.
    + rewrite Pos.iter_succ. rewrite (Pos2Z.inj_xO (Pos.iter xO mx d)), IH.
      rewrite Pos2Z.inj_succ, Z.pow_succ_r by lia. lia.
Qed.

(** Rounding a positive number that is at least the canonical positive
    float [(mx, ex)] gives a float that is at least [(mx, ex)]. *)
Lemma binary_round_ge m ez mx ex :
  canonical_mantissa prec emax mx ex = true ->
  ez <= ex -> Zpos mx * 2 ^ (ex - ez) <= Zpos m ->
  match binary_round prec emax false m ez with
  | S754_finite false m' e' => ex < e' \/ (e' = ex /\ Zpos mx <= Zpos m')
  | S754_infinity false => True
  | _ => False
  end.
Proof.
  intros Hcan Hez Hm.
  unfold canonical_mantissa in Hcan. apply Z.eqb_eq in Hcan.
  rewrite fexp_spec in Hcan.
  pose proof (digits2_pos_bounds m) as Hdm.
  pose proof (digits2_pos_bounds mx) as Hdx.
  set (d := Zpos (digits2_pos m)) in *.
  set (dx := Zpos (digits2_pos mx)) in *.
  assert (Hd : 0 < d) by (subst d; lia).
  assert (Hdx0 : 0 < dx) by (subst dx; lia).
  assert (HD : dx + ex <= d + ez).
  { assert (H : 2 ^ (dx - 1 + (ex - ez)) < 2 ^ d).
    { rewrite Z.pow_add_r by lia.
      apply Z.le_lt_trans with (Zpos m); [|lia].
      apply Z.le_trans with (Zpos mx * 2 ^ (ex - ez)); [|exact Hm].
      apply Z.mul_le_mono_nonneg_r; [apply Z.pow_nonneg; lia|lia]. }
    apply Z.pow_lt_mono_r_iff in H; lia. }
  unfold binary_round. rewrite fexp_spec. fold d.
  set (f := Z.max (d + ez - 53) (-1074)).
  assert (Hf : ex <= f) by lia.
  assert (Hshl : shl_align m ez f = (m, ez)).
  { unfold shl_align. destruct (f - ez) eqn:Hfe; try reflexivity. lia. }
  rewrite Hshl. unfold binary_round_aux, shr_fexp.
  cbn [Zdigits2 shr_record_of_loc]. fold d. rewrite fexp_spec. fold f.
  set (n := f - ez). assert (Hn : 0 <= n) by lia.
  destruct (shr {| shr_m := Zpos m; shr_r := false; shr_s := false |} ez n)
    as [mrs1 e1] eqn:Hs1.
  pose proof (shr_spec {| shr_m := Zpos m; shr_r := false; shr_s := false |} ez n) as H1.
  rewrite Hs1 in H1. cbn [fst snd shr_m] in H1.
  destruct (H1 ltac:(lia)) as [Hq He1]. clear H1.
  rewrite Z.max_l in Hq, He1 by lia.
  set (q := shr_m mrs1) in *.
  assert (Hpow : 0 < 2 ^ n) by (apply Z.pow_pos_nonneg; lia).
  assert (Hq_hi : q < 2 ^ 53).
  { rewrite Hq. apply Z.div_lt_upper_bound; [exact Hpow|].
    rewrite <- Z.pow_add_r by lia.
    apply Z.lt_le_trans with (2 ^ d); [lia|].
    apply Z.pow_le_mono_r; lia. }
  assert (Hq_eq : f = ex -> Zpos mx <= q).
  { intros Hfe. rewrite Hq. apply Z.div_le_lower_bound; [exact Hpow|].
    replace n with (ex - ez) by lia. lia. }
  assert (Hq_gt : ex < f -> 2 ^ 52 <= q).
  { intros Hfe. rewrite Hq. apply Z.div_le_lower_bound; [exact Hpow|].
    rewrite <- Z.pow_add_r by lia.
    apply Z.le_trans with (2 ^ (d - 1)); [|lia].
    apply Z.pow_le_mono_r; lia. }
  assert (Hq_pos : 0 < q).
  { destruct (Z.eq_dec f ex) as [Hfe|Hfe].
    - specialize (Hq_eq Hfe). lia.
    - specialize (Hq_gt ltac:(lia)). assert (0 < 2 ^ 52) by (apply Z.pow_pos_nonneg; lia). lia. }
  pose proof (round_nearest_even_bounds q (loc_of_shr_record mrs1)) as Hr.
  set (q' := round_nearest_even q (loc_of_shr_record mrs1)) in *.
  assert (Hq'_pos : 0 < q') by lia.
  destruct (Zdigits2_bounds q' Hq'_pos) as [Hdq0 Hdq].
  set (dq := Zdigits2 q') in *.
  assert (Hdq_hi : dq <= 54).
  { destruct (Z.le_gt_cases dq 54) as [|H]; [assumption|].
    assert (2 ^ 54 <= 2 ^ (dq - 1)) by (apply Z.pow_le_mono_r; lia).
    assert (2 ^ 53 < 2 ^ 54) by (apply Z.pow_lt_mono_r; lia). lia. }
  rewrite fexp_spec.
  set (n2 := Z.max (dq + e1 - 53) (-1074) - e1).
  destruct (shr {| shr_m := q'; shr_r := false; shr_s := false |} e1 n2)
    as [mrs2 e2] eqn:Hs2.
  pose proof (shr_spec {| shr_m := q'; shr_r := false; shr_s := false |} e1 n2) as H2.
  rewrite Hs2 in H2. cbn [fst snd shr_m] in H2.
  destruct (H2 ltac:(lia)) as [Hq2 He2]. clear H2.
  assert (Hcases : (Z.max n2 0 = 0) \/ (Z.max n2 0 = 1 /\ dq = 54)) by lia.
  assert (Hq2_pos : 0 < shr_m mrs2 /\
                    (e2 = f /\ shr_m mrs2 = q' \/ e2 = f + 1)).
  { destruct Hcases as [H0|[H1 H54]].
    - rewrite H0 in Hq2, He2. rewrite Z.div_1_r in Hq2. split; [lia|left; lia].
    - rewrite H1 in Hq2, He2. split; [|right; lia].
      rewrite Hq2. subst dq. rewrite H54 in Hdq.
      apply Z.lt_le_trans with (2 ^ 52); [apply Z.pow_pos_nonneg; lia|].
      apply Z.div_le_lower_bound; [lia|].
      change (2 ^ 1) with 2. change (2 * 2 ^ 52) with (2 ^ 53). 
      change (54 - 1) with 53 in Hdq. lia. }
  destruct Hq2_pos as [Hpos2 Hres].
  destruct (shr_m mrs2) as [|p|p] eqn:Hp; try lia.
  destruct (Z.leb e2 (emax - prec)); [|exact I].
  destruct Hres as [[He Hm2]|He]; [|left; lia].
  destruct (Z.eq_dec f ex) as [Hfe|Hfe]; [|left; lia].
  right. split; [lia|]. specialize (Hq_eq Hfe). lia.
Qed.

(** *** Sums of non-negative floats *)

Lemma SFnonneg_leb s : SFleb (S754_zero false) s = true <-> SFnonneg s.
Proof. destruct s as [[|]|[|]| |[|] m e]; cbn; intuition discriminate. Qed.

Lemma SFleb_refl s : s <> S754_nan -> SFleb s s = true.
Proof.
  intros Hs. apply SFleb_key. unfold key_le. repeat split; try assumption. lia.
Qed.

Lemma SFadd_nonneg x y :
  valid_binary x = true -> SFnonneg x -> SFnonneg y ->
  SFnonneg (SF64add x y) /\ SFleb x (SF64add x y) = true.
Proof.
  intros Hvalid Hx Hy. unfold SF64add, SFadd.
  destruct x as [sx|[|]| |[|] mx ex]; try contradiction;
    destruct y as [sy|[|]| |[|] my ey]; try contradiction.
  - destruct sx, sy; cbn; auto.
  - cbn. auto.
  - cbn. destruct sx; auto.
  - cbn. auto.
  - cbn. auto.
  - cbn. auto.
  - split; [exact I|]. apply SFleb_refl. discriminate.
  - cbn. auto.
  - cbn [valid_binary] in Hvalid. unfold bounded in Hvalid.
    apply andb_prop in Hvalid. destruct Hvalid as [Hcan _].
    set (ez := Z.min ex ey).
    destruct (shl_align_spec mx ex ez ltac:(lia)) as [Hmx _].
    cbn [cond_Zopp].
    change (Z.pos (fst (shl_align mx ex ez)) + Z.pos (fst (shl_align my ey ez)))
      with (Z.pos (fst (shl_align mx ex ez) + fst (shl_align my ey ez))).
    pose proof (binary_round_ge
                  (fst (shl_align mx ex ez) + fst (shl_align my ey ez))%positive
                  ez mx ex Hcan ltac:(lia)) as Hround.
    unfold binary_normalize.
    destruct (binary_round prec emax false _ ez) as [s|[|]| |[|] m' e'];
      try (exfalso; apply Hround; rewrite Pos2Z.inj_add; lia).
    + cbn. auto.
    + split; [exact I|].
      specialize (Hround ltac:(rewrite Pos2Z.inj_add; lia)).
      apply SFleb_key. repeat split; try discriminate.
      unfold key_le. cbn. lia.
Qed.

Lemma SFplus_nonneg s : SFplus s -> SFnonneg s.
Proof. destruct s as [[|]|[|]| |[|] m e]; cbn; tauto. Qed.

Lemma SFdiv_plus x my ey :
  SFplus x -> SFplus (SF64div x (S754_finite false my ey)).
Proof.
  intros Hx. unfold SF64div, SFdiv.
  destruct x as [[|]|[|]| |[|] mx ex]; try contradiction; try exact I.
  unfold SFdiv_core_binary.
  set (s := ex - ey - _).
  set (m' := match s with Z0 => Zpos mx | Zpos _ => Z.shiftl (Zpos mx) s | Zneg _ => 0 end).
  assert (Hm' : 0 <= m').
  { subst m'. destruct s; try lia. apply Z.shiftl_nonneg. lia. }
  destruct (Z.div_eucl m' (Zpos my)) as [q r] eqn:Hqr.
  assert (Hq : 0 <= q).
  { replace q with (m' / Zpos my) by (unfold Z.div; rewrite Hqr; reflexivity).
    apply Z.div_pos; lia. }
  pose proof (binary_round_aux_sign (xorb false false) q
                (Z.min (fexp prec emax (Zdigits2 (Zpos mx) + ex - (Zdigits2 (Zpos my) + ey)))
                       (ex - ey))
                (new_location (Zpos my) r) Hq) as Hsign.
  destruct (binary_round_aux _ _ _ _ _ _) as [sr|sr| |sr mr er];
    try contradiction; cbn in Hsign; subst sr; exact I.
Qed.

Lemma SFdiv_nonneg x my ey :
  SFnonneg x -> SFnonneg (SF64div x (S754_finite false my ey)).
Proof.
  intros Hx. destruct x as [[|]|[|]| |[|] mx ex]; try contradiction;
    try exact I; apply SFplus_nonneg, SFdiv_plus; exact I.
Qed.

Lemma binary_normalize_plus z :
  0 <= z -> SFplus (binary_normalize prec emax z 0 false).
Proof.
  intros Hz. destruct z as [|m|m]; [exact I| |lia].
  cbn [binary_normalize]. unfold binary_round.
  destruct (shl_align m 0 _) as [mz ez].
  pose proof (binary_round_aux_sign false (Zpos mz) ez loc_Exact ltac:(lia)) as Hsign.
  destruct (binary_round_aux _ _ _ _ _ _) as [sr|sr| |sr mr er];
    try contradiction; subst sr; exact I.
Qed.

Lemma binary_normalize_nonneg z :
  0 <= z -> SFnonneg (binary_normalize prec emax z 0 false).
Proof. intros Hz. apply SFplus_nonneg, binary_normalize_plus, Hz. Qed.

Lemma SFadd_zero_l y : SFplus y -> SF64add (S754_zero false) y = y.
Proof. destruct y as [[|]|[|]| |[|] m e]; try contradiction; reflexivity. Qed.

(** *** The same facts on [double] *)

Lemma Prim2SF_zero : Prim2SF 0%float = S754_zero false.
Proof. reflexivity. Qed.

Lemma float_leb_0 x : (0 <=? x)%float = true <-> SFnonneg (Prim2SF x).
Proof. rewrite FloatAxioms.leb_spec, Prim2SF_zero. apply SFnonneg_leb. Qed.

Lemma float_add_nonneg x y :
  (0 <=? x)%float = true -> (0 <=? y)%float = true ->
  (0 <=? x + y)%float = true /\ (x <=? x + y)%float = true.
Proof.
  rewrite !float_leb_0, FloatAxioms.leb_spec, FloatAxioms.add_spec. intros Hx Hy.
  apply SFadd_nonneg; [apply Prim2SF_valid|assumption|assumption].
Qed.

Lemma float_of_uint63_nonneg n : (0 <=? of_uint63 n)%float = true.
Proof.
  rewrite float_leb_0, FloatAxioms.of_uint63_spec. apply binary_normalize_nonneg.
  apply Uint63.to_Z_bounded.
Qed.

Lemma float_div_1e9_nonneg x :
  (0 <=? x)%float = true -> (0 <=? x / 1000000000)%float = true.
Proof.
  rewrite !float_leb_0, FloatAxioms.div_spec. intros Hx.
  change (Prim2SF 1000000000) with (S754_finite false 8388608000000000 (-23)).
  apply SFdiv_nonneg. exact Hx.
Qed.

(** A count of nanoseconds, in seconds, has its sign bit clear, so adding
    it to zero gives it back. *)
Lemma float_seconds_plus n : SFplus (Prim2SF (of_uint63 n / 1000000000)%float).
Proof.
  rewrite FloatAxioms.div_spec.
  change (Prim2SF 1000000000) with (S754_finite false 8388608000000000 (-23)).
  apply SFdiv_plus. rewrite FloatAxioms.of_uint63_spec.
  apply binary_normalize_plus. apply Uint63.to_Z_bounded.
Qed.

Lemma float_add_0_l x : SFplus (Prim2SF x) -> (0 + x)%float = x.
Proof.
  intros Hx. apply Prim2SF_inj.
  rewrite FloatAxioms.add_spec, Prim2SF_zero. apply SFadd_zero_l, Hx.
Qed.

Lemma float_leb_refl x : Prim2SF x <> S754_nan -> (x <=? x)%float = true.
Proof. rewrite FloatAxioms.leb_spec. apply SFleb_refl. Qed.

Lemma float_leb_not_nan x y :
  (x <=? y)%float = true -> Prim2SF x <> S754_nan /\ Prim2SF y <> S754_nan.
Proof. rewrite FloatAxioms.leb_spec, SFleb_key. tauto. Qed.

Lemma float_leb_trans x y z :
  (x <=? y)%float = true -> (y <=? z)%float = true -> (x <=? z)%float = true.
Proof.
  rewrite !FloatAxioms.leb_spec, !SFleb_key. unfold key_le.
  intros (Hx & Hy & Hxy) (_ & Hz & Hyz). repeat split; try assumption. lia.
Qed.

Lemma float_ltb_leb x y : (x <? y)%float = true -> (x <=? y)%float = true.
Proof.
  rewrite FloatAxioms.ltb_spec, FloatAxioms.leb_spec, SFltb_key, SFleb_key. unfold key_lt, key_le.
  intros (Hx & Hy & Hxy). repeat split; try assumption. lia.
Qed.

Lemma float_ltb_false_leb x y :
  Prim2SF x <> S754_nan -> Prim2SF y <> S754_nan ->
  (x <? y)%float = false -> (y <=? x)%float = true.
Proof.
  intros Hx Hy Hlt. rewrite FloatAxioms.leb_spec, SFleb_key.
  repeat split; try assumption.
  destruct (SFltb (Prim2SF x) (Prim2SF y)) eqn:H; rewrite FloatAxioms.ltb_spec in Hlt; [congruence|].
  assert (Hn : ~ key_lt (SFkey (Prim2SF x)) (SFkey (Prim2SF y))).
  { intros Hk. assert (SFltb (Prim2SF x) (Prim2SF y) = true)
      by (apply SFltb_key; auto). congruence. }
  unfold key_lt in Hn. unfold key_le. lia.
Qed.

Lemma float_ltb_nan x : (nan <? x)%float = false.
Proof. rewrite FloatAxioms.ltb_spec. reflexivity. Qed.

Lemma float_is_finite_not_nan x :
  PrimFloat.is_finite x = true -> Prim2SF x <> S754_nan.
Proof.
  unfold PrimFloat.is_finite. intros H. apply Bool.negb_true_iff in H.
  apply Bool.orb_false_iff in H. destruct H as [Hnan _].
  unfold Prim2SF. rewrite Hnan.
  destruct (is_zero x); [discriminate|].
  destruct (is_infinity x); [discriminate|].
  destruct (Z.frexp x) as [r e].
  destruct (shr_fexp _ _ _ _ _) as [mrs e'].
  destruct (shr_m mrs); discriminate.
Qed.

End Binary64.

(** ** The timer callbacks as a function on the timer array *)

Lemma create_mg_timer_function_run i label flag level now s :
  create_mg_timer_function i label flag level now s =
  match timer_step i flag level now (all_mg_timers s) with
  | Some timers => (set_all_mg_timers timers s, Returned tt)
  | None => (s, Undefined)
  end.
Proof.
  unfold create_mg_timer_function, timer_step, bind, get, deref, modify, ret, undefined.
  destruct (all_mg_timers s !! level) as [row|]; [|reflexivity].
  destruct (row !! i) as [cell|]; [|reflexivity].
  destruct flag; reflexivity.
Qed.

Lemma dle_refl x : is_finite x -> dle x x.
Proof. intros H. apply float_leb_refl, float_is_finite_not_nan, H. Qed.

Lemma dle_refl_nonneg x : dle dzero x -> dle x x.
Proof. intros H. apply float_leb_refl. apply (float_leb_not_nan _ _ H). Qed.

Lemma dle_trans x y z : dle x y -> dle y z -> dle x z.
Proof. apply float_leb_trans. Qed.

Lemma seconds_of_count_nonneg count :
  (0 <= count)%Z -> dle dzero (seconds_of_count count).
Proof.
  intros H. unfold dle, dzero, seconds_of_count, double_of_count.
  destruct (Z.ltb_spec count 0) as [Hneg|_]; [lia|].
  apply float_div_1e9_nonneg, float_of_uint63_nonneg.
Qed.

Lemma seconds_of_count_eq count :
  (0 <= count)%Z ->
  seconds_of_count count = (of_uint63 (Uint63.of_Z count) / 1000000000)%float.
Proof.
  intros H. unfold seconds_of_count, double_of_count.
  destruct (Z.ltb_spec count 0) as [Hneg|_]; [lia|reflexivity].
Qed.

Lemma dadd_dzero_seconds count :
  (0 <= count)%Z ->
  dadd dzero (seconds_of_count count)
  = (of_uint63 (Uint63.of_Z count) / 1000000000)%float.
Proof.
  intros H. rewrite (seconds_of_count_eq count H).
  apply float_add_0_l, float_seconds_plus.
Qed.

(** A sum with a non-negative duration is rounded, and the rounded sum is
    still not below the accumulator. *)
Lemma dle_dadd_seconds x count :
  dle dzero x -> (0 <= count)%Z ->
  dle dzero (dadd x (seconds_of_count count)) /\
  dle x (dadd x (seconds_of_count count)).
Proof.
  intros Hx Hc. apply float_add_nonneg; [exact Hx|].
  apply seconds_of_count_nonneg, Hc.
Qed.

Lemma timer_step_cell i flag level now t t' :
  timer_step i flag level now t = Some t' ->
  exists cell,
    cell_at t level i = Some cell /\
    forall L k,
      cell_at t' L k =
      if decide (L = level /\ k = i)
      then Some (if flag
                 then (cell.1, now)
                 else (dadd cell.1 (seconds_of_count (now - cell.2)), cell.2))
      else cell_at t L k.
Proof.
  unfold timer_step, cell_at.
  destruct (t !! level) as [row|] eqn:Hrow; [|discriminate].
  destruct (row !! i) as [cell|] eqn:Hcell; [|discriminate].
  intros [= <-]. exists cell. split; [reflexivity|]. intros L k.
  pose proof (lookup_lt_Some _ _ _ Hrow) as Hlevel.
  pose proof (lookup_lt_Some _ _ _ Hcell) as Hi.
  destruct (decide (L = level)) as [->|HL].
  - rewrite list_lookup_insert_eq by exact Hlevel. rewrite Hrow.
    destruct (decide (k = i)) as [->|Hk].
    + rewrite decide_True by auto. apply list_lookup_insert_eq. exact Hi.
    + rewrite decide_False by tauto. apply list_lookup_insert_ne. congruence.
  - rewrite decide_False by tauto.
    rewrite list_lookup_insert_ne by congruence. reflexivity.
Qed.

(** What one call of a timer closure does to the accumulators: a stop
    adds the time since the recorded start to the accumulator of its level
    and stage; nothing else changes. *)
Lemma create_mg_timer_function_accumulators i label flag level now s s' :
  create_mg_timer_function i label flag level now s = (s', Returned tt) ->
  exists cell,
    cell_at (all_mg_timers s) level i = Some cell /\
    forall L k,
      accumulator_at s' L k =
      if decide (L = level /\ k = i /\ flag = false)
      then Some (dadd cell.1 (seconds_of_count (now - cell.2)))
      else accumulator_at s L k.
Proof.
  rewrite create_mg_timer_function_run.
  destruct (timer_step i flag level now (all_mg_timers s)) as [t'|] eqn:Hstep;
    [|discriminate].
  intros [= <-]. destruct (timer_step_cell _ _ _ _ _ _ Hstep) as (cell & Hcell & Hnew).
  exists cell. split; [exact Hcell|]. intros L k.
  unfold accumulator_at. cbn [all_mg_timers set_all_mg_timers]. rewrite Hnew.
  destruct (decide (L = level /\ k = i)) as [[-> ->]|Hne].
  - rewrite Hcell. destruct flag.
    + rewrite decide_False by (intros (_ & _ & ?); discriminate). reflexivity.
    + rewrite decide_True by auto. reflexivity.
  - rewrite decide_False by tauto. reflexivity.
Qed.

Lemma timer_step_inv t0 i flag level now t t' :
  timers_inv t0 t -> (t0 <= now)%Z ->
  timer_step i flag level now t = Some t' ->
  timers_inv now t' /\ accumulators_le t t'.
Proof.
  intros Hinv Hnow Hstep.
  destruct (timer_step_cell _ _ _ _ _ _ Hstep) as (cell & Hcell & Hnew).
  destruct (Hinv _ _ _ Hcell) as [Hfin Hstart].
  destruct (dle_dadd_seconds cell.1 (now - cell.2) Hfin ltac:(lia)) as [Hfin' Hle].
  split.
  - intros L k c Hc. rewrite Hnew in Hc.
    destruct (decide (L = level /\ k = i)) as [_|_].
    + injection Hc as <-. destruct flag; simpl; split; auto; lia.
    + destruct (Hinv _ _ _ Hc) as [Hf Hs]. split; [exact Hf|lia].
  - intros L k c Hc. rewrite Hnew.
    destruct (decide (L = level /\ k = i)) as [[-> ->]|_].
    + rewrite Hcell in Hc. injection Hc as <-. eexists. split; [reflexivity|].
      destruct flag; simpl; [apply dle_refl_nonneg; exact Hfin|exact Hle].
    + exists c. split; [exact Hc|]. apply dle_refl_nonneg. apply (Hinv _ _ _ Hc).
Qed.

Lemma accumulators_le_refl t0 t : timers_inv t0 t -> accumulators_le t t.
Proof.
  intros Hinv L k c Hc. exists c. split; [exact Hc|].
  apply dle_refl_nonneg. apply (Hinv _ _ _ Hc).
Qed.

Lemma accumulators_le_trans t1 t2 t3 :
  accumulators_le t1 t2 -> accumulators_le t2 t3 -> accumulators_le t1 t3.
Proof.
  intros H12 H23 L k c Hc.
  destruct (H12 _ _ _ Hc) as (c2 & Hc2 & Hle2).
  destruct (H23 _ _ _ Hc2) as (c3 & Hc3 & Hle3).
  exists c3. split; [exact Hc3|]. eapply dle_trans; eassumption.
Qed.

Lemma run_signals_inv sigs : forall t0 t t',
  timers_inv t0 t -> steady_from t0 sigs = true ->
  run_signals sigs t = (t', true) ->
  timers_inv (last_now t0 sigs) t' /\ accumulators_le t t'.
Proof.
  induction sigs as [|sg sigs IH]; intros t0 t t' Hinv Hsteady Hrun.
  - injection Hrun as <-. split; [exact Hinv|].
    apply (accumulators_le_refl t0); exact Hinv.
  - cbn [run_signals] in Hrun. cbn [steady_from] in Hsteady.
    apply andb_true_iff in Hsteady. destruct Hsteady as [Hnow Hsteady].
    apply Z.leb_le in Hnow.
    destruct (timer_step _ _ _ _ t) as [t1|] eqn:Hstep; [|discriminate].
    destruct (timer_step_inv _ _ _ _ _ _ _ Hinv Hnow Hstep) as [Hinv1 Hle1].
    destruct (IH _ _ _ Hinv1 Hsteady Hrun) as [Hinv' Hle'].
    split; [exact Hinv'|].
    eapply accumulators_le_trans; eassumption.
Qed.

Lemma run_signals_app pre post t :
  run_signals (pre ++ post) t =
  if (run_signals pre t).2 then run_signals post (run_signals pre t).1
  else run_signals pre t.
Proof.
  revert t. induction pre as [|sg pre IH]; intros t; [reflexivity|].
  cbn [app run_signals].
  destruct (timer_step _ _ _ _ t) as [t1|]; [apply IH|reflexivity].
Qed.

Lemma steady_from_app t0 pre post :
  steady_from t0 (pre ++ post) =
  steady_from t0 pre && steady_from (last_now t0 pre) post.
Proof.
  revert t0. induction pre as [|sg pre IH]; intros t0; [reflexivity|].
  cbn [app steady_from]. rewrite IH, andb_assoc. reflexivity.
Qed.

Lemma cell_at_zero_timers lo hi level i c :
  cell_at (zero_timers lo hi) level i = Some c ->
  c = (dzero, epoch) /\ level <= hi - lo /\ i < 7.
Proof.
  unfold cell_at, zero_timers. intros H.
  destruct (replicate _ _ !! level) as [row|] eqn:Hrow; [|discriminate].
  apply lookup_replicate in Hrow. destruct Hrow as [-> Hlevel].
  apply lookup_replicate in H. destruct H as [-> Hi]. split; [reflexivity|lia].
Qed.

Lemma cell_at_zero_timers_in_range lo hi level i :
  level <= hi - lo -> i < 7 ->
  cell_at (zero_timers lo hi) level i = Some (dzero, epoch).
Proof.
  intros Hlevel Hi. unfold cell_at, zero_timers.
  rewrite lookup_replicate_2 by lia. apply lookup_replicate_2. exact Hi.
Qed.

Lemma timers_inv_zero_timers lo hi :
  timers_inv epoch (zero_timers lo hi).
Proof.
  intros L k c Hc. apply cell_at_zero_timers in Hc. destruct Hc as (-> & _).
  simpl. split; reflexivity.
Qed.

Lemma length_zero_timers lo hi :
  length (zero_timers lo hi) = hi - lo + 1.
Proof. apply length_replicate. Qed.

Lemma seven_wide_zero_timers lo hi :
  seven_wide (zero_timers lo hi).
Proof.
  unfold seven_wide, zero_timers. apply Forall_forall. intros row Hrow.
  apply elem_of_replicate_inv in Hrow. subst row. reflexivity.
Qed.

Lemma stage_index_lt st : stage_index st < 7.
Proof. destruct st; simpl; lia. Qed.

Lemma timer_step_in_range i flag level now t :
  seven_wide t -> level < length t -> i < 7 ->
  exists t', timer_step i flag level now t = Some t' /\
             seven_wide t' /\ length t' = length t.
Proof.
  intros Hwide Hlevel Hi. unfold timer_step.
  destruct (lookup_lt_is_Some_2 _ _ Hlevel) as [row Hrow]. rewrite Hrow.
  assert (Hlen : length row = 7).
  { unfold seven_wide in Hwide. rewrite Forall_forall in Hwide.
    apply Hwide. eapply list_elem_of_lookup_2. exact Hrow. }
  destruct (row !! i) as [cell|] eqn:Hcell.
  2:{ apply lookup_ge_None_1 in Hcell. lia. }
  eexists. split; [reflexivity|]. split; [|apply length_insert].
  apply Forall_insert; [exact Hwide|]. rewrite length_insert. exact Hlen.
Qed.

Lemma run_signals_in_range sigs : forall t,
  seven_wide t ->
  Forall (fun sg => sig_level sg < length t) sigs ->
  (run_signals sigs t).2 = true /\
  seven_wide (run_signals sigs t).1 /\
  length (run_signals sigs t).1 = length t.
Proof.
  induction sigs as [|sg sigs IH]; intros t Hwide Hlevels; [auto|].
  apply Forall_cons in Hlevels. destruct Hlevels as [Hlevel Hlevels].
  destruct (timer_step_in_range (stage_index (sig_slot sg)) (sig_flag sg)
              (sig_level sg) (sig_now sg) t Hwide Hlevel (stage_index_lt _))
    as (t' & Hstep & Hwide' & Hlen').
  cbn [run_signals]. rewrite Hstep.
  destruct (IH t' Hwide') as (Hok & Hw & Hl).
  { rewrite Hlen'. exact Hlevels. }
  rewrite Hl, Hlen'. auto.
Qed.

(** ** [std::max_element] on finite values *)

Lemma dlt_true_dle x y : dlt x y = true -> dle x y.
Proof. apply float_ltb_leb. Qed.

Lemma dlt_false_dle x y : is_finite x -> is_finite y -> dlt x y = false -> dle y x.
Proof.
  intros Hx Hy. apply float_ltb_false_leb; apply float_is_finite_not_nan; assumption.
Qed.

Lemma max_element_from_spec l : forall x,
  is_finite x -> Forall is_finite l ->
  let m := max_element_from x l in
  is_finite m /\ (m = x \/ m ∈ l) /\ dle x m /\ Forall (fun y => dle y m) l.
Proof.
  induction l as [|y l IH]; intros x Hx Hl; cbn [max_element_from].
  - split; [exact Hx|]. split; [left; reflexivity|].
    split; [apply dle_refl; exact Hx|constructor].
  - apply Forall_cons in Hl. destruct Hl as [Hy Hl].
    destruct (dlt x y) eqn:Hlt.
    + destruct (IH y Hy Hl) as (Hm & Hin & Hym & Hall).
      split; [exact Hm|]. split.
      { right. destruct Hin as [->|Hin]; [left|right; exact Hin]. }
      split; [apply (dle_trans _ y); [apply dlt_true_dle; exact Hlt|exact Hym]|].
      constructor; assumption.
    + destruct (IH x Hx Hl) as (Hm & Hin & Hxm & Hall).
      split; [exact Hm|]. split.
      { destruct Hin as [->|Hin]; [left; reflexivity|right; right; exact Hin]. }
      split; [exact Hxm|].
      constructor; [|exact Hall].
      apply (dle_trans _ x); [apply dlt_false_dle; assumption|exact Hxm].
Qed.

Lemma max_element_spec l m :
  Forall is_finite l -> max_element l = Some m ->
  m ∈ l /\ Forall (fun y => dle y m) l.
Proof.
  destruct l as [|x l]; [discriminate|]. intros Hl [= <-].
  apply Forall_cons in Hl. destruct Hl as [Hx Hl].
  destruct (max_element_from_spec l x Hx Hl) as (_ & Hin & Hxm & Hall).
  split.
  - destruct Hin as [->|Hin]; [left|right; exact Hin].
  - constructor; assumption.
Qed.

Lemma cell_at_in_range t level i :
  seven_wide t -> level < length t -> i < 7 -> is_Some (cell_at t level i).
Proof.
  intros Hwide Hlevel Hi. unfold cell_at.
  destruct (lookup_lt_is_Some_2 _ _ Hlevel) as [row Hrow]. rewrite Hrow.
  apply lookup_lt_is_Some_2.
  unfold seven_wide in Hwide. rewrite Forall_forall in Hwide.
  rewrite (Hwide row); [exact Hi|]. eapply list_elem_of_lookup_2. exact Hrow.
Qed.

Lemma estimated_levels_app t1 t2 :
  estimated_levels (t1 ++ t2) = estimated_levels t1 ++ estimated_levels t2.
Proof. apply omap_app. Qed.

Lemma estimated_levels_cons e t :
  estimated_levels (e :: t) =
  match e with
  | EvEstimateEigenvalues level => level :: estimated_levels t
  | _ => estimated_levels t
  end.
Proof. destruct e; reflexivity. Qed.

Lemma estimated_levels_tail t : Forall tail_event t -> estimated_levels t = [].
Proof.
  induction 1 as [|e t He _ IH]; [reflexivity|].
  destruct e; simpl in He; try contradiction; exact IH.
Qed.

Lemma logged_max_ev_app t1 t2 :
  logged_max_ev (t1 ++ t2) = logged_max_ev t1 ++ logged_max_ev t2.
Proof. apply omap_app. Qed.

Lemma recorded_max_ev_app t1 t2 :
  recorded_max_ev (t1 ++ t2) = recorded_max_ev t1 ++ recorded_max_ev t2.
Proof. apply omap_app. Qed.

Lemma max_ev_tail t :
  Forall tail_event t -> logged_max_ev t = [] /\ recorded_max_ev t = [].
Proof.
  induction 1 as [|e t He _ IH]; [auto|].
  destruct e; simpl in He; try contradiction; exact IH.
Qed.

(** Every written table is written with logging on, on process 0. *)
Lemma mg_solve_write_text_guard :
  keeps (emits (fun e => is_write_text e ->
                         log_levels mg_data = true /\ this_mpi_process env = 0))
        (mg_solve env mg_data min_level max_level filename_mg_level).
Proof.
  unfold mg_solve.
  repeat (apply keeps_bind; [apply emits_trans| |intros _]);
    try (unfold_phases; keeps_auto emits_atom; simpl in *; tauto).
  unfold dump_table.
  destruct (log_levels mg_data) eqn:Hlog; simpl.
  - destruct (Nat.eqb_spec (this_mpi_process env) 0) as [Hr|Hr]; simpl.
    + unfold_phases; keeps_auto emits_atom; simpl in *; tauto.
    + keeps_auto emits_atom.
  - keeps_auto emits_atom.
Qed.

(** *** Lines 83-94 *)

Lemma lookup_configured_smoother_data level :
  configured_smoother_data !! level =
  if decide (min_level <= level <= max_level) then Some (configured level) else None.
Proof.
  unfold configured_smoother_data.
  rewrite lookup_overwrite_levels, lookup_new_level_object.
  destruct (decide (min_level <= level <= max_level)) as [Hin|Hout].
  - rewrite decide_True by (apply elem_of_levels; exact Hin). reflexivity.
  - rewrite decide_False by (rewrite elem_of_levels; exact Hout). reflexivity.
Qed.

Lemma initialize_smoother_data_run s :
  initialize_smoother_data env mg_data min_level max_level s =
  (set_smoother_data configured_smoother_data s, Returned tt).
Proof.
  unfold initialize_smoother_data.
  erewrite bind_returned by reflexivity.
  rewrite for_each_update_smoother_data
    with (d0 := fun _ => default_additional_data env).
  - reflexivity.
  - apply NoDup_levels.
  - intros level Hin. simpl. rewrite lookup_new_level_object.
    apply elem_of_levels in Hin. rewrite decide_True by exact Hin. reflexivity.
Qed.

(** *** Lines 100-125 *)

Lemma estimate_level_run level s :
  smoother_data s !! level = Some (configured level) ->
  level < length (min_eigenvalues s) ->
  level < length (max_eigenvalues s) ->
  estimate_level env level s = (estimate_step s level, Returned tt).
Proof.
  intros Hd Hmin Hmax.
  unfold estimate_level, vector_set, update_smoother_data, bind, get, deref,
    call, modify, ret; simpl.
  rewrite Hd; simpl.
  rewrite decide_True by exact Hmin; simpl.
  rewrite decide_True by exact Hmax; simpl.
  rewrite Hd; simpl.
  unfold estimate_step, estimate_events, estimated, set_smoother_data; simpl.
  rewrite <- !app_assoc. reflexivity.
Qed.

Lemma smoother_data_estimated_state l s :
  smoother_data (estimated_state l s) =
  overwrite_levels (fun level => use_estimate (estimated level) (configured level))
    l (smoother_data s).
Proof.
  unfold estimated_state, overwrite_levels. revert s.
  induction l as [|l0 l IH]; intros s; simpl; [reflexivity|]. apply IH.
Qed.

Lemma min_eigenvalues_estimated_state l s :
  min_eigenvalues (estimated_state l s) =
  overwrite_indices (fun level => min_eigenvalue_estimate (estimated level))
    l (min_eigenvalues s).
Proof.
  unfold estimated_state, overwrite_indices. revert s.
  induction l as [|l0 l IH]; intros s; simpl; [reflexivity|]. apply IH.
Qed.

Lemma max_eigenvalues_estimated_state l s :
  max_eigenvalues (estimated_state l s) =
  overwrite_indices (fun level => max_eigenvalue_estimate (estimated level))
    l (max_eigenvalues s).
Proof.
  unfold estimated_state, overwrite_indices. revert s.
  induction l as [|l0 l IH]; intros s; simpl; [reflexivity|]. apply IH.
Qed.

Lemma trace_estimated_state l s :
  trace (estimated_state l s) = trace s ++ concat (map estimate_events l).
Proof.
  unfold estimated_state. revert s.
  induction l as [|l0 l IH]; intros s.
  - simpl. symmetry; apply app_nil_r.
  - cbn [foldl]. rewrite IH. cbn [estimate_step trace map concat].
    symmetry; apply app_assoc.
Qed.

Lemma rest_estimated_state l s :
  all_mg_timers (estimated_state l s) = all_mg_timers s /\
  slots (estimated_state l s) = slots s /\
  table (estimated_state l s) = table s.
Proof.
  unfold estimated_state. revert s.
  induction l as [|l0 l IH]; intros s; simpl; [auto|].
  destruct (IH (estimate_step s l0)) as (-> & -> & ->). auto.
Qed.

Lemma for_each_estimate_level l :
  NoDup l -> forall s,
  (forall level, level ∈ l ->
     smoother_data s !! level = Some (configured level) /\
     level < length (min_eigenvalues s) /\
     level < length (max_eigenvalues s)) ->
  for_each l (estimate_level env) s = (estimated_state l s, Returned tt).
Proof.
  induction 1 as [|l0 l Hnot Hnd IH]; intros s Hs; [reflexivity|].
  cbn [for_each].
  destruct (Hs l0) as (Hd & Hmin & Hmax); [left|].
  erewrite bind_returned by (apply estimate_level_run; assumption).
  rewrite IH; [reflexivity|].
  intros level Hin. destruct (Hs level) as (Hd' & Hmin' & Hmax'); [right; exact Hin|].
  cbn [estimate_step smoother_data min_eigenvalues max_eigenvalues].
  rewrite !length_insert.
  rewrite lookup_insert_ne by (intros ->; contradiction). auto.
Qed.

Lemma log_max_eigenvalue_run s :
  log_max_eigenvalue s =
  match summary_max (max_eigenvalues s) with
  | Some m => (set_trace (trace s ++ [EvPCOutMaxEV m; EvTableMaxEV m]) s, Returned tt)
  | None => (s, Undefined)
  end.
Proof.
  unfold log_max_eigenvalue, summary_max, bind, get, deref, call, ret, undefined.
  destruct (max_eigenvalues s) as [|x0 [|x1 range]]; simpl; try reflexivity.
  unfold set_trace; simpl. rewrite <- app_assoc. reflexivity.
Qed.

Lemma summary_max_is_Some maxs : 2 <= length maxs -> is_Some (summary_max maxs).
Proof. destruct maxs as [|x0 [|x1 range]]; simpl; [lia|lia|eauto]. Qed.

Lemma summary_max_None maxs : length maxs < 2 -> summary_max maxs = None.
Proof. destruct maxs as [|x0 [|x1 range]]; simpl; [auto|auto|lia]. Qed.

Lemma estimate_all_levels_run :
  estimate_all_levels env mg_data min_level max_level s_configured =
  estimate_all_levels_result.
Proof.
  unfold estimate_all_levels, estimate_all_levels_result.
  erewrite bind_returned by reflexivity.
  erewrite bind_returned by reflexivity.
  change (set_max_eigenvalues _ (set_min_eigenvalues _ s_configured)) with s_vectors.
  destruct (estimate_eigenvalues mg_data); [|reflexivity].
  unfold when.
  erewrite bind_returned.
  - apply log_max_eigenvalue_run.
  - apply for_each_estimate_level; [apply NoDup_levels|].
    intros level Hin. apply elem_of_levels in Hin. simpl.
    rewrite length_replicate, lookup_configured_smoother_data.
    rewrite decide_True by lia. split; [reflexivity|lia].
Qed.

Lemma length_max_eigenvalues_s_estimated :
  length (max_eigenvalues s_estimated) = max_level + 1.
Proof.
  unfold s_estimated. rewrite max_eigenvalues_estimated_state.
  rewrite length_overwrite_indices. apply length_replicate.
Qed.

Lemma length_min_eigenvalues_s_estimated :
  length (min_eigenvalues s_estimated) = max_level + 1.
Proof.
  unfold s_estimated. rewrite min_eigenvalues_estimated_state.
  rewrite length_overwrite_indices. apply length_replicate.
Qed.

(** *** The run up to line 125 *)

Lemma run_not_chebyshev :
  Smoother.type (smoother mg_data) <> "chebyshev" ->
  run env mg_data min_level max_level filename_mg_level =
  (initial_state, Threw ExcNotImplemented).
Proof.
  intros Hty. apply String.eqb_neq in Hty.
  unfold run, mg_solve. erewrite bind_threw; [reflexivity|].
  unfold AssertThrow. rewrite Hty. reflexivity.
Qed.

Lemma run_chebyshev :
  Smoother.type (smoother mg_data) = "chebyshev" ->
  run env mg_data min_level max_level filename_mg_level =
  match estimate_all_levels_result with
  | (s, Returned _) => after_estimation s
  | (s, Threw e) => (s, Threw e)
  | (s, Undefined) => (s, Undefined)
  end.
Proof.
  intros Hty. unfold run, mg_solve. rewrite Hty.
  erewrite bind_returned by reflexivity.
  erewrite bind_returned by reflexivity.
  erewrite bind_returned by apply initialize_smoother_data_run.
  change (set_smoother_data _ _) with s_configured.
  unfold bind at 1. rewrite estimate_all_levels_run. reflexivity.
Qed.

Lemma estimated_levels_estimate_events l :
  estimated_levels (concat (map estimate_events l)) = l.
Proof.
  induction l as [|l0 l IH]; [reflexivity|].
  cbn [map concat]. rewrite estimated_levels_app, IH. reflexivity.
Qed.

Lemma elem_of_estimate_events e l :
  e ∈ concat (map estimate_events l) ->
  exists level, level ∈ l /\ e ∈ estimate_events level.
Proof.
  induction l as [|l0 l IH]; cbn [map concat]; intros Hin.
  - inversion Hin.
  - apply elem_of_app in Hin. destruct Hin as [Hin|Hin].
    + exists l0. split; [left|exact Hin].
    + destruct (IH Hin) as (level & Hl & He). exists level. split; [right|]; assumption.
Qed.

(** *** Lines 128-279 *)

Lemma after_estimation_emits : keeps (emits tail_event) after_estimation.
Proof.
  unfold after_estimation. unfold_phases.
  keeps_auto emits_atom; exact I.
Qed.

Lemma after_estimation_smoother_data : keeps (same smoother_data) after_estimation.
Proof. unfold after_estimation. unfold_phases. keeps_auto same_atom. Qed.

Lemma after_estimation_min_eigenvalues : keeps (same min_eigenvalues) after_estimation.
Proof. unfold after_estimation. unfold_phases. keeps_auto same_atom. Qed.

Lemma after_estimation_max_eigenvalues : keeps (same max_eigenvalues) after_estimation.
Proof. unfold after_estimation. unfold_phases. keeps_auto same_atom. Qed.

(** The first thing done after the estimation is line 129, with the
    smoother configurations as the estimation left them. *)
Lemma after_estimation_starts s :
  exists t,
    trace (after_estimation s).1 =
    trace s ++ EvMgSmootherInitialize (smoother_data s) :: t /\
    Forall tail_event t.
Proof.
  unfold after_estimation.
  erewrite bind_returned by reflexivity.
  match goal with |- context [bind ?m ?k ?s1] =>
    assert (keeps (emits tail_event) (bind m k)) as Hk
  end.
  { unfold_phases. keeps_auto emits_atom; exact I. }
  match goal with |- context [bind ?m ?k ?s1] =>
    destruct (Hk s1) as (t & Ht & HF)
  end.
  exists t. split; [|exact HF].
  rewrite Ht. cbn [trace set_trace]. rewrite <- app_assoc. reflexivity.
Qed.

(** The run of a configuration with the Chebyshev smoother, against the
    locals at the end of the estimation. *)
Lemma run_chebyshev_frame :
  Smoother.type (smoother mg_data) = "chebyshev" ->
  let final := (run env mg_data min_level max_level filename_mg_level).1 in
  let est := estimate_all_levels_result.1 in
  (exists t, trace final = trace est ++ t /\ Forall tail_event t) /\
  min_eigenvalues final = min_eigenvalues est /\
  max_eigenvalues final = max_eigenvalues est /\
  smoother_data final = smoother_data est.
Proof.
  intros Hty final est. subst final est. rewrite (run_chebyshev Hty).
  destruct estimate_all_levels_result as [s [[]|e|]]; cbn [fst].
  - split; [apply after_estimation_emits|].
    split; [apply after_estimation_min_eigenvalues|].
    split; [apply after_estimation_max_eigenvalues|apply after_estimation_smoother_data].
  - split; [exists []; split; [symmetry; apply app_nil_r|constructor]|auto].
  - split; [exists []; split; [symmetry; apply app_nil_r|constructor]|auto].
Qed.

Lemma trace_estimate_all_levels_result :
  trace estimate_all_levels_result.1 = estimation_trace.
Proof.
  unfold estimate_all_levels_result, estimation_trace.
  destruct (estimate_eigenvalues mg_data); [|reflexivity].
  destruct (summary_max (max_eigenvalues s_estimated)) as [m|]; cbn [fst trace set_trace];
    unfold s_estimated; rewrite trace_estimated_state; cbn [trace s_vectors].
  - rewrite <- app_assoc. reflexivity.
  - rewrite app_nil_r. reflexivity.
Qed.

Lemma eigenvalues_estimate_all_levels_result :
  estimate_eigenvalues mg_data = true ->
  min_eigenvalues estimate_all_levels_result.1 = min_eigenvalues s_estimated /\
  max_eigenvalues estimate_all_levels_result.1 = max_eigenvalues s_estimated /\
  smoother_data estimate_all_levels_result.1 = smoother_data s_estimated.
Proof.
  intros Hest. unfold estimate_all_levels_result. rewrite Hest.
  destruct (summary_max (max_eigenvalues s_estimated)); auto.
Qed.

(** *** The coarse-grid dispatch *)

Lemma initialize_coarse_solver_unsupported s :
  coarse_supported = false ->
  initialize_coarse_solver env mg_data min_level s = (s, Threw ExcNotImplemented).
Proof.
  unfold coarse_supported, initialize_coarse_solver. cbv zeta.
  destruct (String.eqb _ "cg"); [discriminate|].
  destruct (String.eqb _ "cg_with_chebyshev"); [discriminate|].
  destruct (String.eqb _ "cg_with_amg"); [|reflexivity].
  destruct (with_trilinos env); [discriminate|reflexivity].
Qed.

Lemma after_estimation_unsupported s :
  coarse_supported = false ->
  after_estimation s =
  (set_trace (trace s ++ [EvMgSmootherInitialize (smoother_data s)]) s,
   Threw ExcNotImplemented).
Proof.
  intros Hc. unfold after_estimation.
  erewrite bind_returned by reflexivity.
  erewrite bind_threw by (apply initialize_coarse_solver_unsupported; exact Hc).
  reflexivity.
Qed.

Lemma unrecognized_unsupported :
  CoarseSolver.type (coarse_solver mg_data) ∉ recognized_coarse_solvers ->
  coarse_supported = false.
Proof.
  unfold recognized_coarse_solvers, coarse_supported. cbv zeta. intros Hnot.
  rewrite !not_elem_of_cons in Hnot. destruct Hnot as (H1 & H2 & H3 & _).
  apply String.eqb_neq in H1, H2, H3. rewrite H1, H2, H3. reflexivity.
Qed.


Lemma setup_event_estimation_trace : Forall setup_event estimation_trace.
Proof.
  unfold estimation_trace. constructor; [exact I|].
  destruct (estimate_eigenvalues mg_data); [|constructor].
  apply Forall_app. split.
  - induction (levels (min_level + 1) max_level) as [|l0 l IH]; cbn [map concat].
    + constructor.
    + apply Forall_app. split; [|exact IH]. repeat constructor.
  - destruct (summary_max _); repeat constructor.
Qed.

Lemma estimate_all_levels_result_returned :
  summary_defined -> estimate_all_levels_result.2 = Returned tt.
Proof.
  unfold summary_defined, estimate_all_levels_result. intros Hdef.
  destruct (estimate_eigenvalues mg_data); [|reflexivity].
  destruct (summary_max_is_Some (max_eigenvalues s_estimated)) as [m Hm].
  { rewrite length_max_eigenvalues_s_estimated. specialize (Hdef eq_refl). lia. }
  rewrite Hm. reflexivity.
Qed.

(** The run of a configuration whose coarse-grid dispatch throws. *)
Lemma run_unsupported :
  Smoother.type (smoother mg_data) = "chebyshev" ->
  coarse_supported = false ->
  let r := run env mg_data min_level max_level filename_mg_level in
  (forall a, r.2 <> Returned a) /\
  Forall setup_event (trace r.1) /\
  all_mg_timers r.1 = [] /\ slots r.1 = [] /\ table r.1 = [] /\
  (summary_defined ->
   r.2 = Threw ExcNotImplemented /\
   trace r.1 = estimation_trace ++ [EvMgSmootherInitialize (smoother_data r.1)]).
Proof.
  intros Hty Hc r. subst r. rewrite (run_chebyshev Hty).
  pose proof trace_estimate_all_levels_result as Htr.
  pose proof setup_event_estimation_trace as Hev.
  pose proof estimate_all_levels_result_returned as Hret.
  assert (Hrest : all_mg_timers estimate_all_levels_result.1 = [] /\
                  slots estimate_all_levels_result.1 = [] /\
                  table estimate_all_levels_result.1 = []).
  { unfold estimate_all_levels_result.
    destruct (estimate_eigenvalues mg_data); [|auto].
    destruct (rest_estimated_state (levels (min_level + 1) max_level) s_vectors)
      as (H1 & H2 & H3).
    destruct (summary_max _); cbn [fst all_mg_timers slots table set_trace];
      fold s_estimated in H1, H2, H3; rewrite ?H1, ?H2, ?H3; auto. }
  destruct estimate_all_levels_result as [s [[]|e|]]; cbn [fst snd] in *.
  - rewrite (after_estimation_unsupported s Hc). cbn [fst snd trace set_trace
      all_mg_timers slots table smoother_data].
    split; [discriminate|]. split.
    { apply Forall_app. split; [rewrite Htr; exact Hev|repeat constructor]. }
    do 3 (split; [tauto|]). intros _. rewrite Htr. auto.
  - split; [discriminate|]. split; [rewrite Htr; exact Hev|].
    do 3 (split; [tauto|]). intros Hdef. specialize (Hret Hdef). discriminate.
  - split; [discriminate|]. split; [rewrite Htr; exact Hev|].
    do 3 (split; [tauto|]). intros Hdef. specialize (Hret Hdef). discriminate.
Qed.

(** *** Runs without per-level logging *)

Lemma for_each_fire_unconnected sigs s :
  slots s = [] -> for_each sigs fire s = (s, Returned tt).
Proof.
  intros Hs. induction sigs as [|sg sigs IH]; [reflexivity|].
  cbn [for_each]. erewrite bind_returned; [exact IH|].
  unfold fire, bind, get. rewrite Hs. reflexivity.
Qed.

Lemma solve_unconnected s :
  slots s = [] ->
  solve env s = (set_trace (trace s ++ [EvSolve]) s, Returned tt).
Proof.
  intros Hs. unfold solve. erewrite bind_returned by reflexivity.
  apply for_each_fire_unconnected. exact Hs.
Qed.

Lemma unlogged_refl s : unlogged s s.
Proof. intros Hs. auto. Qed.

Lemma unlogged_trans s1 s2 s3 : unlogged s1 s2 -> unlogged s2 s3 -> unlogged s1 s3.
Proof.
  intros H12 H23 Hs. destruct (H12 Hs) as [Hs2 H2]. destruct (H23 Hs2) as [Hs3 H3].
  split; [exact Hs3|]. destruct H3 as [H3|H3]; [|right; exact H3].
  rewrite H3. exact H2.
Qed.

Ltac unlogged_atom :=
  first [ apply unlogged_refl
        | eapply unlogged_trans; eassumption
        | intros ?; cbn; auto ].

Lemma mg_solve_unlogged :
  log_levels mg_data = false ->
  keeps unlogged (mg_solve env mg_data min_level max_level filename_mg_level).
Proof.
  intros Hlog. unfold mg_solve. rewrite Hlog. cbv beta iota delta [when].
  repeat (lazymatch goal with
          | |- keeps _ (bind _ _) =>
              apply (keeps_bind unlogged unlogged_trans); [|intros _]
          end);
    try (lazymatch goal with
         | |- keeps _ (solve _) => fail
         | |- _ => unfold_phases; keeps_auto unlogged_atom
         end).
  intros s Hs. rewrite (solve_unconnected s Hs). cbn. auto.
Qed.

Lemma mg_solve_unlogged_table :
  log_levels mg_data = false ->
  keeps (same table) (mg_solve env mg_data min_level max_level filename_mg_level).
Proof.
  intros Hlog. unfold mg_solve, dump_table. rewrite Hlog.
  cbv beta iota delta [when andb].
  unfold_phases. keeps_auto same_atom.
Qed.

(** *** Runs with per-level logging *)

Lemma filter_timer_slots st :
  exists label,
    filter (fun c : stage * nat * string => c.1.1 = st) timer_slots =
    [(st, stage_index st, label)].
Proof. destruct st; eexists; reflexivity. Qed.

Lemma fire_connected sg s :
  slots s = timer_slots ->
  fire sg s =
  match timer_step (stage_index (sig_slot sg)) (sig_flag sg) (sig_level sg)
                   (sig_now sg) (all_mg_timers s) with
  | Some timers => (set_all_mg_timers timers s, Returned tt)
  | None => (s, Undefined)
  end.
Proof.
  intros Hs. unfold fire, bind, get. rewrite Hs.
  destruct (filter_timer_slots (sig_slot sg)) as [label ->].
  cbn [for_each fst snd]. unfold bind. rewrite create_mg_timer_function_run.
  destruct (timer_step _ _ _ _ _); reflexivity.
Qed.

Lemma for_each_fire_connected sigs : forall s,
  slots s = timer_slots ->
  for_each sigs fire s =
  (set_all_mg_timers (run_signals sigs (all_mg_timers s)).1 s,
   if (run_signals sigs (all_mg_timers s)).2 then Returned tt else Undefined).
Proof.
  induction sigs as [|sg sigs IH]; intros s Hs.
  - destruct s; reflexivity.
  - cbn [for_each run_signals]. unfold bind. rewrite (fire_connected sg s Hs).
    destruct (timer_step _ _ _ _ _) as [t1|].
    + rewrite IH by exact Hs. reflexivity.
    + destruct s; reflexivity.
Qed.

Lemma initialize_coarse_solver_supported s :
  coarse_supported = true ->
  initialize_coarse_solver env mg_data min_level s =
  (set_trace (trace s ++ coarse_events) s, Returned tt).
Proof.
  unfold coarse_supported, initialize_coarse_solver, coarse_events. cbv zeta.
  destruct (String.eqb _ "cg"); [reflexivity|].
  destruct (String.eqb _ "cg_with_chebyshev").
  { intros _. unfold bind, call, set_trace; simpl. rewrite <- !app_assoc. reflexivity. }
  destruct (String.eqb _ "cg_with_amg"); [|discriminate].
  destruct (with_trilinos env); [|discriminate].
  intros _. unfold bind, call, set_trace; simpl. rewrite <- !app_assoc. reflexivity.
Qed.

Lemma after_estimation_logged s :
  slots s = [] -> coarse_supported = true -> log_levels mg_data = true ->
  after_estimation s =
  if (run_signals (cycle_signals env) (zero_timers min_level max_level)).2
  then dump_table env mg_data filename_mg_level (solved_state s)
  else (solved_state s, Undefined).
Proof.
  intros Hs Hc Hlog. unfold after_estimation.
  erewrite bind_returned by reflexivity.
  erewrite bind_returned by (apply initialize_coarse_solver_supported; exact Hc).
  erewrite bind_returned by reflexivity.
  erewrite bind_returned by reflexivity.
  rewrite Hlog. unfold when.
  erewrite bind_returned by reflexivity.
  erewrite bind_returned by reflexivity.
  unfold bind at 1. unfold solve.
  erewrite bind_returned by reflexivity.
  rewrite for_each_fire_connected by (cbn; rewrite Hs; reflexivity).
  unfold solved_state. destruct s as [sd mins maxs tm sl tb tr]; cbn in *. subst sl.
  fold (zero_timers min_level max_level).
  replace (((((tr ++ [EvMgSmootherInitialize sd]) ++ coarse_events) ++ [EvMultigrid]) ++
            [EvPreconditionMG]) ++ [EvSolve])
    with (tr ++ EvMgSmootherInitialize sd ::
            coarse_events ++ [EvMultigrid; EvPreconditionMG; EvSolve]).
  - destruct (run_signals _ _) as [t [|]]; reflexivity.
  - rewrite <- !app_assoc. reflexivity.
Qed.

Lemma dump_table_all_mg_timers :
  keeps (same all_mg_timers) (dump_table env mg_data filename_mg_level).
Proof. unfold_phases. keeps_auto same_atom. Qed.

Lemma slots_estimate_all_levels_result : slots estimate_all_levels_result.1 = [].
Proof.
  unfold estimate_all_levels_result.
  destruct (estimate_eigenvalues mg_data); [|reflexivity].
  destruct (rest_estimated_state (levels (min_level + 1) max_level) s_vectors)
    as (_ & H2 & _).
  destruct (summary_max _); cbn [fst slots set_trace]; exact H2.
Qed.

Lemma estimate_all_levels_result_defined :
  estimate_all_levels_result.2 = Returned tt -> summary_defined.
Proof.
  unfold summary_defined, estimate_all_levels_result. intros Hret Hest.
  rewrite Hest in Hret.
  destruct (decide (1 <= max_level)) as [|Hsmall]; [assumption|].
  rewrite summary_max_None in Hret; [discriminate|].
  rewrite length_max_eigenvalues_s_estimated. lia.
Qed.

(** What a returning run with logging tells about its inputs, and its
    timer array. *)
Lemma run_logged :
  log_levels mg_data = true ->
  let r := run env mg_data min_level max_level filename_mg_level in
  let timers := run_signals (cycle_signals env) (zero_timers min_level max_level) in
  (Smoother.type (smoother mg_data) = "chebyshev" ->
   coarse_supported = true -> summary_defined ->
   all_mg_timers r.1 = timers.1 /\ (timers.2 = false -> r.2 = Undefined)) /\
  (r.2 = Returned tt ->
   Smoother.type (smoother mg_data) = "chebyshev" /\
   coarse_supported = true /\ summary_defined /\ timers.2 = true).
Proof.
  intros Hlog r timers.
  assert (Hfwd : Smoother.type (smoother mg_data) = "chebyshev" ->
                 coarse_supported = true -> summary_defined ->
                 all_mg_timers r.1 = timers.1 /\ (timers.2 = false -> r.2 = Undefined)).
  { intros Hty Hc Hdef. subst r timers. rewrite (run_chebyshev Hty).
    pose proof (estimate_all_levels_result_returned Hdef) as Hret.
    pose proof slots_estimate_all_levels_result as Hs.
    destruct estimate_all_levels_result as [s o]. cbn [fst snd] in Hret, Hs. subst o.
    rewrite (after_estimation_logged s Hs Hc Hlog).
    destruct ((run_signals _ _).2); cbn [fst snd].
    - rewrite (dump_table_all_mg_timers (solved_state s)).
      split; [reflexivity|discriminate].
    - split; [reflexivity|auto]. }
  split; [exact Hfwd|]. intros Hret.
  destruct (decide (Smoother.type (smoother mg_data) = "chebyshev")) as [Hty|Hty].
  2:{ subst r. rewrite (run_not_chebyshev Hty) in Hret. discriminate. }
  destruct coarse_supported eqn:Hc.
  2:{ destruct (run_unsupported Hty Hc) as (Hnot & _). destruct (Hnot tt). exact Hret. }
  assert (Hdef : summary_defined).
  { apply estimate_all_levels_result_defined. subst r.
    rewrite (run_chebyshev Hty) in Hret.
    destruct estimate_all_levels_result as [s [[]|e|]]; cbn in *;
      [reflexivity|discriminate|discriminate]. }
  destruct (Hfwd Hty eq_refl Hdef) as [_ Hundef].
  repeat split; try assumption.
  destruct (timers.2); [reflexivity|]. rewrite Hundef in Hret by reflexivity.
  discriminate.
Qed.

(** *** Lines 255-277 *)

Lemma add_row_run level s :
  seven_wide (all_mg_timers s) ->
  level < length (all_mg_timers s) ->
  level < length (min_eigenvalues s) ->
  level < length (max_eigenvalues s) ->
  add_row mg_data level s =
  (set_table (table s ++ [table_row_of s level]) s, Returned tt).
Proof.
  intros Hwide Hlevel Hmin Hmax.
  destruct (lookup_lt_is_Some_2 _ _ Hlevel) as [row Hrow].
  destruct (lookup_lt_is_Some_2 _ _ Hmin) as [mn Hmn].
  destruct (lookup_lt_is_Some_2 _ _ Hmax) as [mx Hmx].
  assert (Hlen : length row = 7).
  { unfold seven_wide in Hwide. rewrite Forall_forall in Hwide.
    apply Hwide. eapply list_elem_of_lookup_2. exact Hrow. }
  destruct row as [|c0 [|c1 [|c2 [|c3 [|c4 [|c5 [|c6 [|c7 row]]]]]]]]; try discriminate.
  unfold add_row, table_row_of, accumulator_at, cell_at, bind, get, deref, ret, modify.
  rewrite Hrow. simpl.
  destruct (estimate_eigenvalues mg_data); simpl; rewrite ?Hmn, ?Hmx; reflexivity.
Qed.

Lemma for_each_add_row l : forall s,
  seven_wide (all_mg_timers s) ->
  Forall (fun level => level < length (all_mg_timers s) /\
                       level < length (min_eigenvalues s) /\
                       level < length (max_eigenvalues s)) l ->
  for_each l (add_row mg_data) s =
  (set_table (table s ++ map (table_row_of s) l) s, Returned tt).
Proof.
  induction l as [|level l IH]; intros s Hwide Hl.
  - cbn [for_each map]. rewrite app_nil_r. destruct s; reflexivity.
  - apply Forall_cons in Hl. destruct Hl as [(H1 & H2 & H3) Hl].
    cbn [for_each]. erewrite bind_returned by (apply add_row_run; assumption).
    rewrite IH by assumption.
    cbn [set_table table map]. rewrite <- app_assoc. reflexivity.
Qed.

Lemma dump_table_run s :
  log_levels mg_data = true -> this_mpi_process env = 0 ->
  table s = [] ->
  seven_wide (all_mg_timers s) ->
  length (all_mg_timers s) <= length (min_eigenvalues s) ->
  length (all_mg_timers s) <= length (max_eigenvalues s) ->
  dump_table env mg_data filename_mg_level s =
  (set_trace (trace s ++ [EvWriteText filename_mg_level (table_rows s)])
     (set_table (table_rows s) s),
   Returned tt).
Proof.
  intros Hlog Hrank Htab Hwide Hmin Hmax.
  unfold dump_table. rewrite Hlog, Hrank. cbn [andb Nat.eqb when].
  erewrite bind_returned by reflexivity.
  erewrite bind_returned.
  2:{ apply for_each_add_row; [exact Hwide|].
      apply Forall_forall. intros level Hin. apply elem_of_seq in Hin. lia. }
  rewrite Htab. reflexivity.
Qed.

Lemma max_ev_estimate_events l :
  logged_max_ev (concat (map estimate_events l)) = [] /\
  recorded_max_ev (concat (map estimate_events l)) = [].
Proof.
  induction l as [|l0 l IH]; [auto|].
  cbn [map concat]. rewrite logged_max_ev_app, recorded_max_ev_app.
  destruct IH as [-> ->]. auto.
Qed.

Lemma length_eigenvalues_estimate_all_levels_result :
  length (min_eigenvalues estimate_all_levels_result.1) = max_level + 1 /\
  length (max_eigenvalues estimate_all_levels_result.1) = max_level + 1.
Proof.
  unfold estimate_all_levels_result.
  destruct (estimate_eigenvalues mg_data).
  - destruct (summary_max _); cbn [fst set_trace min_eigenvalues max_eigenvalues];
      rewrite length_min_eigenvalues_s_estimated, length_max_eigenvalues_s_estimated; auto.
  - cbn. rewrite length_replicate. auto.
Qed.

Lemma table_estimate_all_levels_result : table estimate_all_levels_result.1 = [].
Proof.
  unfold estimate_all_levels_result.
  destruct (estimate_eigenvalues mg_data); [|reflexivity].
  destruct (rest_estimated_state (levels (min_level + 1) max_level) s_vectors)
    as (_ & _ & H3).
  destruct (summary_max _); cbn [fst table set_trace]; exact H3.
Qed.

(** The run of a supported configuration with logging, on process 0, when
    every callback finds its row. *)
Lemma run_logged_rank_0 :
  Smoother.type (smoother mg_data) = "chebyshev" ->
  coarse_supported = true -> summary_defined ->
  log_levels mg_data = true -> this_mpi_process env = 0 ->
  signals_in_range ->
  let solved := solved_state estimate_all_levels_result.1 in
  run env mg_data min_level max_level filename_mg_level =
  (set_trace (trace solved ++ [EvWriteText filename_mg_level (table_rows solved)])
     (set_table (table_rows solved) solved),
   Returned tt).
Proof.
  intros Hty Hc Hdef Hlog Hrank Hrange solved. subst solved.
  rewrite (run_chebyshev Hty).
  pose proof (estimate_all_levels_result_returned Hdef) as Hret.
  pose proof slots_estimate_all_levels_result as Hs.
  pose proof table_estimate_all_levels_result as Htab.
  destruct length_eigenvalues_estimate_all_levels_result as [Hlmin Hlmax].
  destruct estimate_all_levels_result as [s o]. cbn [fst snd] in *. subst o.
  rewrite (after_estimation_logged s Hs Hc Hlog).
  destruct (run_signals_in_range (cycle_signals env) (zero_timers min_level max_level)
              (seven_wide_zero_timers _ _)) as (Hok & Hwide & Hlen).
  { unfold signals_in_range in Hrange.
    rewrite length_zero_timers. eapply Forall_impl; [exact Hrange|].
    intros sg Hsg. simpl in Hsg. lia. }
  rewrite Hok. rewrite length_zero_timers in Hlen.
  apply dump_table_run; try assumption; unfold solved_state;
    cbn [all_mg_timers min_eigenvalues max_eigenvalues]; lia.
Qed.

(** With [min_level = 0] the vector [max_eigenvalues] holds, after its
    index 0, the estimates of the levels [1 .. max_level] in order. *)
Lemma max_eigenvalues_s_estimated_min_level_0 :
  min_level = 0 ->
  max_eigenvalues s_estimated =
  signaling_nan ::
  map (fun level => max_eigenvalue_estimate (estimated level)) (levels 1 max_level).
Proof.
  intros Hmin. apply list_eq. intros i.
  unfold s_estimated. rewrite max_eigenvalues_estimated_state. rewrite Hmin.
  cbn [s_vectors max_eigenvalues].
  destruct (decide (i < max_level + 1)) as [Hi|Hi].
  - rewrite lookup_overwrite_indices by (rewrite length_replicate; exact Hi).
    destruct i as [|j].
    + rewrite decide_False by (rewrite elem_of_levels; lia).
      rewrite lookup_replicate_2 by lia. reflexivity.
    + rewrite decide_True by (rewrite elem_of_levels; lia).
      rewrite map_fmap, lookup_cons, list_lookup_fmap.
      unfold levels. rewrite lookup_seq_lt by lia. reflexivity.
  - rewrite lookup_ge_None_2.
    + symmetry. apply lookup_ge_None_2. cbn [length].
      rewrite length_map. unfold levels. rewrite length_seq. lia.
    + rewrite length_overwrite_indices, length_replicate. lia.
Qed.

Lemma dump_table_skip s :
  this_mpi_process env <> 0 ->
  dump_table env mg_data filename_mg_level s = (s, Returned tt).
Proof.
  intros Hrank. unfold dump_table.
  apply Nat.eqb_neq in Hrank. rewrite Hrank, andb_false_r. reflexivity.
Qed.

(** A supported configuration with logging returns when every callback
    finds its row. *)
Lemma run_logged_returns :
  Smoother.type (smoother mg_data) = "chebyshev" ->
  coarse_supported = true -> summary_defined ->
  log_levels mg_data = true ->
  signals_in_range ->
  (run env mg_data min_level max_level filename_mg_level).2 = Returned tt.
Proof.
  intros Hty Hc Hdef Hlog Hrange.
  destruct (decide (this_mpi_process env = 0)) as [Hrank|Hrank].
  - rewrite (run_logged_rank_0 Hty Hc Hdef Hlog Hrank Hrange). reflexivity.
  - rewrite (run_chebyshev Hty).
    pose proof (estimate_all_levels_result_returned Hdef) as Hret.
    pose proof slots_estimate_all_levels_result as Hs.
    destruct estimate_all_levels_result as [s o]. cbn [fst snd] in *. subst o.
    rewrite (after_estimation_logged s Hs Hc Hlog).
    destruct (run_signals_in_range (cycle_signals env) (zero_timers min_level max_level)
                (seven_wide_zero_timers _ _)) as (Hok & _).
    { unfold signals_in_range in Hrange.
      rewrite length_zero_timers. eapply Forall_impl; [exact Hrange|].
      intros sg Hsg. simpl in Hsg. lia. }
    rewrite Hok, (dump_table_skip _ Hrank). reflexivity.
Qed.

(** *** Runs that return *)

Lemma run_returned_inv :
  (run env mg_data min_level max_level filename_mg_level).2 = Returned tt ->
  Smoother.type (smoother mg_data) = "chebyshev" /\
  coarse_supported = true /\ summary_defined.
Proof.
  intros Hret.
  destruct (decide (Smoother.type (smoother mg_data) = "chebyshev")) as [Hty|Hty].
  2:{ rewrite (run_not_chebyshev Hty) in Hret. discriminate. }
  destruct coarse_supported eqn:Hc.
  2:{ destruct (run_unsupported Hty Hc) as (Hnot & _). destruct (Hnot tt). exact Hret. }
  repeat split; try assumption.
  apply estimate_all_levels_result_defined.
  rewrite (run_chebyshev Hty) in Hret.
  destruct estimate_all_levels_result as [s [[]|e|]]; cbn in *;
    [reflexivity|discriminate|discriminate].
Qed.

Lemma run_signals_ok_in_range sigs : forall t,
  seven_wide t -> (run_signals sigs t).2 = true ->
  Forall (fun sg => sig_level sg < length t) sigs.
Proof.
  induction sigs as [|sg sigs IH]; intros t Hwide Hok; [constructor|].
  cbn [run_signals] in Hok.
  destruct (decide (sig_level sg < length t)) as [Hlevel|Hlevel].
  - destruct (timer_step_in_range (stage_index (sig_slot sg)) (sig_flag sg)
                (sig_level sg) (sig_now sg) t Hwide Hlevel (stage_index_lt _))
      as (t' & Hstep & Hwide' & Hlen').
    rewrite Hstep in Hok. constructor; [exact Hlevel|].
    rewrite <- Hlen'. apply IH; assumption.
  - unfold timer_step in Hok.
    rewrite (lookup_ge_None_2 t (sig_level sg)) in Hok by lia. discriminate.
Qed.

Lemma after_estimation_unlogged s :
  slots s = [] -> coarse_supported = true -> log_levels mg_data = false ->
  after_estimation s = (unlogged_solved_state s, Returned tt).
Proof.
  intros Hs Hc Hlog. unfold after_estimation.
  erewrite bind_returned by reflexivity.
  erewrite bind_returned by (apply initialize_coarse_solver_supported; exact Hc).
  erewrite bind_returned by reflexivity.
  erewrite bind_returned by reflexivity.
  rewrite Hlog. unfold when.
  erewrite bind_returned by reflexivity.
  erewrite bind_returned by reflexivity.
  erewrite bind_returned by (apply solve_unconnected; cbn; exact Hs).
  unfold dump_table. rewrite Hlog. cbn [andb when ret].
  unfold unlogged_solved_state. destruct s as [sd mins maxs tm sl tb tr]; cbn in *.
  subst sl. fold (zero_timers min_level max_level).
  rewrite <- !app_assoc. reflexivity.
Qed.

(** The run of a supported configuration without logging. *)
Lemma run_unlogged :
  Smoother.type (smoother mg_data) = "chebyshev" ->
  coarse_supported = true -> summary_defined ->
  log_levels mg_data = false ->
  run env mg_data min_level max_level filename_mg_level =
  (unlogged_solved_state estimate_all_levels_result.1, Returned tt).
Proof.
  intros Hty Hc Hdef Hlog. rewrite (run_chebyshev Hty).
  pose proof (estimate_all_levels_result_returned Hdef) as Hret.
  pose proof slots_estimate_all_levels_result as Hs.
  destruct estimate_all_levels_result as [s o]. cbn [fst snd] in *. subst o.
  apply after_estimation_unlogged; assumption.
Qed.

(** The run of a supported configuration with logging, on another process
    than 0, when every callback finds its row. *)
Lemma run_logged_other_rank :
  Smoother.type (smoother mg_data) = "chebyshev" ->
  coarse_supported = true -> summary_defined ->
  log_levels mg_data = true -> this_mpi_process env <> 0 ->
  signals_in_range ->
  run env mg_data min_level max_level filename_mg_level =
  (solved_state estimate_all_levels_result.1, Returned tt).
Proof.
  intros Hty Hc Hdef Hlog Hrank Hrange. rewrite (run_chebyshev Hty).
  pose proof (estimate_all_levels_result_returned Hdef) as Hret.
  pose proof slots_estimate_all_levels_result as Hs.
  destruct estimate_all_levels_result as [s o]. cbn [fst snd] in *. subst o.
  rewrite (after_estimation_logged s Hs Hc Hlog).
  destruct (run_signals_in_range (cycle_signals env) (zero_timers min_level max_level)
              (seven_wide_zero_timers _ _)) as (Hok & _).
  { unfold signals_in_range in Hrange.
    rewrite length_zero_timers. eapply Forall_impl; [exact Hrange|].
    intros sg Hsg. simpl in Hsg. lia. }
  rewrite Hok. apply dump_table_skip. exact Hrank.
Qed.

(** A run with logging that returns had every signal in range. *)
Lemma run_logged_returned_in_range :
  log_levels mg_data = true ->
  (run env mg_data min_level max_level filename_mg_level).2 = Returned tt ->
  signals_in_range.
Proof.
  intros Hlog Hret. destruct (run_logged Hlog) as [_ Hinv].
  destruct (Hinv Hret) as (_ & _ & _ & Hok).
  apply run_signals_ok_in_range in Hok; [|apply seven_wide_zero_timers].
  rewrite length_zero_timers in Hok. unfold signals_in_range.
  eapply Forall_impl; [exact Hok|]. intros sg Hsg. simpl in Hsg. lia.
Qed.

Lemma app_cons_app_assoc {A} (e : list A) x c l w :
  (e ++ x :: c ++ l) ++ w = e ++ x :: c ++ l ++ w.
Proof. rewrite <- app_assoc, <- app_comm_cons, <- app_assoc. reflexivity. Qed.

(** The trace of a run that returns. *)
Lemma run_returned_trace :
  let r := run env mg_data min_level max_level filename_mg_level in
  r.2 = Returned tt ->
  trace r.1 =
    estimation_trace ++
    EvMgSmootherInitialize (smoother_data r.1) ::
    coarse_events ++
    [EvMultigrid; EvPreconditionMG; EvSolve] ++
    (if log_levels mg_data && Nat.eqb (this_mpi_process env) 0
     then [EvWriteText filename_mg_level (table r.1)] else []).
Proof.
  intros r Hret. subst r.
  destruct (run_returned_inv Hret) as (Hty & Hc & Hdef).
  pose proof trace_estimate_all_levels_result as Htr.
  destruct (log_levels mg_data) eqn:Hlog.
  - pose proof (run_logged_returned_in_range Hlog Hret) as Hrange.
    destruct (decide (this_mpi_process env = 0)) as [Hrank|Hrank].
    + rewrite (run_logged_rank_0 Hty Hc Hdef Hlog Hrank Hrange).
      rewrite Hrank. cbn [fst andb Nat.eqb trace set_trace set_table solved_state
                          smoother_data table].
      rewrite Htr. apply app_cons_app_assoc.
    + rewrite (run_logged_other_rank Hty Hc Hdef Hlog Hrank Hrange).
      apply Nat.eqb_neq in Hrank. rewrite Hrank.
      cbn [fst andb trace solved_state smoother_data].
      rewrite Htr, app_nil_r. reflexivity.
  - rewrite (run_unlogged Hty Hc Hdef Hlog).
    cbn [fst andb trace unlogged_solved_state smoother_data].
    rewrite Htr, app_nil_r. reflexivity.
Qed.

Lemma coarse_grid_solvers_app t1 t2 :
  coarse_grid_solvers (t1 ++ t2) = coarse_grid_solvers t1 ++ coarse_grid_solvers t2.
Proof. apply omap_app. Qed.

Lemma coarse_grid_solvers_setup t :
  Forall setup_event t -> coarse_grid_solvers t = [].
Proof.
  induction 1 as [|e t He _ IH]; [reflexivity|].
  destruct e; simpl in He; try contradiction; exact IH.
Qed.

Lemma timer_step_is_Some i flag level now t c :
  cell_at t level i = Some c -> is_Some (timer_step i flag level now t).
Proof.
  unfold cell_at, timer_step.
  destruct (t !! level) as [row|]; [|discriminate].
  intros ->. eauto.
Qed.

(** Pairs of a start and a stop of one cell add up in its accumulator and
    leave the other cells alone. *)
Lemma run_signals_intervals slot level intervals : forall t c,
  Forall measurable intervals ->
  cell_at t level (stage_index slot) = Some c ->
  exists t' start,
    run_signals (interval_signals slot level intervals) t = (t', true) /\
    cell_at t' level (stage_index slot) = Some (total_seconds c.1 intervals, start) /\
    forall L k, ~ (L = level /\ k = stage_index slot) -> cell_at t' L k = cell_at t L k.
Proof.
  induction intervals as [|[t1 t2] intervals IH]; intros t c Hordered Hc.
  - exists t, c.2. split; [reflexivity|]. split; [|reflexivity].
    rewrite Hc. destruct c; reflexivity.
  - apply Forall_cons in Hordered. destruct Hordered as [Ht12 Hordered].
    unfold measurable in Ht12. cbn [fst snd] in Ht12.
    cbn [interval_signals flat_map app run_signals sig_slot sig_flag sig_level sig_now
         fst snd].
    destruct (timer_step_is_Some (stage_index slot) true level t1 t c Hc) as [ta Hta].
    rewrite Hta.
    destruct (timer_step_cell _ _ _ _ _ _ Hta) as (c0 & Hc0 & Hnew_a).
    rewrite Hc in Hc0. injection Hc0 as <-.
    assert (Hca : cell_at ta level (stage_index slot) = Some (c.1, t1)).
    { rewrite Hnew_a. rewrite decide_True by auto. reflexivity. }
    destruct (timer_step_is_Some (stage_index slot) false level t2 ta _ Hca) as [tb Htb].
    rewrite Htb.
    destruct (timer_step_cell _ _ _ _ _ _ Htb) as (c1 & Hc1 & Hnew_b).
    rewrite Hca in Hc1. injection Hc1 as <-.
    assert (Hcb : cell_at tb level (stage_index slot) =
                  Some ((c.1 + of_uint63 (Uint63.of_Z (t2 - t1)) / 1000000000)%float, t1)).
    { rewrite Hnew_b. rewrite decide_True by auto. cbn [fst snd].
      rewrite seconds_of_count_eq by lia. reflexivity. }
    destruct (IH tb _ Hordered Hcb) as (t' & start & Hrun & Hcell & Hother).
    exists t', start. split; [exact Hrun|]. split; [exact Hcell|].
    intros L k Hne. rewrite (Hother L k Hne), Hnew_b, decide_False by exact Hne.
    rewrite Hnew_a, decide_False by exact Hne. reflexivity.
Qed.

Lemma max_element_from_NaN l : max_element_from NaN l = NaN.
Proof.
  induction l as [|x l IH]; [reflexivity|]. cbn [max_element_from].
  replace (dlt NaN x) with false by (symmetry; apply float_ltb_nan). exact IH.
Qed.

(** The eigenvalue vectors after the loop of lines 104-119, element by
    element. *)
Lemma lookup_eigenvalues_s_estimated k :
  k <= max_level ->
  min_eigenvalues s_estimated !! k =
    Some (if decide (min_level < k) then min_eigenvalue_estimate (estimated k)
          else signaling_nan) /\
  max_eigenvalues s_estimated !! k =
    Some (if decide (min_level < k) then max_eigenvalue_estimate (estimated k)
          else signaling_nan).
Proof.
  intros Hk. unfold s_estimated.
  rewrite min_eigenvalues_estimated_state, max_eigenvalues_estimated_state.
  cbn [s_vectors min_eigenvalues max_eigenvalues].
  rewrite !lookup_overwrite_indices by (rewrite length_replicate; lia).
  destruct (decide (min_level < k)).
  - rewrite !decide_True by (rewrite elem_of_levels; lia). auto.
  - rewrite !decide_False by (rewrite elem_of_levels; lia).
    rewrite lookup_replicate_2 by lia. auto.
Qed.

(** The eigenvalue vectors at the end of lines 100-125, element by
    element. *)
Lemma lookup_eigenvalues_estimate_all_levels_result k :
  k <= max_level ->
  min_eigenvalues estimate_all_levels_result.1 !! k =
    Some (if estimate_eigenvalues mg_data
          then if decide (min_level < k) then min_eigenvalue_estimate (estimated k)
               else signaling_nan
          else signaling_nan) /\
  max_eigenvalues estimate_all_levels_result.1 !! k =
    Some (if estimate_eigenvalues mg_data
          then if decide (min_level < k) then max_eigenvalue_estimate (estimated k)
               else signaling_nan
          else signaling_nan).
Proof.
  intros Hk. destruct (estimate_eigenvalues mg_data) eqn:Hest.
  - destruct (eigenvalues_estimate_all_levels_result Hest) as (-> & -> & _).
    apply lookup_eigenvalues_s_estimated. exact Hk.
  - unfold estimate_all_levels_result. rewrite Hest.
    cbn [fst s_vectors min_eigenvalues max_eigenvalues].
    rewrite lookup_replicate_2 by lia. auto.
Qed.

(** When the hierarchy starts above level 0, the range of line 122 starts
    with a NaN that stays the largest element. *)
Lemma summary_max_min_level_positive :
  1 <= min_level -> 1 <= max_level ->
  summary_max (max_eigenvalues s_estimated) = Some NaN.
Proof.
  intros Hmin Hmax.
  destruct (lookup_eigenvalues_s_estimated 1 Hmax) as [_ H1].
  rewrite decide_False in H1 by lia.
  destruct (max_eigenvalues s_estimated) as [|x0 [|x1 l]]; [discriminate..|].
  cbn in H1. injection H1 as ->. cbn. rewrite max_element_from_NaN. reflexivity.
Qed.

Lemma forallb_Forall {A} (f : A -> bool) l :
  forallb f l = true <-> Forall (fun x => f x = true) l.
Proof.
  induction l as [|x l IH]; cbn.
  - split; [constructor|reflexivity].
  - rewrite andb_true_iff, IH, Forall_cons. reflexivity.
Qed.

(** How a run ends, from its inputs. *)
Lemma run_outcome :
  (run env mg_data min_level max_level filename_mg_level).2 =
  if negb (String.eqb (Smoother.type (smoother mg_data)) "chebyshev")
  then Threw ExcNotImplemented
  else if estimate_eigenvalues mg_data && Nat.eqb max_level 0 then Undefined
  else if negb coarse_supported then Threw ExcNotImplemented
  else if log_levels mg_data &&
          negb (forallb (fun sg => sig_level sg <=? max_level - min_level)
                        (cycle_signals env))
  then Undefined
  else Returned tt.
Proof.
  destruct (String.eqb_spec (Smoother.type (smoother mg_data)) "chebyshev")
    as [Hty|Hty]; cbn [negb].
  2:{ rewrite (run_not_chebyshev Hty). reflexivity. }
  destruct (estimate_eigenvalues mg_data && Nat.eqb max_level 0) eqn:Hsingle.
  { apply andb_true_iff in Hsingle. destruct Hsingle as [Hest H0].
    apply Nat.eqb_eq in H0.
    rewrite (run_chebyshev Hty). unfold estimate_all_levels_result. rewrite Hest.
    rewrite summary_max_None by (rewrite length_max_eigenvalues_s_estimated; lia).
    reflexivity. }
  assert (Hdef : summary_defined).
  { intros Hest. rewrite Hest in Hsingle. cbn in Hsingle.
    apply Nat.eqb_neq in Hsingle. lia. }
  destruct coarse_supported eqn:Hc; cbn [negb].
  2:{ destruct (run_unsupported Hty Hc) as (_ & _ & _ & _ & _ & H).
      destruct (H Hdef) as [-> _]. reflexivity. }
  destruct (log_levels mg_data) eqn:Hlog; cbn [andb].
  2:{ rewrite (run_unlogged Hty Hc Hdef Hlog). reflexivity. }
  destruct (forallb _ (cycle_signals env)) eqn:Hall; cbn [negb].
  - apply run_logged_returns; try assumption.
    unfold signals_in_range. apply forallb_Forall in Hall.
    eapply Forall_impl; [exact Hall|]. intros sg Hsg. cbn in Hsg.
    apply Nat.leb_le in Hsg. exact Hsg.
  - destruct (run_logged Hlog) as [Hfwd _].
    destruct (Hfwd Hty Hc Hdef) as [_ Hundef]. apply Hundef.
    destruct (run_signals (cycle_signals env) (zero_timers min_level max_level)).2
      eqn:Hok; [|reflexivity].
    apply run_signals_ok_in_range in Hok; [|apply seven_wide_zero_timers].
    rewrite length_zero_timers in Hok.
    assert (Hall' : forallb (fun sg => sig_level sg <=? max_level - min_level)
                      (cycle_signals env) = true).
    { apply forallb_Forall. eapply Forall_impl; [exact Hok|].
      intros sg Hsg. cbn in Hsg. apply Nat.leb_le. lia. }
    congruence.
Qed.

(** The smoother configurations at the end of lines 100-125, level by
    level. *)
Lemma lookup_smoother_data_estimate_all_levels_result level :
  smoother_data estimate_all_levels_result.1 !! level =
  if decide (min_level <= level <= max_level)
  then Some (if estimate_eigenvalues mg_data && bool_decide (min_level < level)
             then use_estimate (estimated level) (configured level)
             else configured level)
  else None.
Proof.
  destruct (estimate_eigenvalues mg_data) eqn:Hest; cbn [andb].
  - destruct (eigenvalues_estimate_all_levels_result Hest) as (_ & _ & ->).
    unfold s_estimated. rewrite smoother_data_estimated_state.
    cbn [s_vectors smoother_data].
    rewrite lookup_overwrite_levels, lookup_configured_smoother_data.
    destruct (decide (min_level < level)) as [Hlt|Hge].
    + rewrite bool_decide_eq_true_2 by exact Hlt.
      destruct (decide (min_level <= level <= max_level)) as [Hin|Hout].
      * rewrite decide_True by (rewrite elem_of_levels; lia). reflexivity.
      * rewrite decide_False by (rewrite elem_of_levels; lia). reflexivity.
    + rewrite bool_decide_eq_false_2 by exact Hge.
      rewrite decide_False by (rewrite elem_of_levels; lia). reflexivity.
  - unfold estimate_all_levels_result. rewrite Hest.
    cbn [fst s_vectors smoother_data].
    apply lookup_configured_smoother_data.
Qed.

End Reasoning.

(** * Hierarchies that start at level 0

    With [min_level = 0] a level is its own offset into every vector of
    [mg_solve]: the timer callbacks stay in range, the summary value is the
    maximum of the estimates, and the rows of the table are those of the
    levels. *)

(** With [min_level = 0] and signals fired at levels up to [max_level],
    no timer callback leaves the timer array: the run returns. *)
Theorem timer_callbacks_in_bounds_when_min_level_0
    env mg_data max_level filename_mg_level :
  Smoother.type (smoother mg_data) = "chebyshev" ->
  coarse_supported env mg_data = true ->
  (estimate_eigenvalues mg_data = true -> 1 <= max_level) ->
  log_levels mg_data = true ->
  Forall (fun sg => sig_level sg <= max_level) (cycle_signals env) ->
  (run env mg_data 0 max_level filename_mg_level).2 = Returned tt.
Proof.
  intros Hty Hc Hdef Hlog Hrange.
  apply run_logged_returns; try assumption.
  unfold signals_in_range. rewrite Nat.sub_0_r. exact Hrange.
Qed.

(** With [min_level = 0] the value logged and recorded under "max_ev" is
    the first largest of the maximum-eigenvalue estimates of the levels
    [1 .. max_level]; when these are all finite it is one of them and no
    estimate is greater. *)
Theorem max_ev_is_maximum_when_min_level_0
    env mg_data max_level filename_mg_level :
  Smoother.type (smoother mg_data) = "chebyshev" ->
  estimate_eigenvalues mg_data = true ->
  1 <= max_level ->
  let r := run env mg_data 0 max_level filename_mg_level in
  let estimates :=
    map (fun level =>
           max_eigenvalue_estimate
             (estimate env level (configure mg_data level (default_additional_data env))))
        (levels 1 max_level) in
  exists m,
    max_element estimates = Some m /\
    logged_max_ev (trace r.1) = [m] /\
    recorded_max_ev (trace r.1) = [m] /\
    (Forall is_finite estimates -> m ∈ estimates /\ Forall (fun x => dle x m) estimates).
Proof.
  intros Hty Hest Hmax r estimates.
  destruct (run_chebyshev_frame env mg_data 0 max_level filename_mg_level Hty)
    as ((t & Ht & HF) & _).
  fold r in Ht.
  pose proof (max_eigenvalues_s_estimated_min_level_0 env mg_data 0 max_level eq_refl)
    as Hmaxs.
  fold (configured env mg_data) in estimates.
  change (map _ (levels 1 max_level)) with estimates in Hmaxs.
  assert (Hsome : is_Some (max_element estimates)).
  { subst estimates. unfold levels.
    replace (S max_level - 1) with (S (max_level - 1)) by lia.
    cbn [seq map max_element]. eauto. }
  destruct Hsome as [m Hm]. exists m. split; [exact Hm|].
  rewrite Ht, trace_estimate_all_levels_result. unfold estimation_trace.
  rewrite Hest. unfold summary_max. rewrite Hmaxs, Hm.
  destruct (max_ev_tail t HF) as [Hl Hr].
  destruct (max_ev_estimate_events env mg_data (levels (0 + 1) max_level)) as [Hl' Hr'].
  split; [|split].
  - rewrite logged_max_ev_app, Hl, app_nil_r.
    change (logged_max_ev (EvMgMatrix :: ?l)) with (logged_max_ev l).
    rewrite logged_max_ev_app, Hl'. reflexivity.
  - rewrite recorded_max_ev_app, Hr, app_nil_r.
    change (recorded_max_ev (EvMgMatrix :: ?l)) with (recorded_max_ev l).
    rewrite recorded_max_ev_app, Hr'. reflexivity.
  - intros Hfin. apply max_element_spec; assumption.
Qed.

(** With [min_level = 0], on process 0, the table has one row per level
    [0 .. max_level]; the row of a level carries the level, the seven
    accumulators of that level and the estimates computed for that level
    (the NaN sentinel for level 0). *)
Theorem table_rows_when_min_level_0
    env mg_data max_level filename_mg_level :
  Smoother.type (smoother mg_data) = "chebyshev" ->
  coarse_supported env mg_data = true ->
  log_levels mg_data = true ->
  estimate_eigenvalues mg_data = true ->
  this_mpi_process env = 0 ->
  1 <= max_level ->
  Forall (fun sg => sig_level sg <= max_level) (cycle_signals env) ->
  let r := run env mg_data 0 max_level filename_mg_level in
  let evs level :=
    estimate env level (configure mg_data level (default_additional_data env)) in
  r.2 = Returned tt /\
  exists rows,
    last (trace r.1) = Some (EvWriteText filename_mg_level rows) /\
    length rows = max_level + 1 /\
    forall level, level <= max_level ->
      exists row,
        rows !! level = Some row /\
        row_level row = level /\
        accumulator_at r.1 level 0 = Some (row_pre_smoother_step row) /\
        accumulator_at r.1 level 1 = Some (row_residual_step row) /\
        accumulator_at r.1 level 2 = Some (row_restriction row) /\
        accumulator_at r.1 level 3 = Some (row_coarse_solve row) /\
        accumulator_at r.1 level 4 = Some (row_prolongation row) /\
        accumulator_at r.1 level 5 = Some (row_edge_prolongation row) /\
        accumulator_at r.1 level 6 = Some (row_post_smoother_step row) /\
        row_min_eigenvalue row =
          Some (if decide (level = 0) then signaling_nan
                else min_eigenvalue_estimate (evs level)) /\
        row_max_eigenvalue row =
          Some (if decide (level = 0) then signaling_nan
                else max_eigenvalue_estimate (evs level)).
Proof.
  intros Hty Hc Hlog Hest Hrank Hmax Hrange r evs.
  assert (Hdef : summary_defined mg_data max_level) by (intros _; exact Hmax).
  assert (Hrange' : signals_in_range env 0 max_level).
  { unfold signals_in_range. rewrite Nat.sub_0_r. exact Hrange. }
  pose proof (run_logged_rank_0 env mg_data 0 max_level filename_mg_level
                Hty Hc Hdef Hlog Hrank Hrange') as Hrun.
  cbv zeta in Hrun. fold r in Hrun.
  set (solved := solved_state env mg_data 0 max_level
                   (estimate_all_levels_result env mg_data 0 max_level).1) in *.
  destruct (run_signals_in_range (cycle_signals env) (zero_timers 0 max_level)
              (seven_wide_zero_timers _ _)) as (_ & Hwide & Hlen).
  { rewrite length_zero_timers. eapply Forall_impl; [exact Hrange|].
    intros sg Hsg. simpl in Hsg. lia. }
  rewrite length_zero_timers in Hlen.
  destruct (eigenvalues_estimate_all_levels_result env mg_data 0 max_level Hest)
    as (Emin & Emax & _).
  rewrite Hrun. cbn [fst snd]. split; [reflexivity|].
  exists (table_rows mg_data solved). split; [|split].
  - cbn [trace set_trace]. apply last_snoc.
  - unfold table_rows. rewrite length_map, length_seq.
    subst solved. cbn [solved_state all_mg_timers]. lia.
  - intros level Hlevel. exists (table_row_of mg_data solved level).
    assert (Htimers : all_mg_timers solved =
                      (run_signals (cycle_signals env) (zero_timers 0 max_level)).1)
      by reflexivity.
    split.
    { unfold table_rows. rewrite map_fmap, list_lookup_fmap.
      rewrite lookup_seq_lt by (rewrite Htimers; lia). reflexivity. }
    split; [reflexivity|].
    assert (Hacc : forall i, i < 7 ->
      accumulator_at (set_trace (trace solved ++
                        [EvWriteText filename_mg_level (table_rows mg_data solved)])
                        (set_table (table_rows mg_data solved) solved)) level i =
      Some (default NaN (accumulator_at solved level i))).
    { intros i Hi. unfold accumulator_at. cbn [all_mg_timers set_trace set_table].
      destruct (cell_at_in_range (all_mg_timers solved) level i) as [c Hcell];
        [rewrite Htimers; exact Hwide|rewrite Htimers; lia|exact Hi|].
      rewrite Hcell. reflexivity. }
    do 7 (split; [apply Hacc; lia|]).
    cbn [table_row_of row_min_eigenvalue row_max_eigenvalue]. rewrite Hest.
    assert (Hmn : min_eigenvalues solved = min_eigenvalues (s_estimated env mg_data 0 max_level))
      by (subst solved; cbn [solved_state min_eigenvalues]; exact Emin).
    assert (Hmx : max_eigenvalues solved = max_eigenvalues (s_estimated env mg_data 0 max_level))
      by (subst solved; cbn [solved_state max_eigenvalues]; exact Emax).
    rewrite Hmn, Hmx. unfold s_estimated.
    rewrite min_eigenvalues_estimated_state, max_eigenvalues_estimated_state.
    cbn [s_vectors min_eigenvalues max_eigenvalues].
    rewrite !lookup_overwrite_indices by (rewrite length_replicate; lia).
    destruct (decide (level = 0)) as [->|Hne].
    + rewrite !decide_False by (rewrite elem_of_levels; lia).
      rewrite lookup_replicate_2 by lia. auto.
    + rewrite !decide_True by (rewrite elem_of_levels; lia). auto.
Qed.

(** * The claims *)

(** C6: if [mg_data.smoother.type] is any string other than "chebyshev",
    [mg_solve] throws [ExcNotImplemented] as its first action: no call into
    a collaborator was made (the trace is empty) and no local variable was
    set up (the locals are the initial ones). *)
Theorem mg_solve_rejects_other_smoothers
    env mg_data min_level max_level filename_mg_level :
  Smoother.type (smoother mg_data) <> "chebyshev" ->
  (run env mg_data min_level max_level filename_mg_level).2 = Threw ExcNotImplemented /\
  (run env mg_data min_level max_level filename_mg_level).1 = initial_state /\
  trace (run env mg_data min_level max_level filename_mg_level).1 = [].
Proof.
  intros Hty. rewrite (run_not_chebyshev _ _ _ _ _ Hty). auto.
Qed.

Lemma mg_solve_rejects_other_smoothers_witness :
  let env := sample_environment false 0 [] in
  let mg_data := sample_parameters "jacobi" "cg" true true in
  (run env mg_data 0 2 "mg_level.log").2 = Threw ExcNotImplemented /\
  (run env mg_data 0 2 "mg_level.log").1 = initial_state /\
  trace (run env mg_data 0 2 "mg_level.log").1 = [].
Proof.
  intros env mg_data.
  apply (mg_solve_rejects_other_smoothers env mg_data 0 2 "mg_level.log").
  simpl. discriminate.
Defined.

(** C4: when [estimate_eigenvalues] is true (and the smoother is the
    Chebyshev one, so that the solve starts), the estimation is run exactly
    once for each level of [min_level + 1 .. max_level], in ascending order,
    and never for [min_level], whose entries of [min_eigenvalues] and
    [max_eigenvalues] stay the NaN sentinel. *)
Theorem estimation_once_per_level_above_coarsest
    env mg_data min_level max_level filename_mg_level :
  Smoother.type (smoother mg_data) = "chebyshev" ->
  estimate_eigenvalues mg_data = true ->
  min_level <= max_level ->
  let final := (run env mg_data min_level max_level filename_mg_level).1 in
  estimated_levels (trace final) = levels (min_level + 1) max_level /\
  (min_level ∉ estimated_levels (trace final)) /\
  min_eigenvalues final !! min_level = Some signaling_nan /\
  max_eigenvalues final !! min_level = Some signaling_nan.
Proof.
  intros Hty Hest Hle final. subst final.
  destruct (run_chebyshev_frame env mg_data min_level max_level filename_mg_level Hty)
    as ((t & Ht & HF) & Hmin & Hmax & _).
  destruct (eigenvalues_estimate_all_levels_result env mg_data min_level max_level Hest)
    as (Emin & Emax & _).
  assert (Hlevels :
    estimated_levels
      (trace (run env mg_data min_level max_level filename_mg_level).1) =
    levels (min_level + 1) max_level).
  { rewrite Ht, trace_estimate_all_levels_result. unfold estimation_trace.
    rewrite Hest.
    rewrite estimated_levels_app, (estimated_levels_tail t HF), app_nil_r.
    rewrite estimated_levels_cons, estimated_levels_app.
    rewrite estimated_levels_estimate_events.
    destruct (summary_max _); cbn; rewrite !app_nil_r; reflexivity. }
  assert (Hnot : min_level ∉ levels (min_level + 1) max_level).
  { rewrite elem_of_levels. lia. }
  split; [exact Hlevels|]. split; [rewrite Hlevels; exact Hnot|].
  rewrite Hmin, Hmax, Emin, Emax. unfold s_estimated.
  rewrite min_eigenvalues_estimated_state, max_eigenvalues_estimated_state.
  cbn [s_vectors min_eigenvalues max_eigenvalues].
  rewrite !lookup_overwrite_indices by (rewrite length_replicate; lia).
  rewrite !decide_False by exact Hnot.
  rewrite lookup_replicate_2 by lia. auto.
Qed.

Lemma estimation_once_per_level_above_coarsest_witness :
  let env := sample_environment false 0 [] in
  let mg_data := sample_parameters "chebyshev" "cg" true true in
  let final := (run env mg_data 0 2 "mg_level.log").1 in
  estimated_levels (trace final) = [1; 2] /\
  (0 ∉ estimated_levels (trace final)) /\
  min_eigenvalues final !! 0 = Some signaling_nan /\
  max_eigenvalues final !! 0 = Some signaling_nan.
Proof.
  intros env mg_data.
  apply (estimation_once_per_level_above_coarsest env mg_data 0 2 "mg_level.log");
    [reflexivity|reflexivity|lia].
Defined.

(** C5: for every level whose eigenvalue estimation was run, the smoother
    configuration of that level ends with [eig_cg_n_iterations = 0] and
    with [max_eigenvalue] equal to the binary64 product of the computed
    maximum-eigenvalue estimate (the one stored in [max_eigenvalues[level]])
    and the double nearest to 1.1, which is [0x1.199999999999ap+0], and
    [mg_smoother.initialize] of line 129 is called with the smoother
    configurations that hold this one at that level.  The estimate is the
    one computed for the configuration of lines 90-93. *)
Theorem estimated_level_configures_smoother
    env mg_data min_level max_level filename_mg_level level :
  let final := (run env mg_data min_level max_level filename_mg_level).1 in
  EvEstimateEigenvalues level ∈ trace final ->
  let evs := estimate env level (configure mg_data level (default_additional_data env)) in
  exists d,
    EvMgSmootherInitialize (smoother_data final) ∈ trace final /\
    smoother_data final !! level = Some d /\
    AdditionalData.eig_cg_n_iterations d = 0 /\
    max_eigenvalues final !! level = Some (max_eigenvalue_estimate evs) /\
    AdditionalData.max_eigenvalue d
    = (max_eigenvalue_estimate evs * 0x1.199999999999ap+0)%float.
Proof.
  intros final Hin evs. subst final.
  destruct (decide (Smoother.type (smoother mg_data) = "chebyshev")) as [Hty|Hty];
    [|rewrite (run_not_chebyshev _ _ _ _ _ Hty) in Hin; inversion Hin].
  destruct (run_chebyshev_frame env mg_data min_level max_level filename_mg_level Hty)
    as ((t & Ht & HF) & _ & Hmax & Hsd).
  assert (Hest : estimate_eigenvalues mg_data = true /\
                 level ∈ levels (min_level + 1) max_level).
  { rewrite Ht, trace_estimate_all_levels_result in Hin. unfold estimation_trace in Hin.
    apply elem_of_app in Hin. destruct Hin as [Hin|Hin].
    - apply elem_of_cons in Hin. destruct Hin as [Hin|Hin]; [discriminate|].
      destruct (estimate_eigenvalues mg_data); [|inversion Hin].
      split; [reflexivity|].
      apply elem_of_app in Hin. destruct Hin as [Hin|Hin].
      + apply elem_of_estimate_events in Hin. destruct Hin as (l & Hl & He).
        unfold estimate_events in He.
        repeat (apply elem_of_cons in He; destruct He as [He|He]; try discriminate).
        * injection He as ->. exact Hl.
        * inversion He.
      + destruct (summary_max _);
          repeat (apply elem_of_cons in Hin; destruct Hin as [Hin|Hin]; try discriminate);
          inversion Hin.
    - rewrite Forall_forall in HF. destruct (HF _ Hin). }
  destruct Hest as [Hest Hlevel].
  destruct (eigenvalues_estimate_all_levels_result env mg_data min_level max_level Hest)
    as (_ & Emax & Esd).
  pose proof Hlevel as Hrange. apply elem_of_levels in Hrange.
  exists (use_estimate evs (configure mg_data level (default_additional_data env))).
  split; [|split; [|split; [reflexivity|split; [|reflexivity]]]].
  - (* line 129 is reached: the range of line 122 is not empty *)
    rewrite (run_chebyshev env mg_data min_level max_level filename_mg_level Hty).
    unfold estimate_all_levels_result. rewrite Hest.
    destruct (summary_max_is_Some (max_eigenvalues (s_estimated env mg_data min_level max_level)))
      as [m Hm].
    { rewrite length_max_eigenvalues_s_estimated. lia. }
    rewrite Hm.
    match goal with |- context [after_estimation _ _ _ _ _ ?s0] =>
      destruct (after_estimation_emits env mg_data min_level max_level filename_mg_level s0)
        as (t' & Ht' & _);
      pose proof (after_estimation_smoother_data env mg_data min_level max_level
                    filename_mg_level s0) as Hsame;
      destruct (after_estimation_starts env mg_data min_level max_level filename_mg_level s0)
        as (t'' & Ht'' & _)
    end.
    unfold same in Hsame. rewrite Hsame, Ht''.
    apply elem_of_app. right. left.
  - rewrite Hsd, Esd. unfold s_estimated.
    rewrite smoother_data_estimated_state, lookup_overwrite_levels.
    rewrite decide_True by exact Hlevel. reflexivity.
  - rewrite Hmax, Emax. unfold s_estimated.
    rewrite max_eigenvalues_estimated_state.
    rewrite lookup_overwrite_indices by (cbn; rewrite length_replicate; lia).
    rewrite decide_True by exact Hlevel. reflexivity.
Qed.

(** With the estimate 3 on level 3 the smoother gets 3.3000000000000003,
    the rounded product, not 3.3. *)
Lemma estimated_level_configures_smoother_witness :
  let env := sample_environment false 0 [] in
  let mg_data := sample_parameters "chebyshev" "cg" true true in
  let final := (run env mg_data 0 3 "mg_level.log").1 in
  exists d,
    EvMgSmootherInitialize (smoother_data final) ∈ trace final /\
    smoother_data final !! 3 = Some d /\
    AdditionalData.eig_cg_n_iterations d = 0 /\
    max_eigenvalues final !! 3 = Some 3%float /\
    AdditionalData.max_eigenvalue d = 0x1.a666666666667p+1%float.
Proof.
  intros env mg_data final.
  refine (estimated_level_configures_smoother env mg_data 0 3 "mg_level.log" 3 _).
  vm_compute. do 9 right. left.
Defined.

(** C2, as stated, fails: with the unknown coarse solver "gmres" the
    production smoothers of all levels are initialised before the throw,
    and with [estimate_eigenvalues] also the estimating smoothers, the
    level vectors and the estimations. *)
Lemma unknown_coarse_solver_aborts_late :
  ("gmres" ∉ recognized_coarse_solvers) /\
  ~ aborts_before_touching_operators
      (run (sample_environment true 0 [])
           (sample_parameters "chebyshev" "gmres" false true) 0 2 "mg_level.log") /\
  ~ aborts_before_touching_operators
      (run (sample_environment true 0 [])
           (sample_parameters "chebyshev" "gmres" true true) 0 2 "mg_level.log").
Proof.
  split; [|split].
  - intros H. repeat (apply elem_of_cons in H; destruct H as [H|H]; try discriminate).
    inversion H.
  - intros [_ HF]. vm_compute in HF.
    inversion_clear HF as [|? ? _ HF1]. inversion_clear HF1 as [|? ? H _].
    apply H. exact I.
  - intros [_ HF]. vm_compute in HF.
    inversion_clear HF as [|? ? _ HF1]. inversion_clear HF1 as [|? ? H _].
    apply H. exact I.
Qed.

(** C2, amended: for a coarse solver type that is not recognised (and the
    Chebyshev smoother, and a range to read at line 122), [mg_solve] throws
    [ExcNotImplemented] at the coarse-grid dispatch: after the level
    smoothers were configured, after the eigenvalue estimation of every
    level above [min_level] if it is enabled, and right after
    [mg_smoother.initialize]; before any coarse-grid solver, the cycle
    engine, the timers, the outer solve and the table. *)
Theorem unknown_coarse_solver_aborts_after_smoother_setup
    env mg_data min_level max_level filename_mg_level :
  Smoother.type (smoother mg_data) = "chebyshev" ->
  CoarseSolver.type (coarse_solver mg_data) ∉ recognized_coarse_solvers ->
  (estimate_eigenvalues mg_data = true -> 1 <= max_level) ->
  let r := run env mg_data min_level max_level filename_mg_level in
  r.2 = Threw ExcNotImplemented /\
  trace r.1 =
    estimation_trace env mg_data min_level max_level ++
    [EvMgSmootherInitialize (smoother_data r.1)] /\
  Forall setup_event (trace r.1) /\
  all_mg_timers r.1 = [] /\ slots r.1 = [] /\ table r.1 = [].
Proof.
  intros Hty Hco Hdef r.
  destruct (run_unsupported env mg_data min_level max_level filename_mg_level Hty
              (unrecognized_unsupported env mg_data Hco))
    as (_ & Hev & Ht & Hs & Htab & Hthrow).
  destruct (Hthrow Hdef) as [Hout Htr]. subst r. auto 10.
Qed.

Lemma unknown_coarse_solver_aborts_after_smoother_setup_witness :
  let env := sample_environment true 0 [] in
  let mg_data := sample_parameters "chebyshev" "gmres" true true in
  let r := run env mg_data 0 2 "mg_level.log" in
  r.2 = Threw ExcNotImplemented /\
  trace r.1 =
    estimation_trace env mg_data 0 2 ++ [EvMgSmootherInitialize (smoother_data r.1)] /\
  Forall setup_event (trace r.1) /\
  all_mg_timers r.1 = [] /\ slots r.1 = [] /\ table r.1 = [].
Proof.
  intros env mg_data.
  apply (unknown_coarse_solver_aborts_after_smoother_setup env mg_data 0 2 "mg_level.log").
  - reflexivity.
  - intros H. repeat (apply elem_of_cons in H; destruct H as [H|H]; try discriminate).
    inversion H.
  - intros _. lia.
Defined.



(** C10: a table is written to the output file only with [log_levels] on
    and on process 0.  With [log_levels] off no timer closure is connected
    to the cycle engine, the timer array is all zeros whenever it exists
    (for any signals of the cycles, so at every point of the solve), no row
    is added to a table and no file is written, whether or not the
    eigenvalue estimation ran. *)
Theorem table_written_only_when_logging_on_rank_0
    env mg_data min_level max_level filename_mg_level :
  let final := (run env mg_data min_level max_level filename_mg_level).1 in
  (forall filename rows,
     EvWriteText filename rows ∈ trace final ->
     log_levels mg_data = true /\ this_mpi_process env = 0) /\
  (log_levels mg_data = false ->
   slots final = [] /\
   (all_mg_timers final = [] \/ all_mg_timers final = zero_timers min_level max_level) /\
   (forall row cell, row ∈ all_mg_timers final -> cell ∈ row -> cell.1 = dzero) /\
   table final = [] /\
   (forall filename rows, EvWriteText filename rows ∉ trace final)).
Proof.
  intros final.
  assert (Hguard : forall filename rows,
     EvWriteText filename rows ∈ trace final ->
     log_levels mg_data = true /\ this_mpi_process env = 0).
  { intros filename rows Hin. subst final. unfold run in *.
    destruct (mg_solve_write_text_guard env mg_data min_level max_level
                filename_mg_level initial_state) as (t & Ht & HF).
    rewrite Ht in Hin. cbn in Hin. rewrite Forall_forall in HF.
    apply (HF _ Hin). exact I. }
  split; [exact Hguard|]. intros Hlog.
  destruct (mg_solve_unlogged env mg_data min_level max_level filename_mg_level Hlog
              initial_state eq_refl) as [Hslots Htimers].
  pose proof (mg_solve_unlogged_table env mg_data min_level max_level
                filename_mg_level Hlog initial_state) as Htable.
  fold (run env mg_data min_level max_level filename_mg_level) in Hslots, Htimers, Htable.
  fold final in Hslots, Htimers, Htable.
  split; [exact Hslots|]. split; [exact Htimers|]. split; [|split; [exact Htable|]].
  - intros row cell Hrow Hcell. destruct Htimers as [Ht|Ht]; rewrite Ht in Hrow.
    + inversion Hrow.
    + apply elem_of_replicate_inv in Hrow. subst row.
      apply elem_of_replicate_inv in Hcell. subst cell. reflexivity.
  - intros filename rows Hin. destruct (Hguard _ _ Hin) as [Hl _]. congruence.
Qed.

Lemma table_written_only_when_logging_on_rank_0_witness :
  let env := sample_environment true 0
               [Build_signal pre_smoother_step true 1 10%Z;
                Build_signal pre_smoother_step false 1 25%Z] in
  let mg_data := sample_parameters "chebyshev" "cg" true false in
  let final := (run env mg_data 0 1 "mg_level.log").1 in
  slots final = [] /\
  (all_mg_timers final = [] \/ all_mg_timers final = zero_timers 0 1) /\
  (forall row cell, row ∈ all_mg_timers final -> cell ∈ row -> cell.1 = dzero) /\
  table final = [] /\
  (forall filename rows, EvWriteText filename rows ∉ trace final).
Proof.
  intros env mg_data.
  apply (table_written_only_when_logging_on_rank_0 env mg_data 0 1 "mg_level.log").
  reflexivity.
Defined.

(** C8, as stated, fails: [system_clock] is not a steady clock.  When it
    is set back by a microsecond between the start and the stop of the
    pre-smoother on level 1, the stop adds a negative duration and the
    accumulator falls from 0 to the double nearest to -1e-6 s. *)
Lemma timer_accumulator_decreases_when_clock_steps_back :
  let pre := [Build_signal pre_smoother_step true 1 (sample_now + 1000)%Z] in
  let sigs := pre ++ [Build_signal pre_smoother_step false 1 sample_now] in
  let env := sample_environment true 0 sigs in
  let mg_data := sample_parameters "chebyshev" "cg" false true in
  (run env mg_data 0 1 "mg_level.log").2 = Returned tt /\
  accumulator_at (run (with_cycle_signals env pre) mg_data 0 1 "mg_level.log").1 1 0
    = Some dzero /\
  accumulator_at (run env mg_data 0 1 "mg_level.log").1 1 0
    = Some (-0x1.0c6f7a0b5ed8dp-20)%float /\
  ~ accumulators_non_decreasing
      (run (with_cycle_signals env pre) mg_data 0 1 "mg_level.log").1
      (run env mg_data 0 1 "mg_level.log").1.
Proof.
  intros pre sigs env mg_data.
  assert (Hafter : accumulator_at (run env mg_data 0 1 "mg_level.log").1 1 0
                   = Some (-0x1.0c6f7a0b5ed8dp-20)%float) by (vm_compute; reflexivity).
  assert (Hbefore :
    accumulator_at (run (with_cycle_signals env pre) mg_data 0 1 "mg_level.log").1 1 0
    = Some dzero) by (vm_compute; reflexivity).
  split; [vm_compute; reflexivity|]. split; [exact Hbefore|]. split; [exact Hafter|].
  intros Hmono. destruct (Hmono 1 0 dzero Hbefore) as (acc' & Hacc & Hle).
  rewrite Hafter in Hacc. injection Hacc as <-.
  vm_compute in Hle. discriminate.
Qed.

(** C8, amended: in a solve with per-level logging that returns (so no
    callback wrote out of range), whose clock readings never go back, each
    of the seven accumulators of each level is zero before the first signal
    and, from any point of the solve to its end, has not decreased.  A call
    of a timer closure that returns changes one accumulator at most: a
    stop adds [(now - start) / 1e9] to the accumulator of its level and
    stage. *)
Theorem timer_accumulators_monotone
    env mg_data min_level max_level filename_mg_level pre post :
  log_levels mg_data = true ->
  cycle_signals env = pre ++ post ->
  steady_clock (pre ++ post) ->
  (run env mg_data min_level max_level filename_mg_level).2 = Returned tt ->
  let start :=
    (run (with_cycle_signals env []) mg_data min_level max_level filename_mg_level).1 in
  let before :=
    (run (with_cycle_signals env pre) mg_data min_level max_level filename_mg_level).1 in
  let after := (run env mg_data min_level max_level filename_mg_level).1 in
  (forall level i, level <= max_level - min_level -> i < 7 ->
     accumulator_at start level i = Some dzero) /\
  accumulators_non_decreasing before after /\
  (forall i label flag level now s s',
     create_mg_timer_function i label flag level now s = (s', Returned tt) ->
     exists cell,
       cell_at (all_mg_timers s) level i = Some cell /\
       forall L k,
         accumulator_at s' L k =
         if decide (L = level /\ k = i /\ flag = false)
         then Some (dadd cell.1 (seconds_of_count (now - cell.2)))
         else accumulator_at s L k).
Proof.
  intros Hlog Hsigs Hsteady Hret start before after.
  cut ((forall level i, level <= max_level - min_level -> i < 7 ->
          accumulator_at start level i = Some dzero) /\
       accumulators_non_decreasing before after).
  { intros [Hzero Hmono]. split; [exact Hzero|]. split; [exact Hmono|].
    apply create_mg_timer_function_accumulators. }
  destruct (run_logged env mg_data min_level max_level filename_mg_level Hlog)
    as [Hfwd Hinv].
  destruct (Hinv Hret) as (Hty & Hc & Hdef & Hok).
  destruct (Hfwd Hty Hc Hdef) as [Hafter _].
  destruct (run_logged (with_cycle_signals env pre) mg_data min_level max_level
              filename_mg_level Hlog) as [Hfwd_pre _].
  destruct (Hfwd_pre Hty Hc Hdef) as [Hbefore _].
  destruct (run_logged (with_cycle_signals env []) mg_data min_level max_level
              filename_mg_level Hlog) as [Hfwd_nil _].
  destruct (Hfwd_nil Hty Hc Hdef) as [Hstart _].
  cbn [with_cycle_signals cycle_signals run_signals fst] in Hbefore, Hstart.
  fold start in Hstart. fold before in Hbefore. fold after in Hafter.
  split.
  - intros level i Hlevel Hi. unfold accumulator_at. rewrite Hstart.
    rewrite cell_at_zero_timers_in_range by assumption. reflexivity.
  - rewrite Hsigs in Hafter, Hok. rewrite run_signals_app in Hafter, Hok.
    unfold steady_clock in Hsteady. rewrite steady_from_app in Hsteady.
    apply andb_true_iff in Hsteady. destruct Hsteady as [Hsteady_pre Hsteady_post].
    destruct (run_signals pre (zero_timers min_level max_level)) as [t_pre ok_pre] eqn:Hpre.
    cbn [fst snd] in *. destruct ok_pre; [|discriminate].
    destruct (run_signals post t_pre) as [t_post ok_post] eqn:Hpost.
    cbn [fst snd] in *. subst ok_post.
    destruct (run_signals_inv pre epoch _ _ (timers_inv_zero_timers _ _) Hsteady_pre Hpre)
      as [Hinv_pre _].
    destruct (run_signals_inv post _ _ _ Hinv_pre Hsteady_post Hpost) as [_ Hle].
    intros level i acc Hacc. unfold accumulator_at in *.
    rewrite Hbefore in Hacc. rewrite Hafter.
    destruct (cell_at t_pre level i) as [c|] eqn:Hc'; [|discriminate].
    injection Hacc as <-.
    destruct (Hle _ _ _ Hc') as (c' & Hc'' & Hdle).
    rewrite Hc''. exists c'.1. split; [reflexivity|exact Hdle].
Qed.

Lemma timer_accumulators_monotone_witness :
  let pre := [Build_signal pre_smoother_step true 1 sample_now] in
  let post := [Build_signal pre_smoother_step false 1 (sample_now + 1000)%Z] in
  let env := sample_environment true 0 (pre ++ post) in
  let mg_data := sample_parameters "chebyshev" "cg" false true in
  (forall level i, level <= 1 - 0 -> i < 7 ->
     accumulator_at (run (with_cycle_signals env []) mg_data 0 1 "mg_level.log").1 level i
     = Some dzero) /\
  accumulators_non_decreasing
    (run (with_cycle_signals env pre) mg_data 0 1 "mg_level.log").1
    (run env mg_data 0 1 "mg_level.log").1 /\
  (forall i label flag level now s s',
     create_mg_timer_function i label flag level now s = (s', Returned tt) ->
     exists cell,
       cell_at (all_mg_timers s) level i = Some cell /\
       forall L k,
         accumulator_at s' L k =
         if decide (L = level /\ k = i /\ flag = false)
         then Some (dadd cell.1 (seconds_of_count (now - cell.2)))
         else accumulator_at s L k).
Proof.
  intros pre post env mg_data.
  apply (timer_accumulators_monotone env mg_data 0 1 "mg_level.log" pre post).
  - reflexivity.
  - reflexivity.
  - vm_compute. reflexivity.
  - vm_compute. reflexivity.
Defined.

(** C9 fails on the code: the timer array has [max_level - min_level + 1]
    rows, but a closure indexes it with the level itself.  On the
    hierarchy of levels 1..2 the array has two rows, and the first
    pre-smoother signal of a cycle, fired at level 2, makes the closure
    access row 2: the behaviour of the run is undefined from there. *)
Theorem timer_callback_out_of_bounds :
  let env := sample_environment true 0
               [Build_signal pre_smoother_step true 2 sample_now] in
  let mg_data := sample_parameters "chebyshev" "cg" false true in
  let r := run env mg_data 1 2 "mg_level.log" in
  length (all_mg_timers r.1) = 2 - 1 + 1 /\
  ~ (2 < length (all_mg_timers r.1)) /\
  all_mg_timers r.1 !! 2 = None /\
  r.2 = Undefined.
Proof.
  intros env mg_data r. vm_compute. repeat split; lia.
Qed.

(** C1 fails on the code: the rows of the table are numbered from 0 and
    read [min_eigenvalues] and [max_eigenvalues] at the row number, not at
    the level.  On the hierarchy of levels 1..2 (with no cycle run, so that
    no timer is touched), level 2 is estimated, with the estimates 0.2 and
    2, but the table has the rows "level 0" and "level 1", both with NaN
    estimates: no row belongs to level 2 and none carries its
    estimates. *)
Theorem table_rows_misaligned_when_min_level_positive :
  let env := sample_environment true 0 [] in
  let mg_data := sample_parameters "chebyshev" "cg" true true in
  let r := run env mg_data 1 2 "mg_level.log" in
  r.2 = Returned tt /\
  estimated_levels (trace r.1) = [2] /\
  min_eigenvalues r.1 !! 2 = Some (0x1.999999999999ap-3%float) /\
  max_eigenvalues r.1 !! 2 = Some (2%float) /\
  exists rows,
    last (trace r.1) = Some (EvWriteText "mg_level.log" rows) /\
    map row_level rows = [0; 1] /\
    map row_min_eigenvalue rows = [Some NaN; Some NaN] /\
    map row_max_eigenvalue rows = [Some NaN; Some NaN].
Proof.
  intros env mg_data r. vm_compute.
  repeat split. eexists. repeat split; reflexivity.
Qed.

(** C3 fails on the code: line 122 takes the maximum over the indices
    [1 .. max_level] of [max_eigenvalues], whatever [min_level] is.  On the
    hierarchy of levels 1..2 only level 2 is estimated, with maximum 2, but
    the range starts with the NaN sentinel of index 1, which no element is
    greater than: the value logged and recorded under "max_ev" is NaN. *)
Theorem max_ev_is_nan_when_min_level_positive :
  let env := sample_environment true 0 [] in
  let mg_data := sample_parameters "chebyshev" "cg" true false in
  let r := run env mg_data 1 2 "mg_level.log" in
  r.2 = Returned tt /\
  estimated_levels (trace r.1) = [2] /\
  max_eigenvalues r.1 = [NaN; NaN; 2%float] /\
  logged_max_ev (trace r.1) = [NaN] /\
  recorded_max_ev (trace r.1) = [NaN].
Proof.
  intros env mg_data r. vm_compute. repeat split.
Qed.

(** * Further properties of [mg_solve] *)

(** X1: A run that returns made exactly these calls, in this order: the level
    operators are wrapped, the eigenvalues are estimated (if enabled), the
    level smoothers are initialised with the final configurations, the
    coarse-grid solver is built, then the cycle engine, the preconditioner
    and the outer solve; the table is written last, with logging on
    process 0 only. *)
Theorem trace_of_returning_run
    env mg_data min_level max_level filename_mg_level :
  let r := run env mg_data min_level max_level filename_mg_level in
  r.2 = Returned tt ->
  trace r.1 =
    estimation_trace env mg_data min_level max_level ++
    EvMgSmootherInitialize (smoother_data r.1) ::
    coarse_events env mg_data min_level ++
    [EvMultigrid; EvPreconditionMG; EvSolve] ++
    (if log_levels mg_data && Nat.eqb (this_mpi_process env) 0
     then [EvWriteText filename_mg_level (table r.1)] else []).
Proof. apply run_returned_trace. Qed.

Lemma trace_of_returning_run_witness :
  let env := sample_environment true 0 [] in
  let mg_data := sample_parameters "chebyshev" "cg_with_chebyshev" true true in
  let r := run env mg_data 0 2 "mg_level.log" in
  trace r.1 =
    estimation_trace env mg_data 0 2 ++
    EvMgSmootherInitialize (smoother_data r.1) ::
    coarse_events env mg_data 0 ++
    [EvMultigrid; EvPreconditionMG; EvSolve] ++
    (if log_levels mg_data && Nat.eqb (this_mpi_process env) 0
     then [EvWriteText "mg_level.log" (table r.1)] else []).
Proof.
  intros env mg_data.
  apply (trace_of_returning_run env mg_data 0 2 "mg_level.log").
  vm_compute. reflexivity.
Defined.

(** X2: A run that returns constructs exactly one coarse-grid solver: on
    [min_level], preconditioned as [coarse_solver.type] says, with the
    reduction control built from [maxiter], [abstol] and [reltol] and with
    history and result logging on. *)
Theorem one_coarse_grid_solver_on_min_level
    env mg_data min_level max_level filename_mg_level :
  let r := run env mg_data min_level max_level filename_mg_level in
  let type := CoarseSolver.type (coarse_solver mg_data) in
  r.2 = Returned tt ->
  coarse_grid_solvers (trace r.1) =
    [(if String.eqb type "cg" then coarse_identity
      else if String.eqb type "cg_with_chebyshev" then coarse_chebyshev
      else coarse_amg,
      min_level,
      {| rc_maxiter := CoarseSolver.maxiter (coarse_solver mg_data);
         rc_abstol := CoarseSolver.abstol (coarse_solver mg_data);
         rc_reltol := CoarseSolver.reltol (coarse_solver mg_data);
         rc_log_history := true;
         rc_log_result := true |})] /\
  (type = "cg" \/ type = "cg_with_chebyshev" \/
   (type = "cg_with_amg" /\ with_trilinos env = true)).
Proof.
  intros r type Hret. subst r.
  destruct (run_returned_inv env mg_data min_level max_level filename_mg_level Hret)
    as (_ & Hc & _).
  split.
  - rewrite (run_returned_trace env mg_data min_level max_level filename_mg_level Hret).
    rewrite coarse_grid_solvers_app.
    rewrite (coarse_grid_solvers_setup _
               (setup_event_estimation_trace env mg_data min_level max_level)).
    change (coarse_grid_solvers (EvMgSmootherInitialize ?sd :: ?l))
      with (coarse_grid_solvers l).
    rewrite !coarse_grid_solvers_app. unfold coarse_events. fold type.
    destruct (String.eqb type "cg"); [|destruct (String.eqb type "cg_with_chebyshev")];
      destruct (log_levels mg_data && Nat.eqb (this_mpi_process env) 0); reflexivity.
  - unfold coarse_supported in Hc. fold type in Hc.
    destruct (String.eqb_spec type "cg") as [->|_]; [auto|].
    destruct (String.eqb_spec type "cg_with_chebyshev") as [->|_]; [auto|].
    destruct (String.eqb_spec type "cg_with_amg") as [->|_]; [|discriminate].
    destruct (with_trilinos env); [auto|discriminate].
Qed.

Lemma one_coarse_grid_solver_on_min_level_witness :
  let env := sample_environment true 0 [] in
  let mg_data := sample_parameters "chebyshev" "cg_with_amg" false false in
  let r := run env mg_data 0 2 "mg_level.log" in
  coarse_grid_solvers (trace r.1) =
    [(coarse_amg, 0,
      {| rc_maxiter := 100; rc_abstol := 0%float; rc_reltol := 0x1.47ae147ae147bp-7%float;
         rc_log_history := true; rc_log_result := true |})] /\
  ("cg_with_amg" = "cg" \/ "cg_with_amg" = "cg_with_chebyshev" \/
   ("cg_with_amg" = "cg_with_amg" /\ with_trilinos env = true)).
Proof.
  intros env mg_data.
  apply (one_coarse_grid_solver_on_min_level env mg_data 0 2 "mg_level.log").
  vm_compute. reflexivity.
Defined.

(** X3: On a hierarchy with the single level 0, [estimate_eigenvalues] makes
    line 122 take [std::max_element] of an empty range and dereference its
    end iterator: the behaviour is undefined from there.  Nothing was
    estimated, logged or initialised before. *)
Theorem estimation_on_single_level_is_undefined
    env mg_data filename_mg_level :
  Smoother.type (smoother mg_data) = "chebyshev" ->
  estimate_eigenvalues mg_data = true ->
  let r := run env mg_data 0 0 filename_mg_level in
  r.2 = Undefined /\
  trace r.1 = [EvMgMatrix] /\
  max_eigenvalues r.1 = [signaling_nan].
Proof.
  intros Hty Hest r. subst r. rewrite (run_chebyshev env mg_data 0 0 _ Hty).
  unfold estimate_all_levels_result. rewrite Hest.
  rewrite summary_max_None by (rewrite length_max_eigenvalues_s_estimated; lia).
  cbn [fst snd]. auto.
Qed.

Lemma estimation_on_single_level_is_undefined_witness :
  let env := sample_environment true 0 [] in
  let mg_data := sample_parameters "chebyshev" "cg" true false in
  let r := run env mg_data 0 0 "mg_level.log" in
  r.2 = Undefined /\
  trace r.1 = [EvMgMatrix] /\
  max_eigenvalues r.1 = [signaling_nan].
Proof.
  intros env mg_data.
  apply (estimation_on_single_level_is_undefined env mg_data "mg_level.log");
    reflexivity.
Defined.

(** X4: Under the Chebyshev smoother, the configuration that [mg_smoother]
    gets for a level of [min_level .. max_level] holds the level's
    preconditioner and the configured range and degree; on a level whose
    eigenvalues were estimated (estimation on, level above [min_level]) it
    has [eig_cg_n_iterations = 0] and, as [max_eigenvalue], the binary64
    product of the estimate and the double nearest to 1.1
    ([0x1.199999999999ap+0]), on the other levels the configured number of
    iterations and the default [max_eigenvalue].  There is no
    configuration for a level outside [min_level .. max_level]. *)
Theorem smoother_configuration_of_every_level
    env mg_data min_level max_level filename_mg_level level :
  Smoother.type (smoother mg_data) = "chebyshev" ->
  let final := (run env mg_data min_level max_level filename_mg_level).1 in
  let estimated_here := estimate_eigenvalues mg_data && bool_decide (min_level < level) in
  let d0 := default_additional_data env in
  let evs := estimate env level (configure mg_data level d0) in
  smoother_data final !! level =
  if decide (min_level <= level <= max_level)
  then Some (AdditionalData.Build
               (level_preconditioner level)
               (Smoother.smoothing_range (smoother mg_data))
               (Smoother.degree (smoother mg_data))
               (if estimated_here then 0
                else Smoother.eig_cg_n_iterations (smoother mg_data))
               (if estimated_here
                then (max_eigenvalue_estimate evs * 0x1.199999999999ap+0)%float
                else AdditionalData.max_eigenvalue d0))
  else None.
Proof.
  intros Hty final estimated_here d0 evs. subst final.
  destruct (run_chebyshev_frame env mg_data min_level max_level filename_mg_level Hty)
    as (_ & _ & _ & ->).
  rewrite lookup_smoother_data_estimate_all_levels_result.
  fold estimated_here.
  destruct (decide (min_level <= level <= max_level)); [|reflexivity].
  destruct estimated_here; reflexivity.
Qed.

(** On level 7, with the estimate 7, the smoother gets
    7.700000000000001. *)
Lemma smoother_configuration_of_every_level_witness :
  let env := sample_environment true 0 [] in
  let mg_data := sample_parameters "chebyshev" "cg" true false in
  smoother_data (run env mg_data 0 7 "mg_level.log").1 !! 7 =
  Some (AdditionalData.Build (level_preconditioner 7) 20%float 5 0
          0x1.ecccccccccccep+2%float).
Proof.
  intros env mg_data.
  refine (smoother_configuration_of_every_level env mg_data 0 7 "mg_level.log" 7 _).
  reflexivity.
Defined.

(** X5: With [estimate_eigenvalues] off (and the Chebyshev smoother), no
    eigenvalue is estimated and no summary is logged or recorded: after
    the level operators are wrapped, the run goes straight to lines
    128-279, and both eigenvalue vectors keep their [max_level + 1] NaN
    sentinels to the end. *)
Theorem no_estimation_when_switched_off
    env mg_data min_level max_level filename_mg_level :
  Smoother.type (smoother mg_data) = "chebyshev" ->
  estimate_eigenvalues mg_data = false ->
  let final := (run env mg_data min_level max_level filename_mg_level).1 in
  (exists t, trace final = EvMgMatrix :: t /\ Forall tail_event t) /\
  estimated_levels (trace final) = [] /\
  logged_max_ev (trace final) = [] /\
  recorded_max_ev (trace final) = [] /\
  min_eigenvalues final = replicate (max_level + 1) signaling_nan /\
  max_eigenvalues final = replicate (max_level + 1) signaling_nan.
Proof.
  intros Hty Hest final. subst final.
  destruct (run_chebyshev_frame env mg_data min_level max_level filename_mg_level Hty)
    as ((t & Ht & HF) & Hmin & Hmax & _).
  rewrite trace_estimate_all_levels_result in Ht. unfold estimation_trace in Ht.
  rewrite Hest in Ht. cbn [app] in Ht.
  unfold estimate_all_levels_result in Hmin, Hmax. rewrite Hest in Hmin, Hmax.
  destruct (max_ev_tail t HF) as [Hl Hr].
  split; [exists t; auto|].
  rewrite Ht.
  change (estimated_levels (EvMgMatrix :: t)) with (estimated_levels t).
  change (logged_max_ev (EvMgMatrix :: t)) with (logged_max_ev t).
  change (recorded_max_ev (EvMgMatrix :: t)) with (recorded_max_ev t).
  rewrite (estimated_levels_tail t HF), Hl, Hr, Hmin, Hmax. auto.
Qed.

Lemma no_estimation_when_switched_off_witness :
  let env := sample_environment true 0 [] in
  let mg_data := sample_parameters "chebyshev" "cg" false true in
  let final := (run env mg_data 0 2 "mg_level.log").1 in
  (exists t, trace final = EvMgMatrix :: t /\ Forall tail_event t) /\
  estimated_levels (trace final) = [] /\
  logged_max_ev (trace final) = [] /\
  recorded_max_ev (trace final) = [] /\
  min_eigenvalues final = replicate (2 + 1) signaling_nan /\
  max_eigenvalues final = replicate (2 + 1) signaling_nan.
Proof.
  intros env mg_data.
  apply (no_estimation_when_switched_off env mg_data 0 2 "mg_level.log");
    reflexivity.
Defined.

(** X6: How a call of [mg_solve] ends is decided by its inputs, in this order:
    another smoother than "chebyshev" throws [ExcNotImplemented];
    estimation on a hierarchy with [max_level = 0] is undefined behaviour
    (line 122); a coarse-grid solver that is not "cg", "cg_with_chebyshev"
    or, with Trilinos, "cg_with_amg" throws [ExcNotImplemented]; with
    [log_levels], a signal at a level above [max_level - min_level] is
    undefined behaviour (the callback leaves the timer array); every other
    call returns. *)
Theorem outcome_of_mg_solve
    env mg_data min_level max_level filename_mg_level :
  min_level <= max_level ->
  (run env mg_data min_level max_level filename_mg_level).2 =
  if negb (String.eqb (Smoother.type (smoother mg_data)) "chebyshev")
  then Threw ExcNotImplemented
  else if estimate_eigenvalues mg_data && Nat.eqb max_level 0 then Undefined
  else if negb (coarse_supported env mg_data) then Threw ExcNotImplemented
  else if log_levels mg_data &&
          negb (forallb (fun sg => sig_level sg <=? max_level - min_level)
                        (cycle_signals env))
  then Undefined
  else Returned tt.
Proof. intros _. apply run_outcome. Qed.

Lemma outcome_of_mg_solve_witness :
  let env := sample_environment true 0
               [Build_signal pre_smoother_step true 2 sample_now] in
  let mg_data := sample_parameters "chebyshev" "cg" false true in
  (run env mg_data 1 2 "mg_level.log").2 = Undefined.
Proof.
  intros env mg_data.
  apply (outcome_of_mg_solve env mg_data 1 2 "mg_level.log"). lia.
Defined.

(** X7: A timer closure called to start and then, at most 2^63 ns later, to
    stop a stage of a level whose cell exists leaves in the accumulator of
    that cell the binary64 sum of its old value and the elapsed seconds:
    the count of nanoseconds between the two clock readings, rounded to
    the nearest double and divided by [1e9].  It keeps the reading of the
    start in the cell, and changes no other cell and no call record. *)
Theorem timer_start_then_stop_adds_elapsed_time
    i label level t1 t2 s c :
  cell_at (all_mg_timers s) level i = Some c ->
  (t1 <= t2 < t1 + 2 ^ 63)%Z ->
  let r := (create_mg_timer_function i label true level t1 >>
            create_mg_timer_function i label false level t2) s in
  r.2 = Returned tt /\
  cell_at (all_mg_timers r.1) level i =
    Some ((c.1 + of_uint63 (Uint63.of_Z (t2 - t1)) / 1000000000)%float, t1) /\
  (forall L k, ~ (L = level /\ k = i) ->
     cell_at (all_mg_timers r.1) L k = cell_at (all_mg_timers s) L k) /\
  trace r.1 = trace s.
Proof.
  intros Hc Ht12 r. subst r.
  destruct (timer_step_is_Some i true level t1 _ c Hc) as [ta Hta].
  destruct (timer_step_cell _ _ _ _ _ _ Hta) as (c0 & Hc0 & Hnew_a).
  rewrite Hc in Hc0. injection Hc0 as <-.
  assert (Hca : cell_at ta level i = Some (c.1, t1)).
  { rewrite Hnew_a. rewrite decide_True by auto. reflexivity. }
  destruct (timer_step_is_Some i false level t2 ta _ Hca) as [tb Htb].
  destruct (timer_step_cell _ _ _ _ _ _ Htb) as (c1 & Hc1 & Hnew_b).
  rewrite Hca in Hc1. injection Hc1 as <-.
  erewrite bind_returned
    by (rewrite create_mg_timer_function_run, Hta; reflexivity).
  rewrite create_mg_timer_function_run. cbn [all_mg_timers set_all_mg_timers].
  rewrite Htb. cbn [fst snd all_mg_timers set_all_mg_timers trace].
  split; [reflexivity|]. split; [|split; [|reflexivity]].
  - rewrite Hnew_b. rewrite decide_True by auto. cbn [fst snd].
    rewrite seconds_of_count_eq by lia. reflexivity.
  - intros L k Hne. rewrite Hnew_b, decide_False by exact Hne.
    rewrite Hnew_a, decide_False by exact Hne. reflexivity.
Qed.

(** A coarse solve of 100 ms on top of an accumulator of 0.2 s gives
    0.30000000000000004 s. *)
Lemma timer_start_then_stop_adds_elapsed_time_witness :
  let s := set_all_mg_timers [replicate 7 (0x1.999999999999ap-3%float, epoch)]
             initial_state in
  let r := (create_mg_timer_function 3 "coarse_solve" true 0 sample_now >>
            create_mg_timer_function 3 "coarse_solve" false 0 (sample_now + 100000000)%Z) s in
  r.2 = Returned tt /\
  cell_at (all_mg_timers r.1) 0 3 = Some (0x1.3333333333334p-2%float, sample_now) /\
  (forall L k, ~ (L = 0 /\ k = 3) ->
     cell_at (all_mg_timers r.1) L k = cell_at (all_mg_timers s) L k) /\
  trace r.1 = trace s.
Proof.
  intros s.
  refine (timer_start_then_stop_adds_elapsed_time 3 "coarse_solve" 0 sample_now
            (sample_now + 100000000)%Z s (0x1.999999999999ap-3%float, epoch) _ _).
  - reflexivity.
  - vm_compute. split; [discriminate|reflexivity].
Defined.

(** X8: A stop that no start preceded measures from the clock's epoch.  In a
    logged solve whose cycles only stop one stage of one level, once, the
    run returns and the accumulator of that stage and level ends as the
    whole clock reading in seconds (its count of nanoseconds, rounded to
    the nearest double and divided by [1e9]): the cells are
    value-initialised by line 218, so the recorded start is the epoch. *)
Theorem timer_stop_without_start_counts_from_epoch
    env mg_data min_level max_level filename_mg_level slot level now :
  Smoother.type (smoother mg_data) = "chebyshev" ->
  coarse_supported env mg_data = true ->
  (estimate_eigenvalues mg_data = true -> 1 <= max_level) ->
  log_levels mg_data = true ->
  level <= max_level - min_level ->
  (0 <= now < 2 ^ 63)%Z ->
  cycle_signals env = [Build_signal slot false level now] ->
  let r := run env mg_data min_level max_level filename_mg_level in
  r.2 = Returned tt /\
  cell_at (all_mg_timers r.1) level (stage_index slot) =
    Some ((of_uint63 (Uint63.of_Z now) / 1000000000)%float, epoch).
Proof.
  intros Hty Hc Hdef Hlog Hlevel Hnow Hsig r. subst r.
  assert (Hrange : signals_in_range env min_level max_level).
  { unfold signals_in_range. rewrite Hsig. constructor; [exact Hlevel|constructor]. }
  split; [apply run_logged_returns; assumption|].
  destruct (run_logged env mg_data min_level max_level filename_mg_level Hlog)
    as [Hfwd _].
  destruct (Hfwd Hty Hc Hdef) as [Htimers _].
  rewrite Htimers, Hsig.
  pose proof (cell_at_zero_timers_in_range min_level max_level level
                (stage_index slot) Hlevel (stage_index_lt slot)) as Hcell.
  destruct (timer_step_is_Some (stage_index slot) false level now _ _ Hcell)
    as [t' Ht'].
  destruct (timer_step_cell _ _ _ _ _ _ Ht') as (c0 & Hc0 & Hnew).
  rewrite Hcell in Hc0. injection Hc0 as <-.
  cbn [run_signals sig_slot sig_flag sig_level sig_now]. rewrite Ht'. cbn [fst].
  rewrite Hnew, decide_True by auto. cbn [fst snd].
  unfold epoch. rewrite Z.sub_0_r.
  rewrite dadd_dzero_seconds by lia. reflexivity.
Qed.

(** A stop at 1.73e18 ns after the epoch, with no start, accounts
    1730000000 s to the pre-smoother of level 1. *)
Lemma timer_stop_without_start_counts_from_epoch_witness :
  let env := sample_environment true 0
               [Build_signal pre_smoother_step false 1 sample_now] in
  let mg_data := sample_parameters "chebyshev" "cg" false true in
  let r := run env mg_data 0 2 "mg_level.log" in
  r.2 = Returned tt /\
  cell_at (all_mg_timers r.1) 1 0 = Some (1730000000%float, 0%Z).
Proof.
  intros env mg_data.
  refine (timer_stop_without_start_counts_from_epoch env mg_data 0 2 "mg_level.log"
            pre_smoother_step 1 sample_now _ _ _ _ _ _ _).
  - reflexivity.
  - reflexivity.
  - intros _. lia.
  - reflexivity.
  - lia.
  - vm_compute. split; [discriminate|reflexivity].
  - reflexivity.
Defined.

(** X9: When the cycles of a logged solve start and stop one stage of one
    level once per interval, each interval with its ends in order and less
    than 2^63 ns apart, the accumulator of that stage and level ends as
    the binary64 sum of the interval lengths in seconds, added up from zero
    in the order of the intervals and rounded at every step; the other
    accumulators are still zero, and the run returns. *)
Theorem timer_accumulates_paired_intervals
    env mg_data min_level max_level filename_mg_level slot level intervals :
  Smoother.type (smoother mg_data) = "chebyshev" ->
  coarse_supported env mg_data = true ->
  (estimate_eigenvalues mg_data = true -> 1 <= max_level) ->
  log_levels mg_data = true ->
  min_level <= max_level ->
  level <= max_level - min_level ->
  Forall measurable intervals ->
  cycle_signals env = interval_signals slot level intervals ->
  let r := run env mg_data min_level max_level filename_mg_level in
  r.2 = Returned tt /\
  accumulator_at r.1 level (stage_index slot) = Some (total_seconds 0%float intervals) /\
  forall L k, L <= max_level - min_level -> k < 7 ->
    ~ (L = level /\ k = stage_index slot) ->
    accumulator_at r.1 L k = Some 0%float.
Proof.
  intros Hty Hc Hdef Hlog _ Hlevel Hordered Hsig r. subst r.
  assert (Hrange : signals_in_range env min_level max_level).
  { unfold signals_in_range. rewrite Hsig. clear Hsig Hordered.
    induction intervals as [|p intervals IH]; [constructor|].
    cbn [interval_signals flat_map app]. do 2 (constructor; [exact Hlevel|]).
    exact IH. }
  split; [apply run_logged_returns; assumption|].
  destruct (run_logged env mg_data min_level max_level filename_mg_level Hlog)
    as [Hfwd _].
  destruct (Hfwd Hty Hc Hdef) as [Htimers _].
  unfold accumulator_at. rewrite Htimers, Hsig.
  destruct (run_signals_intervals slot level intervals
              (zero_timers min_level max_level) (dzero, epoch) Hordered
              (cell_at_zero_timers_in_range _ _ _ _ Hlevel (stage_index_lt slot)))
    as (t' & start & Hrun & Hcell & Hother).
  rewrite Hrun. cbn [fst]. split.
  - rewrite Hcell. reflexivity.
  - intros L k HL Hk Hne. rewrite (Hother L k Hne).
    rewrite (cell_at_zero_timers_in_range _ _ _ _ HL Hk). reflexivity.
Qed.

(** Two restrictions on level 1, of 100 ms and of 200 ms, add up to
    0.30000000000000004 s. *)
Lemma timer_accumulates_paired_intervals_witness :
  let intervals := [(sample_now, sample_now + 100000000);
                    (sample_now + 2000000000, sample_now + 2200000000)]%Z in
  let env := sample_environment true 0 (interval_signals restriction 1 intervals) in
  let mg_data := sample_parameters "chebyshev" "cg" false true in
  let r := run env mg_data 0 2 "mg_level.log" in
  r.2 = Returned tt /\
  accumulator_at r.1 1 (stage_index restriction) = Some 0x1.3333333333334p-2%float /\
  forall L k, L <= 2 - 0 -> k < 7 ->
    ~ (L = 1 /\ k = stage_index restriction) ->
    accumulator_at r.1 L k = Some 0%float.
Proof.
  intros intervals env mg_data.
  refine (timer_accumulates_paired_intervals env mg_data 0 2 "mg_level.log"
            restriction 1 intervals _ _ _ _ _ _ _ _).
  - reflexivity.
  - reflexivity.
  - intros _. lia.
  - reflexivity.
  - lia.
  - lia.
  - repeat constructor; vm_compute; discriminate.
  - reflexivity.
Defined.

(** X10: The table of a logged run that returns on process 0, whatever
    [min_level] is: it is the text written last, it has
    [max_level - min_level + 1] rows, and row [k] (counted from 0) carries
    the number [k] under "level", the seven accumulators of row [k] of the
    timer array, and, with [estimate_eigenvalues] only, element [k] of the
    two eigenvalue vectors: the estimates of level [k] if that level was
    estimated, the NaN sentinel otherwise. *)
Theorem table_rows_are_numbered_from_0
    env mg_data min_level max_level filename_mg_level :
  min_level <= max_level ->
  log_levels mg_data = true ->
  this_mpi_process env = 0 ->
  let r := run env mg_data min_level max_level filename_mg_level in
  let evs level :=
    estimate env level (configure mg_data level (default_additional_data env)) in
  r.2 = Returned tt ->
  last (trace r.1) = Some (EvWriteText filename_mg_level (table r.1)) /\
  length (table r.1) = max_level - min_level + 1 /\
  forall k, k <= max_level - min_level ->
    exists row,
      table r.1 !! k = Some row /\
      row_level row = k /\
      accumulator_at r.1 k 0 = Some (row_pre_smoother_step row) /\
      accumulator_at r.1 k 1 = Some (row_residual_step row) /\
      accumulator_at r.1 k 2 = Some (row_restriction row) /\
      accumulator_at r.1 k 3 = Some (row_coarse_solve row) /\
      accumulator_at r.1 k 4 = Some (row_prolongation row) /\
      accumulator_at r.1 k 5 = Some (row_edge_prolongation row) /\
      accumulator_at r.1 k 6 = Some (row_post_smoother_step row) /\
      row_min_eigenvalue row =
        (if estimate_eigenvalues mg_data
         then Some (if decide (min_level < k) then min_eigenvalue_estimate (evs k)
                    else signaling_nan)
         else None) /\
      row_max_eigenvalue row =
        (if estimate_eigenvalues mg_data
         then Some (if decide (min_level < k) then max_eigenvalue_estimate (evs k)
                    else signaling_nan)
         else None).
Proof.
  intros Hle Hlog Hrank r evs Hret.
  destruct (run_returned_inv env mg_data min_level max_level filename_mg_level Hret)
    as (Hty & Hc & Hdef).
  pose proof (run_logged_returned_in_range env mg_data min_level max_level
                filename_mg_level Hlog Hret) as Hrange.
  pose proof (run_logged_rank_0 env mg_data min_level max_level filename_mg_level
                Hty Hc Hdef Hlog Hrank Hrange) as Hrun.
  cbv zeta in Hrun. fold r in Hrun.
  set (solved := solved_state env mg_data min_level max_level
                   (estimate_all_levels_result env mg_data min_level max_level).1) in *.
  destruct (run_signals_in_range (cycle_signals env) (zero_timers min_level max_level)
              (seven_wide_zero_timers _ _)) as (_ & Hwide & Hlen).
  { rewrite length_zero_timers. eapply Forall_impl; [exact Hrange|].
    intros sg Hsg. simpl in Hsg. lia. }
  rewrite length_zero_timers in Hlen.
  assert (Htimers : all_mg_timers solved =
                    (run_signals (cycle_signals env) (zero_timers min_level max_level)).1)
    by reflexivity.
  rewrite Hrun. cbn [fst snd trace table set_trace set_table].
  split; [apply last_snoc|]. split.
  { unfold table_rows. rewrite length_map, length_seq, Htimers. exact Hlen. }
  intros k Hk. exists (table_row_of mg_data solved k).
  split.
  { unfold table_rows. rewrite map_fmap, list_lookup_fmap.
    rewrite lookup_seq_lt by (rewrite Htimers; lia). reflexivity. }
  split; [reflexivity|].
  assert (Hacc : forall i, i < 7 ->
    accumulator_at (set_trace (trace solved ++
                      [EvWriteText filename_mg_level (table_rows mg_data solved)])
                      (set_table (table_rows mg_data solved) solved)) k i =
    Some (default NaN (accumulator_at solved k i))).
  { intros i Hi. unfold accumulator_at. cbn [all_mg_timers set_trace set_table].
    destruct (cell_at_in_range (all_mg_timers solved) k i) as [c Hcell];
      [rewrite Htimers; exact Hwide|rewrite Htimers; lia|exact Hi|].
    rewrite Hcell. reflexivity. }
  do 7 (split; [apply Hacc; lia|]).
  cbn [table_row_of row_min_eigenvalue row_max_eigenvalue].
  assert (Hk' : k <= max_level) by lia.
  destruct (lookup_eigenvalues_estimate_all_levels_result env mg_data min_level
              max_level k Hk') as [Hmn Hmx].
  change (min_eigenvalues solved)
    with (min_eigenvalues (estimate_all_levels_result env mg_data min_level max_level).1).
  change (max_eigenvalues solved)
    with (max_eigenvalues (estimate_all_levels_result env mg_data min_level max_level).1).
  rewrite Hmn, Hmx.
  destruct (estimate_eigenvalues mg_data); auto.
Qed.

Lemma table_rows_are_numbered_from_0_witness :
  let env := sample_environment true 0 [] in
  let mg_data := sample_parameters "chebyshev" "cg" true true in
  let r := run env mg_data 1 3 "mg_level.log" in
  exists row,
    table r.1 !! 2 = Some row /\
    row_level row = 2 /\
    row_min_eigenvalue row = Some (0x1.999999999999ap-3%float) /\
    row_max_eigenvalue row = Some (2%float).
Proof.
  intros env mg_data r.
  destruct (table_rows_are_numbered_from_0 env mg_data 1 3 "mg_level.log")
    as (_ & _ & Hrows); [lia|reflexivity|reflexivity|vm_compute; reflexivity|].
  destruct (Hrows 2) as (row & H1 & H2 & _ & _ & _ & _ & _ & _ & _ & H3 & H4); [lia|].
  exists row. auto.
Defined.

(** X11: On a hierarchy that starts above level 0, the value logged and
    recorded under "max_ev" is NaN, whatever the estimates are: the range
    of line 122 starts at index 1, which is not above [min_level] and so
    still holds the NaN sentinel, and no estimate compares greater than
    NaN. *)
Theorem max_ev_summary_is_nan_above_level_0
    env mg_data min_level max_level filename_mg_level :
  Smoother.type (smoother mg_data) = "chebyshev" ->
  estimate_eigenvalues mg_data = true ->
  1 <= min_level -> min_level <= max_level ->
  let r := run env mg_data min_level max_level filename_mg_level in
  logged_max_ev (trace r.1) = [NaN] /\
  recorded_max_ev (trace r.1) = [NaN].
Proof.
  intros Hty Hest Hmin Hle r. subst r.
  destruct (run_chebyshev_frame env mg_data min_level max_level filename_mg_level Hty)
    as ((t & Ht & HF) & _).
  rewrite Ht, trace_estimate_all_levels_result. unfold estimation_trace.
  rewrite Hest.
  rewrite (summary_max_min_level_positive env mg_data min_level max_level) by lia.
  destruct (max_ev_tail t HF) as [Hl Hr].
  destruct (max_ev_estimate_events env mg_data (levels (min_level + 1) max_level))
    as [Hl' Hr'].
  split.
  - rewrite logged_max_ev_app, Hl, app_nil_r.
    change (logged_max_ev (EvMgMatrix :: ?l)) with (logged_max_ev l).
    rewrite logged_max_ev_app, Hl'. reflexivity.
  - rewrite recorded_max_ev_app, Hr, app_nil_r.
    change (recorded_max_ev (EvMgMatrix :: ?l)) with (recorded_max_ev l).
    rewrite recorded_max_ev_app, Hr'. reflexivity.
Qed.

Lemma max_ev_summary_is_nan_above_level_0_witness :
  let env := sample_environment true 0 [] in
  let mg_data := sample_parameters "chebyshev" "cg_with_chebyshev" true false in
  let r := run env mg_data 2 5 "mg_level.log" in
  logged_max_ev (trace r.1) = [NaN] /\
  recorded_max_ev (trace r.1) = [NaN].
Proof.
  intros env mg_data.
  apply (max_ev_summary_is_nan_above_level_0 env mg_data 2 5 "mg_level.log");
    [reflexivity|reflexivity|lia|lia].
Defined.

(** X12: What a returning run sets up as the preconditioner of the coarse-grid
    solver: nothing for "cg"; for "cg_with_chebyshev" the inverse diagonal
    of the operator of [min_level] and a Chebyshev preconditioner on that
    level with the range, the degree and the number of CG iterations of
    the smoother parameters (and the default [max_eigenvalue]: the
    estimates are not used here); for "cg_with_amg" an AMG preconditioner
    on [min_level] with [smoother_sweeps], [n_cycles] and [smoother_type]
    of the coarse-solver parameters. *)
Theorem coarse_preconditioner_by_type
    env mg_data min_level max_level filename_mg_level :
  let r := run env mg_data min_level max_level filename_mg_level in
  let type := CoarseSolver.type (coarse_solver mg_data) in
  r.2 = Returned tt ->
  coarse_preconditioner_setups (trace r.1) =
    if String.eqb type "cg" then []
    else if String.eqb type "cg_with_chebyshev" then
      [EvComputeInverseDiagonal min_level;
       EvPreconditionChebyshevInitialize min_level
         (AdditionalData.Build
            (inverse_diagonal min_level)
            (Smoother.smoothing_range (smoother mg_data))
            (Smoother.degree (smoother mg_data))
            (Smoother.eig_cg_n_iterations (smoother mg_data))
            (AdditionalData.max_eigenvalue (default_additional_data env)))]
    else
      [EvPreconditionAmgInitialize min_level
         {| amg_smoother_sweeps := CoarseSolver.smoother_sweeps (coarse_solver mg_data);
            amg_n_cycles := CoarseSolver.n_cycles (coarse_solver mg_data);
            amg_smoother_type := CoarseSolver.smoother_type (coarse_solver mg_data) |}].
Proof.
  intros r type Hret. subst r.
  rewrite (run_returned_trace env mg_data min_level max_level filename_mg_level Hret).
  assert (Happ : forall t1 t2, coarse_preconditioner_setups (t1 ++ t2) =
            coarse_preconditioner_setups t1 ++ coarse_preconditioner_setups t2)
    by (intros; apply omap_app).
  assert (Hsetup : forall t, Forall setup_event t -> coarse_preconditioner_setups t = []).
  { induction 1 as [|e t He _ IH]; [reflexivity|].
    destruct e; simpl in He; try contradiction; exact IH. }
  rewrite Happ.
  rewrite (Hsetup _ (setup_event_estimation_trace env mg_data min_level max_level)).
  change (coarse_preconditioner_setups (EvMgSmootherInitialize ?sd :: ?l))
    with (coarse_preconditioner_setups l).
  rewrite !Happ. unfold coarse_events. fold type.
  destruct (String.eqb type "cg"); [|destruct (String.eqb type "cg_with_chebyshev")];
    destruct (log_levels mg_data && Nat.eqb (this_mpi_process env) 0); reflexivity.
Qed.

Lemma coarse_preconditioner_by_type_witness :
  let env := sample_environment true 0 [] in
  let mg_data := sample_parameters "chebyshev" "cg_with_chebyshev" true false in
  let r := run env mg_data 0 2 "mg_level.log" in
  coarse_preconditioner_setups (trace r.1) =
    [EvComputeInverseDiagonal 0;
     EvPreconditionChebyshevInitialize 0
       (AdditionalData.Build (inverse_diagonal 0) 20%float 5 10 1%float)].
Proof.
  intros env mg_data.
  apply (coarse_preconditioner_by_type env mg_data 0 2 "mg_level.log").
  vm_compute. reflexivity.
Defined.

(** * The finite element hierarchy of the Poisson problem *)

Lemma unsigned_int_small z : (0 <= z < 2 ^ 32)%Z -> Poisson.unsigned_int z = z.
Proof. intros Hz. unfold Poisson.unsigned_int. apply Z.mod_small. exact Hz. Qed.

Lemma size_fe_collection max_p_degree :
  (0 <= max_p_degree)%Z ->
  Poisson.size (Poisson.fe_collection max_p_degree) = max_p_degree.
Proof.
  intros Hmax. unfold Poisson.size, Poisson.fe_collection.
  rewrite length_fmap, length_seq. lia.
Qed.

Lemma degree_at_fe_collection max_p_degree fe_index :
  (0 <= fe_index)%Z ->
  Poisson.degree_at (Poisson.fe_collection max_p_degree) fe_index =
  if decide (fe_index < max_p_degree)%Z then Some (fe_index + 1)%Z else None.
Proof.
  intros Hi. unfold Poisson.degree_at, Poisson.fe_collection.
  rewrite list_lookup_fmap.
  destruct (decide (fe_index < max_p_degree)%Z) as [Hlt|Hge].
  - rewrite lookup_seq_lt by lia. cbn. f_equal. lia.
  - rewrite lookup_seq_ge by lia. reflexivity.
Qed.

Lemma next_index_in_collection collection fe_index :
  (Poisson.size collection < 2 ^ 32)%Z ->
  (0 <= fe_index < Poisson.size collection)%Z ->
  Poisson.next_index collection fe_index =
  Z.min (fe_index + 1) (Poisson.size collection - 1).
Proof.
  intros Hsize Hi. unfold Poisson.next_index.
  rewrite unsigned_int_small by lia.
  destruct (Z.ltb_spec (fe_index + 1) (Poisson.size collection)); lia.
Qed.

Lemma previous_index_in_hierarchy DEBUG min_fe_index fe_index :
  (0 <= min_fe_index <= fe_index)%Z -> (fe_index < 2 ^ 32)%Z ->
  Poisson.previous_index DEBUG min_fe_index fe_index =
  Some (Z.max (fe_index - 1) min_fe_index).
Proof.
  intros Hmin Hi. unfold Poisson.previous_index.
  replace (fe_index >=? min_fe_index)%Z with true by (symmetry; apply Z.geb_le; lia).
  rewrite andb_false_r. f_equal.
  destruct (Z.gtb_spec fe_index min_fe_index).
  - rewrite unsigned_int_small by lia. lia.
  - lia.
Qed.

(** X13: p-refinement moves to the element of the next degree: in the
    collection [FE_Q(1) .. FE_Q(max_p_degree)], the index after [fe_index]
    is [fe_index + 1], except for the last index, which is its own
    successor; so the degree goes up by one but never above
    [max_p_degree]. *)
Theorem next_index_raises_degree max_p_degree fe_index degree :
  (0 <= max_p_degree < 2 ^ 32 - 1)%Z ->
  (0 <= fe_index)%Z ->
  let fe_collection := Poisson.fe_collection max_p_degree in
  Poisson.degree_at fe_collection fe_index = Some degree ->
  Poisson.next_index fe_collection fe_index = Z.min (fe_index + 1) (max_p_degree - 1) /\
  Poisson.degree_at fe_collection (Poisson.next_index fe_collection fe_index) =
    Some (Z.min (degree + 1) max_p_degree).
Proof.
  intros Hmax Hi fe_collection Hdeg. subst fe_collection.
  rewrite degree_at_fe_collection in Hdeg by exact Hi.
  destruct (decide (fe_index < max_p_degree)%Z) as [Hlt|]; [|discriminate].
  injection Hdeg as <-.
  rewrite next_index_in_collection by (rewrite size_fe_collection; lia).
  rewrite size_fe_collection by lia. split; [reflexivity|].
  rewrite degree_at_fe_collection by lia.
  rewrite decide_True by lia. f_equal. lia.
Qed.

Lemma next_index_raises_degree_witness :
  let fe_collection := Poisson.fe_collection 7 in
  Poisson.next_index fe_collection 6 = Z.min (6 + 1) (7 - 1) /\
  Poisson.degree_at fe_collection (Poisson.next_index fe_collection 6) =
    Some (Z.min (7 + 1) 7).
Proof.
  apply (next_index_raises_degree 7 6 7); [lia|lia|reflexivity].
Defined.

(** X14: p-coarsening inside the hierarchy moves to the element of the
    previous degree: for an index at or above [min_fe_index] the index
    before it is [fe_index - 1], except for [min_fe_index], which is its
    own predecessor; the [Assert] holds, so debug and release builds
    agree. *)
Theorem previous_index_stops_at_min_fe_index DEBUG min_fe_index fe_index :
  (0 <= min_fe_index <= fe_index)%Z -> (fe_index < 2 ^ 32)%Z ->
  Poisson.previous_index DEBUG min_fe_index fe_index =
  Some (Z.max (fe_index - 1) min_fe_index).
Proof. apply previous_index_in_hierarchy. Qed.

Lemma previous_index_stops_at_min_fe_index_witness :
  Poisson.previous_index true (Poisson.min_fe_index 2) 1 = Some (Z.max (1 - 1) 1).
Proof.
  apply (previous_index_stops_at_min_fe_index true (Poisson.min_fe_index 2) 1);
    vm_compute; intuition discriminate.
Defined.

(** X15: Below the hierarchy the builds differ: for an index under
    [min_fe_index] a debug build stops at the [Assert], a release build
    returns the index unchanged. *)
Theorem previous_index_below_hierarchy min_fe_index fe_index :
  (fe_index < min_fe_index)%Z ->
  Poisson.previous_index true min_fe_index fe_index = None /\
  Poisson.previous_index false min_fe_index fe_index = Some fe_index.
Proof.
  intros Hlt. unfold Poisson.previous_index.
  replace (fe_index >=? min_fe_index)%Z with false
    by (symmetry; rewrite Z.geb_leb; apply Z.leb_gt; lia).
  replace (fe_index >? min_fe_index)%Z with false
    by (symmetry; rewrite Z.gtb_ltb; apply Z.ltb_ge; lia).
  auto.
Qed.

Lemma previous_index_below_hierarchy_witness :
  Poisson.previous_index true (Poisson.min_fe_index 3) 0 = None /\
  Poisson.previous_index false (Poisson.min_fe_index 3) 0 = Some 0%Z.
Proof.
  apply (previous_index_below_hierarchy (Poisson.min_fe_index 3) 0).
  vm_compute. reflexivity.
Defined.

(** X16: Inside the hierarchy the two index functions undo each other: going
    up from an index that is not the last one and down again, or down from
    an index above [min_fe_index] and up again, gives the index back. *)
Theorem next_and_previous_index_are_inverse
    DEBUG collection min_fe_index fe_index :
  (Poisson.size collection < 2 ^ 32)%Z ->
  (0 <= min_fe_index <= fe_index)%Z ->
  (fe_index < Poisson.size collection)%Z ->
  ((fe_index + 1 < Poisson.size collection)%Z ->
   Poisson.previous_index DEBUG min_fe_index (Poisson.next_index collection fe_index) =
   Some fe_index) /\
  ((min_fe_index < fe_index)%Z ->
   Poisson.next_index collection <$> Poisson.previous_index DEBUG min_fe_index fe_index =
   Some fe_index).
Proof.
  intros Hsize Hmin Hi. split.
  - intros Hnext. rewrite next_index_in_collection by lia.
    rewrite previous_index_in_hierarchy by lia. f_equal. lia.
  - intros Hprev. rewrite previous_index_in_hierarchy by lia. cbn.
    rewrite next_index_in_collection by lia. f_equal. lia.
Qed.

Lemma next_and_previous_index_are_inverse_witness :
  let collection := Poisson.fe_collection 7 in
  Poisson.previous_index true 1 (Poisson.next_index collection 3) = Some 3%Z /\
  Poisson.next_index collection <$> Poisson.previous_index true 1 3 = Some 3%Z.
Proof.
  intros collection.
  destruct (next_and_previous_index_are_inverse true collection 1 3) as [Hup Hdown];
    [vm_compute; reflexivity|lia|vm_compute; reflexivity|].
  split; [apply Hup; vm_compute; reflexivity|apply Hdown; lia].
Defined.

(** X17: The hierarchy is a chain from the element that [initialize_grid]
    assigns to every cell: [k] steps of p-refinement from [min_fe_index]
    reach the element of degree [min_p_degree + k], until the degree is
    [max_p_degree], where further steps stay. *)
Theorem refinement_steps_from_min_fe_index min_p_degree max_p_degree k :
  (1 <= min_p_degree <= max_p_degree)%Z -> (max_p_degree < 2 ^ 32 - 1)%Z ->
  let fe_collection := Poisson.fe_collection max_p_degree in
  Poisson.degree_at fe_collection
    (Nat.iter k (Poisson.next_index fe_collection) (Poisson.min_fe_index min_p_degree)) =
  Some (Z.min (min_p_degree + Z.of_nat k) max_p_degree).
Proof.
  intros Hmin Hmax fe_collection. subst fe_collection.
  assert (Hiter :
    Nat.iter k (Poisson.next_index (Poisson.fe_collection max_p_degree))
      (Poisson.min_fe_index min_p_degree) =
    Z.min (min_p_degree - 1 + Z.of_nat k) (max_p_degree - 1)).
  { induction k as [|k IH].
    - change (Nat.iter 0 ?f ?x) with x. unfold Poisson.min_fe_index.
      rewrite unsigned_int_small by lia. lia.
    - change (Nat.iter (S k) ?f ?x) with (f (Nat.iter k f x)). rewrite IH.
      rewrite next_index_in_collection by (rewrite size_fe_collection; lia).
      rewrite size_fe_collection by lia. lia. }
  rewrite Hiter, degree_at_fe_collection by lia.
  rewrite decide_True by lia. f_equal. lia.
Qed.

Lemma refinement_steps_from_min_fe_index_witness :
  let fe_collection := Poisson.fe_collection 7 in
  Poisson.degree_at fe_collection
    (Nat.iter 3 (Poisson.next_index fe_collection) (Poisson.min_fe_index 2)) =
  Some (Z.min (2 + Z.of_nat 3) 7).
Proof.
  apply (refinement_steps_from_min_fe_index 2 7 3); lia.
Defined.

(** X18: Coarsening never leaves the hierarchy: [k] steps of p-coarsening from
    an index at or above [min_fe_index] go down by [k] but not below
    [min_fe_index], in debug and release builds alike. *)
Theorem coarsening_steps_stop_at_min_fe_index DEBUG min_fe_index fe_index k :
  (0 <= min_fe_index <= fe_index)%Z -> (fe_index < 2 ^ 32)%Z ->
  coarsen DEBUG min_fe_index k fe_index =
  Some (Z.max (fe_index - Z.of_nat k) min_fe_index).
Proof.
  intros Hmin Hi. unfold coarsen. induction k as [|k IH].
  - change (Nat.iter 0 ?f ?x) with x. f_equal. lia.
  - change (Nat.iter (S k) ?f ?x) with (f (Nat.iter k f x)). rewrite IH.
    cbn [mbind option_bind].
    rewrite previous_index_in_hierarchy by lia. f_equal. lia.
Qed.

Lemma coarsening_steps_stop_at_min_fe_index_witness :
  coarsen true 1 5 4 = Some (Z.max (4 - Z.of_nat 5) 1).
Proof.
  apply (coarsening_steps_stop_at_min_fe_index true 1 4 5); lia.
Defined.

(** X19: An index outside the collection is its own successor, with one
    exception: for the largest [unsigned int], [fe_index + 1] wraps to 0,
    which is inside a collection that is not empty, so its successor is
    index 0. *)
Theorem next_index_outside_collection collection fe_index :
  (Poisson.size collection <= fe_index < 2 ^ 32)%Z ->
  Poisson.next_index collection fe_index =
  if decide (fe_index = 2 ^ 32 - 1 /\ collection <> [])%Z then 0%Z else fe_index.
Proof.
  intros Hi. unfold Poisson.next_index.
  assert (Hsize : (0 <= Poisson.size collection)%Z) by (unfold Poisson.size; lia).
  destruct (decide (fe_index = 2 ^ 32 - 1)%Z) as [->|Hne].
  - replace (2 ^ 32 - 1 + 1)%Z with (2 ^ 32)%Z by lia.
    change (Poisson.unsigned_int (2 ^ 32)) with 0%Z.
    destruct collection as [|x collection].
    + rewrite decide_False by tauto. reflexivity.
    + rewrite decide_True by (split; [reflexivity|discriminate]).
      unfold Poisson.size. cbn [length].
      destruct (Z.ltb_spec 0 (Z.of_nat (S (length collection)))); [reflexivity|lia].
  - rewrite decide_False by tauto.
    rewrite unsigned_int_small by lia.
    destruct (Z.ltb_spec (fe_index + 1) (Poisson.size collection)); [lia|reflexivity].
Qed.

Lemma next_index_outside_collection_witness :
  Poisson.next_index (Poisson.fe_collection 7) (2 ^ 32 - 1) = 0%Z.
Proof.
  apply (next_index_outside_collection (Poisson.fe_collection 7) (2 ^ 32 - 1)).
  vm_compute. intuition discriminate.
Defined.

(** X20: The element that [initialize_grid] assigns to every cell has the
    degree [min_p_degree] exactly when [1 <= min_p_degree <= max_p_degree];
    for every other [min_p_degree] (0, for which [min_fe_index] wraps to
    2^32 - 1, or one above [max_p_degree]) the index is outside the
    collection. *)
Theorem initial_fe_index_has_min_p_degree min_p_degree max_p_degree :
  (0 <= min_p_degree < 2 ^ 32)%Z -> (0 <= max_p_degree < 2 ^ 32 - 1)%Z ->
  Poisson.degree_at (Poisson.fe_collection max_p_degree)
    (Poisson.min_fe_index min_p_degree) =
  if decide (1 <= min_p_degree <= max_p_degree)%Z then Some min_p_degree else None.
Proof.
  intros Hmin Hmax. unfold Poisson.min_fe_index.
  destruct (decide (min_p_degree = 0%Z)) as [->|Hpos].
  - change (Poisson.unsigned_int (0 - 1)) with (2 ^ 32 - 1)%Z.
    rewrite degree_at_fe_collection by lia.
    rewrite !decide_False by lia. reflexivity.
  - rewrite unsigned_int_small by lia.
    rewrite degree_at_fe_collection by lia.
    destruct (decide (1 <= min_p_degree <= max_p_degree)%Z).
    + rewrite decide_True by lia. f_equal. lia.
    + rewrite decide_False by lia. reflexivity.
Qed.

Lemma initial_fe_index_has_min_p_degree_witness :
  Poisson.degree_at (Poisson.fe_collection 7) (Poisson.min_fe_index 2) = Some 2%Z.
Proof.
  apply (initial_fe_index_has_min_p_degree 2 7); lia.
Defined.

(** * The diagnostics of the Poisson problem *)

Lemma mapM_lookup_seq (v : list Z) : forall m a,
  mapM (fun i => v !! i) (seq a m) =
  if decide (m = 0 \/ a + m <= length v) then Some (take m (drop a v)) else None.
Proof.
  induction m as [|m IH]; intros a.
  - rewrite decide_True by auto. reflexivity.
  - cbn [seq mapM]. rewrite IH.
    destruct (v !! a) as [x|] eqn:Hx.
    + pose proof (lookup_lt_Some _ _ _ Hx) as Ha. cbn [mbind option_bind].
      destruct (decide (m = 0 \/ S a + m <= length v)) as [Hm|Hm].
      * rewrite decide_True by lia. cbn [mbind option_bind mret option_ret].
        f_equal. rewrite (drop_S _ _ _ Hx). reflexivity.
      * rewrite decide_False by lia. reflexivity.
    + apply lookup_ge_None in Hx. cbn [mbind option_bind].
      rewrite decide_False by lia. reflexivity.
Qed.

Lemma int_mod z : (Poisson.int z mod 2 ^ 32 = z mod 2 ^ 32)%Z.
Proof.
  unfold Poisson.int.
  rewrite Zminus_mod, Zmod_mod, <- Zminus_mod.
  f_equal. lia.
Qed.

Lemma mod_width_mod width z :
  width = 32%Z \/ width = 64%Z ->
  ((z mod 2 ^ width) mod 2 ^ 32 = z mod 2 ^ 32)%Z.
Proof.
  intros [->| ->].
  - apply Zmod_mod.
  - apply Z.mod_mod_divide. exists (2 ^ 32)%Z. reflexivity.
Qed.

(** X21: A "by partition" line shows the counts of the first eight processes
    at most: the first [min(8, n_processes)] elements of the gathered
    vector, each after a blank, then " ..." exactly when there are more
    than eight processes, then the end of the line.  A gathered vector
    with fewer elements than that is read past its end. *)
Theorem by_partition_shows_first_eight n_processes per_subdomain :
  Poisson.by_partition n_processes per_subdomain =
  if decide (Z.min 8 n_processes <= Z.of_nat (length per_subdomain))%Z
  then Some (flat_map (fun n => [Poisson.Text " "; Poisson.Number n])
                      (take (Z.to_nat (Z.min 8 n_processes)) per_subdomain) ++
             (if decide (8 < n_processes)%Z then [Poisson.Text " ..."] else []) ++
             [Poisson.Endl])
  else None.
Proof.
  unfold Poisson.by_partition, Poisson.output_cropped, Poisson.first_n_processes.
  rewrite mapM_lookup_seq. rewrite drop_0.
  destruct (decide (Z.min 8 n_processes <= Z.of_nat (length per_subdomain))%Z)
    as [Hin|Hout].
  - rewrite decide_True by lia. cbn [mbind option_bind].
    destruct (Z.ltb_spec (Z.min 8 n_processes) n_processes).
    + rewrite decide_True by lia. reflexivity.
    + rewrite decide_False by lia. reflexivity.
  - rewrite decide_False by lia. reflexivity.
Qed.

(** X22: The number printed and recorded as "constraints" is the sum of the
    per-process counts modulo 2^32, with 32-bit and with 64-bit indices:
    the sum is accumulated in an [int] and stored in an [unsigned int]. *)
Theorem n_constraints_is_sum_modulo_2_32 width n_constraints_per_subdomain :
  width = 32%Z \/ width = 64%Z ->
  Poisson.n_constraints width n_constraints_per_subdomain =
  (total n_constraints_per_subdomain mod 2 ^ 32)%Z.
Proof.
  intros Hwidth. unfold Poisson.n_constraints.
  assert (Hfold : forall v acc,
    Poisson.unsigned_int
      (foldl (fun acc n => Poisson.int ((acc + n) mod 2 ^ width)%Z) acc v) =
    ((acc + total v) mod 2 ^ 32)%Z).
  { induction v as [|n v IH]; intros acc.
    - cbn [foldl total foldr]. unfold Poisson.unsigned_int. f_equal. lia.
    - cbn [foldl total foldr]. rewrite IH. fold (total v).
      rewrite Zplus_mod, int_mod, (mod_width_mod width _ Hwidth), <- Zplus_mod.
      f_equal. lia. }
  rewrite Hfold. f_equal.
Qed.

Lemma n_constraints_is_sum_modulo_2_32_witness :
  Poisson.n_constraints 64 [3000000000; 2000000000]%Z =
  (total [3000000000; 2000000000] mod 2 ^ 32)%Z.
Proof.
  apply (n_constraints_is_sum_modulo_2_32 64 [3000000000; 2000000000]%Z).
  right. reflexivity.
Defined.

(** * The cycles of the Poisson problem *)

Lemma solve_run env op t :
  Poisson.solve env op t =
  if Poisson.DEBUG env &&
     negb (String.eqb (Poisson.solver_type env) "AMG" ||
           String.eqb (Poisson.solver_type env) "GMG")
  then (t ++ [Poisson.InitializeDofVector op; Poisson.InitializeDofVector op;
              Poisson.CopySystemRhs; Poisson.MakeSolverControl],
        Poisson.AssertFailed)
  else (t ++ solve_calls env op, Poisson.Done).
Proof.
  unfold Poisson.solve, solve_calls, solver_calls.
  destruct (String.eqb (Poisson.solver_type env) "AMG");
    [|destruct (String.eqb (Poisson.solver_type env) "GMG")];
    cbn [orb negb andb]; rewrite ?andb_false_r, ?andb_true_r.
  - cbn [Poisson.steps Poisson.emit app]. rewrite <- !app_assoc. reflexivity.
  - destruct op; cbn [Poisson.steps Poisson.emit app];
      rewrite <- !app_assoc; reflexivity.
  - unfold Poisson.Assert. cbn [negb]. rewrite andb_true_r.
    destruct (Poisson.DEBUG env); cbn [Poisson.steps Poisson.emit app];
      rewrite <- !app_assoc; reflexivity.
Qed.

Lemma run_cycle_run env cycle t :
  asserts_hold env = true ->
  Poisson.run_cycle env cycle t = (t ++ cycle_calls env cycle, Poisson.Done).
Proof.
  unfold asserts_hold. intros Hok.
  unfold Poisson.run_cycle, cycle_calls, operator_calls.
  destruct (String.eqb (Poisson.operator_type env) "MatrixBased") eqn:Hmb;
    [|destruct (String.eqb (Poisson.operator_type env) "MatrixFree") eqn:Hmf];
    cbn [orb andb] in Hok.
  - destruct (Nat.eqb cycle 0); cbn [Poisson.steps Poisson.emit]; rewrite solve_run;
      (replace (Poisson.DEBUG env && negb _) with false
         by (destruct (Poisson.DEBUG env), (_ || _); cbn in *; congruence));
      destruct (Nat.eqb (Poisson.this_mpi_process env) 0);
      cbn [Poisson.steps Poisson.emit app]; rewrite <- !app_assoc; reflexivity.
  - destruct (Nat.eqb cycle 0); cbn [Poisson.steps Poisson.emit]; rewrite solve_run;
      (replace (Poisson.DEBUG env && negb _) with false
         by (destruct (Poisson.DEBUG env), (_ || _); cbn in *; congruence));
      destruct (Nat.eqb (Poisson.this_mpi_process env) 0);
      cbn [Poisson.steps Poisson.emit app]; rewrite <- !app_assoc; reflexivity.
  - rewrite orb_false_r in Hok. apply negb_true_iff in Hok.
    unfold Poisson.Assert. rewrite Hok.
    destruct (Nat.eqb cycle 0), (Nat.eqb (Poisson.this_mpi_process env) 0);
      cbn [Poisson.steps Poisson.emit app andb]; rewrite <- !app_assoc; reflexivity.
Qed.

Lemma steps_run_cycle env cycles : forall t,
  asserts_hold env = true ->
  Poisson.steps (map (Poisson.run_cycle env) cycles) t =
  (t ++ concat (map (cycle_calls env) cycles), Poisson.Done).
Proof.
  induction cycles as [|cycle cycles IH]; intros t Hok.
  - cbn. rewrite app_nil_r. reflexivity.
  - cbn [map Poisson.steps concat]. rewrite (run_cycle_run env cycle t Hok).
    rewrite IH by exact Hok. rewrite <- app_assoc. reflexivity.
Qed.

Lemma run_run env :
  asserts_hold env = true ->
  Poisson.run env [] =
  (Poisson.SetAutoFillMode ::
     concat (map (cycle_calls env) (seq 0 (Poisson.n_cycles env))),
   Poisson.Done).
Proof.
  intros Hok. unfold Poisson.run. cbn [Poisson.steps Poisson.emit].
  rewrite steps_run_cycle by exact Hok. reflexivity.
Qed.

Lemma filter_concat_map {A B} (p : B -> bool) (f : A -> list B) l :
  List.filter p (concat (map f l)) = concat (map (fun x => List.filter p (f x)) l).
Proof.
  induction l as [|x l IH]; [reflexivity|].
  cbn [map concat]. rewrite List.filter_app, IH. reflexivity.
Qed.

Lemma filter_solve_calls_false (p : Poisson.call -> bool) env op :
  (forall c, is_solve_step c = true -> p c = false) ->
  List.filter p (solve_calls env op) = [].
Proof.
  intros Hp. unfold solve_calls, solver_calls.
  destruct (String.eqb (Poisson.solver_type env) "AMG");
    [|destruct (String.eqb (Poisson.solver_type env) "GMG")];
    destruct op; cbn [app List.filter];
    rewrite ?Hp by reflexivity; reflexivity.
Qed.

Lemma filter_operator_calls_false (p : Poisson.call -> bool) env :
  (forall c, is_solve_step c = true -> p c = false) ->
  List.filter p (operator_calls env) = [].
Proof.
  intros Hp. unfold operator_calls.
  destruct (String.eqb (Poisson.operator_type env) "MatrixBased");
    [|destruct (String.eqb (Poisson.operator_type env) "MatrixFree")];
    cbn [List.filter]; rewrite ?Hp by reflexivity;
    try apply filter_solve_calls_false; auto.
Qed.

(** X23: [solve] with a solver type that is neither "AMG" nor "GMG": a debug
    build stops at the [Assert] before anything is logged; a release build
    runs no solver, but prints and records an iteration count and
    distributes the constraints as after a solve. *)
Theorem solve_with_unknown_solver_type env op t :
  Poisson.solver_type env <> "AMG" -> Poisson.solver_type env <> "GMG" ->
  Poisson.solve env op t =
  if Poisson.DEBUG env
  then (t ++ [Poisson.InitializeDofVector op; Poisson.InitializeDofVector op;
              Poisson.CopySystemRhs; Poisson.MakeSolverControl],
        Poisson.AssertFailed)
  else (t ++ [Poisson.InitializeDofVector op; Poisson.InitializeDofVector op;
              Poisson.CopySystemRhs; Poisson.MakeSolverControl;
              Poisson.PrintIterations; Poisson.AddValue "iteratations";
              Poisson.Distribute; Poisson.CopySolution; Poisson.UpdateGhostValues],
        Poisson.Done).
Proof.
  intros Hamg Hgmg. rewrite solve_run. unfold solve_calls, solver_calls.
  apply String.eqb_neq in Hamg, Hgmg. rewrite Hamg, Hgmg.
  cbn [orb negb]. rewrite andb_true_r. reflexivity.
Qed.

Lemma solve_with_unknown_solver_type_witness :
  (Poisson.solve (sample_problem false "MatrixFree" "gmg" 1 0) Poisson.MatrixFree []).2 =
  Poisson.Done.
Proof.
  rewrite (solve_with_unknown_solver_type
             (sample_problem false "MatrixFree" "gmg" 1 0) Poisson.MatrixFree []);
    [reflexivity|discriminate|discriminate].
Defined.

(** X24: In a run whose [Assert]s hold, the grid is built once, in the first
    cycle, and refined once in each later cycle, in this order; a run of
    no cycle builds no grid. *)
Theorem grid_is_initialized_once_then_refined env :
  asserts_hold env = true ->
  let r := Poisson.run env [] in
  r.2 = Poisson.Done /\
  List.filter is_grid_change r.1 =
    match Poisson.n_cycles env with
    | 0 => []
    | S later => Poisson.InitializeGrid :: replicate later Poisson.Refine
    end.
Proof.
  intros Hok r. subst r. rewrite (run_run env Hok). cbn [fst snd].
  split; [reflexivity|]. cbn [List.filter is_grid_change].
  rewrite filter_concat_map.
  assert (Hcycle : forall cycle,
    List.filter is_grid_change (cycle_calls env cycle) =
    [if Nat.eqb cycle 0 then Poisson.InitializeGrid else Poisson.Refine]).
  { intros cycle. unfold cycle_calls. rewrite !List.filter_app.
    rewrite filter_operator_calls_false
      by (intros c; destruct c; cbn; congruence).
    destruct (Nat.eqb cycle 0), (Nat.eqb (Poisson.this_mpi_process env) 0);
      reflexivity. }
  rewrite (map_ext _ _ Hcycle).
  destruct (Poisson.n_cycles env) as [|later]; [reflexivity|].
  cbn [seq map concat app Nat.eqb]. f_equal.
  assert (Hgen : forall n a, 1 <= a ->
    concat (map (fun cycle => [if Nat.eqb cycle 0 then Poisson.InitializeGrid
                               else Poisson.Refine]) (seq a n)) =
    replicate n Poisson.Refine).
  { induction n as [|n IH]; intros b Hb; [reflexivity|].
    cbn [seq map concat app replicate]. rewrite IH by lia.
    destruct b; [lia|reflexivity]. }
  apply Hgen. lia.
Qed.

Lemma grid_is_initialized_once_then_refined_witness :
  let r := Poisson.run (sample_problem true "MatrixFree" "GMG" 3 0) [] in
  r.2 = Poisson.Done /\
  List.filter is_grid_change r.1 =
    [Poisson.InitializeGrid; Poisson.Refine; Poisson.Refine].
Proof.
  apply (grid_is_initialized_once_then_refined
           (sample_problem true "MatrixFree" "GMG" 3 0)).
  reflexivity.
Defined.

(** X25: In a run whose [Assert]s hold, process 0 writes the table to the log
    file once at the end of every cycle, each time to the same file name,
    so that the file ends up with the table of the last cycle; the other
    processes never write it. *)
Theorem log_file_is_rewritten_every_cycle_on_process_0 env :
  asserts_hold env = true ->
  let r := Poisson.run env [] in
  List.filter is_write_log r.1 =
    if Nat.eqb (Poisson.this_mpi_process env) 0
    then replicate (Poisson.n_cycles env) (Poisson.WriteLog (Poisson.filename_log env))
    else [].
Proof.
  intros Hok r. subst r. rewrite (run_run env Hok).
  cbn [fst List.filter is_write_log]. rewrite filter_concat_map.
  assert (Hcycle : forall cycle,
    List.filter is_write_log (cycle_calls env cycle) =
    if Nat.eqb (Poisson.this_mpi_process env) 0
    then [Poisson.WriteLog (Poisson.filename_log env)] else []).
  { intros cycle. unfold cycle_calls. rewrite !List.filter_app.
    rewrite filter_operator_calls_false
      by (intros c; destruct c; cbn; congruence).
    destruct (Nat.eqb cycle 0), (Nat.eqb (Poisson.this_mpi_process env) 0);
      reflexivity. }
  rewrite (map_ext _ _ Hcycle).
  destruct (Nat.eqb (Poisson.this_mpi_process env) 0).
  - generalize 0. induction (Poisson.n_cycles env) as [|n IH]; intros a.
    + reflexivity.
    + cbn [seq map concat replicate app]. rewrite IH. reflexivity.
  - generalize 0. induction (Poisson.n_cycles env) as [|n IH]; intros a.
    + reflexivity.
    + cbn [seq map concat app]. apply IH.
Qed.

Lemma log_file_is_rewritten_every_cycle_on_process_0_witness :
  let env := sample_problem false "MatrixFree" "GMG" 2 0 in
  List.filter is_write_log (Poisson.run env []).1 =
  [Poisson.WriteLog "poisson_weights-20241027-120000.log";
   Poisson.WriteLog "poisson_weights-20241027-120000.log"].
Proof.
  intros env.
  apply (log_file_is_rewritten_every_cycle_on_process_0 env). reflexivity.
Defined.

(** X26: With a known operator type and a known solver type, every cycle calls
    one linear solver, the same in every cycle: the AMG solver for "AMG",
    the GMG solver for "GMG", on the operator named by [operator_type];
    the GMG solver also gets [fe_values_collection] with the matrix-based
    operator, and only with it. *)
Theorem every_cycle_calls_the_selected_solver env op :
  (Poisson.operator_type env = "MatrixBased" /\ op = Poisson.MatrixBased) \/
  (Poisson.operator_type env = "MatrixFree" /\ op = Poisson.MatrixFree) ->
  Poisson.solver_type env = "AMG" \/ Poisson.solver_type env = "GMG" ->
  let r := Poisson.run env [] in
  r.2 = Poisson.Done /\
  List.filter is_solver_call r.1 =
    replicate (Poisson.n_cycles env)
      (if String.eqb (Poisson.solver_type env) "AMG" then Poisson.SolveAMG op
       else Poisson.SolveGMG op
              (match op with
               | Poisson.MatrixBased => true
               | Poisson.MatrixFree => false
               end)).
Proof.
  intros Hop Hsolver r. subst r.
  assert (Hok : asserts_hold env = true).
  { unfold asserts_hold.
    destruct Hop as [[-> _]|[-> _]], Hsolver as [->| ->];
      cbn; apply orb_true_r. }
  rewrite (run_run env Hok). cbn [fst snd]. split; [reflexivity|].
  cbn [List.filter is_solver_call]. rewrite filter_concat_map.
  assert (Hcycle : forall cycle,
    List.filter is_solver_call (cycle_calls env cycle) =
    [if String.eqb (Poisson.solver_type env) "AMG" then Poisson.SolveAMG op
     else Poisson.SolveGMG op
            (match op with
             | Poisson.MatrixBased => true
             | Poisson.MatrixFree => false
             end)]).
  { intros cycle. unfold cycle_calls, operator_calls, solve_calls, solver_calls.
    rewrite !List.filter_app.
    destruct Hop as [[-> ->]|[-> ->]], Hsolver as [->| ->];
      destruct (Nat.eqb cycle 0), (Nat.eqb (Poisson.this_mpi_process env) 0);
      reflexivity. }
  rewrite (map_ext _ _ Hcycle).
  generalize 0. induction (Poisson.n_cycles env) as [|n IH]; intros a.
  - reflexivity.
  - cbn [seq map concat replicate app]. rewrite IH. reflexivity.
Qed.

Lemma every_cycle_calls_the_selected_solver_witness :
  let env := sample_problem true "MatrixBased" "GMG" 2 1 in
  let r := Poisson.run env [] in
  r.2 = Poisson.Done /\
  List.filter is_solver_call r.1 =
    [Poisson.SolveGMG Poisson.MatrixBased true;
     Poisson.SolveGMG Poisson.MatrixBased true].
Proof.
  intros env.
  apply (every_cycle_calls_the_selected_solver env Poisson.MatrixBased);
    [left; split; reflexivity|right; reflexivity].
Defined.

(** X27: [run] with an operator type that is neither "MatrixBased" nor
    "MatrixFree": a debug build stops at the [Assert] of the first cycle,
    after the grid is built and the system set up and before anything is
    computed or written; a release build goes through every cycle without
    [reinit] and without [solve], and computes the errors, marks cells and
    writes the results of a solution that was never solved for. *)
Theorem run_with_unknown_operator_type env :
  Poisson.operator_type env <> "MatrixBased" ->
  Poisson.operator_type env <> "MatrixFree" ->
  Poisson.run env [] =
  if Poisson.DEBUG env then
    match Poisson.n_cycles env with
    | 0 => ([Poisson.SetAutoFillMode], Poisson.Done)
    | S _ => ([Poisson.SetAutoFillMode; Poisson.PrintCycle 0; Poisson.AddValue "cycle";
               Poisson.InitializeGrid; Poisson.SetupSystem; Poisson.LogDiagnostics],
              Poisson.AssertFailed)
    end
  else (Poisson.SetAutoFillMode ::
          concat (map (cycle_calls_without_solve env) (seq 0 (Poisson.n_cycles env))),
        Poisson.Done).
Proof.
  intros Hmb Hmf. apply String.eqb_neq in Hmb, Hmf.
  destruct (Poisson.DEBUG env) eqn:Hdebug.
  - unfold Poisson.run. destruct (Poisson.n_cycles env) as [|n]; [reflexivity|].
    cbn [seq map Poisson.steps Poisson.emit app]. unfold Poisson.run_cycle.
    rewrite Hmb, Hmf, Hdebug. reflexivity.
  - rewrite run_run by (unfold asserts_hold; rewrite Hdebug; reflexivity).
    do 3 f_equal. apply map_ext. intros cycle.
    unfold cycle_calls, cycle_calls_without_solve, operator_calls.
    rewrite Hmb, Hmf. reflexivity.
Qed.

Lemma run_with_unknown_operator_type_witness :
  Poisson.run (sample_problem true "matrixfree" "GMG" 3 0) [] =
  ([Poisson.SetAutoFillMode; Poisson.PrintCycle 0; Poisson.AddValue "cycle";
    Poisson.InitializeGrid; Poisson.SetupSystem; Poisson.LogDiagnostics],
   Poisson.AssertFailed).
Proof.
  apply (run_with_unknown_operator_type (sample_problem true "matrixfree" "GMG" 3 0));
    discriminate.
Defined.

(** * The constructor of the Poisson problem *)

Lemma steps_emit calls : forall t l,
  Poisson.steps (map Poisson.emit calls ++ l) t = Poisson.steps l (t ++ calls).
Proof.
  induction calls as [|c calls IH]; intros t l.
  - rewrite app_nil_r. reflexivity.
  - cbn [map app Poisson.steps Poisson.emit].
    rewrite IH, <- app_assoc. reflexivity.
Qed.

Lemma constructor_known_operator_type env :
  Poisson.DEBUG env = true ->
  (Poisson.constructor env []).2 = Poisson.Done ->
  Poisson.operator_type env = "MatrixBased" \/ Poisson.operator_type env = "MatrixFree".
Proof.
  intros Hdebug. unfold Poisson.constructor.
  change ([Poisson.emit Poisson.MakeFilenameLog; Poisson.emit Poisson.PushBackMapping])
    with (map Poisson.emit [Poisson.MakeFilenameLog; Poisson.PushBackMapping]).
  rewrite steps_emit.
  rewrite (flat_map_ext _
             (fun degree => map Poisson.emit
                [Poisson.PushBackFE degree;
                 Poisson.PushBackQuadrature (Poisson.unsigned_int (degree + 1))]))
    by reflexivity.
  assert (Hmap : forall (f : Z -> list Poisson.call) l,
    flat_map (fun d => map Poisson.emit (f d)) l = map Poisson.emit (flat_map f l)).
  { intros f l. induction l as [|d l IH]; [reflexivity|].
    cbn [flat_map]. rewrite IH, map_app. reflexivity. }
  rewrite Hmap, steps_emit.
  destruct (String.eqb_spec (Poisson.operator_type env) "MatrixBased") as [|_]; [auto|].
  destruct (String.eqb_spec (Poisson.operator_type env) "MatrixFree") as [|_]; [auto|].
  cbn [Poisson.steps Poisson.emit]. unfold Poisson.Assert. rewrite Hdebug.
  cbn. discriminate.
Qed.

(** X28: A problem object whose construction returned runs through all its
    cycles whenever the solver type is "AMG" or "GMG": in a debug build the
    constructor has already stopped at its [Assert] for every operator type
    other than "MatrixBased" and "MatrixFree", so the [Assert] on the
    operator type in [run] cannot fail, and a release build has no
    [Assert]. *)
Theorem constructed_problem_runs_all_cycles env :
  (Poisson.constructor env []).2 = Poisson.Done ->
  Poisson.solver_type env = "AMG" \/ Poisson.solver_type env = "GMG" ->
  (Poisson.DEBUG env = true ->
   Poisson.operator_type env = "MatrixBased" \/
   Poisson.operator_type env = "MatrixFree") /\
  (Poisson.run env []).2 = Poisson.Done.
Proof.
  intros Hdone Hsolver.
  assert (Hop : Poisson.DEBUG env = true ->
                Poisson.operator_type env = "MatrixBased" \/
                Poisson.operator_type env = "MatrixFree")
    by (intros Hdebug; apply constructor_known_operator_type; assumption).
  split; [exact Hop|].
  rewrite run_run; [reflexivity|].
  unfold asserts_hold. destruct (Poisson.DEBUG env); [|reflexivity].
  destruct (Hop eq_refl) as [-> | ->], Hsolver as [-> | ->]; reflexivity.
Qed.

Lemma constructed_problem_runs_all_cycles_witness :
  let env := sample_problem true "MatrixFree" "GMG" 2 0 in
  (Poisson.DEBUG env = true ->
   Poisson.operator_type env = "MatrixBased" \/
   Poisson.operator_type env = "MatrixFree") /\
  (Poisson.run env []).2 = Poisson.Done.
Proof.
  intros env.
  apply (constructed_problem_runs_all_cycles env);
    [vm_compute; reflexivity|right; reflexivity].
Defined.

(** * The frequencies of the polynomial degrees *)

(** X29: The local counters of [log_diagnostics] count every locally owned
    cell exactly once, under the index of its active element: with fewer
    than 2^32 cells, all of them with an active index inside the
    collection, counter [i] ends as the number of cells whose active index
    is [i]; a cell with an active index outside the collection makes the
    loop increment past the end of the vector. *)
Theorem n_fe_indices_counts_cells fe_collection active_fe_index :
  (Z.of_nat (length active_fe_index) < 2 ^ 32)%Z ->
  Poisson.n_fe_indices fe_collection active_fe_index =
  if decide (Forall (fun fe_index => fe_index < length fe_collection) active_fe_index)
  then Some ((fun i => Z.of_nat (count_occ Nat.eq_dec active_fe_index i)) <$>
             seq 0 (length fe_collection))
  else None.
Proof.
  unfold Poisson.n_fe_indices.
  induction active_fe_index as [|fe_index cells IH] using rev_ind; intros Hlen.
  - rewrite decide_True by constructor. cbn [foldl count_occ]. f_equal.
    apply list_eq. intros i. rewrite list_lookup_fmap.
    destruct (decide (i < length fe_collection)).
    + rewrite lookup_replicate_2, lookup_seq_lt by lia. reflexivity.
    + rewrite lookup_seq_ge by lia.
      apply lookup_ge_None_2. rewrite length_replicate. lia.
  - rewrite length_app in Hlen. cbn [length] in Hlen.
    rewrite foldl_app. cbn [foldl]. rewrite IH by lia.
    destruct (decide (Forall (fun fe_index => fe_index < length fe_collection) cells))
      as [Hcells|Hcells].
    2:{ rewrite decide_False; [reflexivity|].
        intros H. apply Forall_app in H. tauto. }
    cbn [mbind option_bind]. rewrite list_lookup_fmap.
    destruct (decide (fe_index < length fe_collection)) as [Hin|Hout].
    2:{ rewrite lookup_seq_ge by lia. cbn.
        rewrite decide_False; [reflexivity|].
        rewrite Forall_app, Forall_singleton. tauto. }
    rewrite lookup_seq_lt by lia. cbn [fmap option_fmap option_map mbind option_bind].
    rewrite decide_True by (rewrite Forall_app, Forall_singleton; tauto).
    f_equal. apply list_eq. intros i.
    pose proof (count_occ_bound Nat.eq_dec fe_index cells) as Hbound.
    change (0 + fe_index) with fe_index.
    rewrite unsigned_int_small by lia.
    rewrite list_lookup_fmap.
    destruct (decide (i < length fe_collection)) as [Hi|Hi].
    + rewrite lookup_seq_lt by lia. cbn [fmap option_fmap option_map Nat.add].
      rewrite count_occ_app. cbn [count_occ].
      destruct (decide (fe_index = i)) as [->|Hne].
      * rewrite list_lookup_insert_eq
          by (rewrite length_fmap, length_seq; lia).
        destruct (Nat.eq_dec i i); [|congruence]. f_equal. lia.
      * rewrite list_lookup_insert_ne by exact Hne.
        rewrite list_lookup_fmap, lookup_seq_lt by lia.
        destruct (Nat.eq_dec fe_index i); [congruence|].
        cbn. f_equal. lia.
    + rewrite lookup_seq_ge by lia.
      apply lookup_ge_None_2. rewrite length_insert, length_fmap, length_seq. lia.
Qed.

Lemma n_fe_indices_counts_cells_witness :
  Poisson.n_fe_indices (Poisson.fe_collection 4) [1; 1; 3; 1] =
  Some [0; 3; 0; 1]%Z.
Proof.
  apply (n_fe_indices_counts_cells (Poisson.fe_collection 4) [1; 1; 3; 1]).
  vm_compute. reflexivity.
Defined.
